(** * OKX perpetual-futures trading client: a shallow embedding of the
      [OKXTrader] of package [trader] (the second part of
      [trader/test_server_helpers_test.go]) and the properties of its
      specification.

    Conventions of the embedding.
    - Go [string] is [string] (a byte sequence); [float64] is an IEEE 754
      binary64 number in the representation of the Standard Library's
      [SpecFloat], with its signed zeros, infinities and NaN; arithmetic
      rounds to the nearest number, ties to even.
    - Go's library functions ([strings], [strconv], [math], [encoding/json],
      [crypto]) are modelled in modules named after their packages.
    - Code that talks to the exchange runs in a state-and-error monad over
      the trader's mutable fields and a world made of a clock, the
      round trips issued so far, the sleeps taken and the warnings logged. *)

From Stdlib Require Import ZArith QArith Qround Qabs Qpower Lia Lqa List Bool Ascii String.
From Stdlib Require Import SpecFloat.
From stdpp Require Import base option gmap strings.

Import ListNotations.
Local Open Scope string_scope.
Local Open Scope Z_scope.

#[local] Arguments String.append : simpl nomatch.
#[local] Arguments String.length : simpl nomatch.

(** ** Package [strings] *)

Module strings.

(** [strings.HasPrefix]. *)
Fixpoint HasPrefix (s p : string) : bool :=
  match p, s with
  | EmptyString, _ => true
  | String _ _, EmptyString => false
  | String b p', String a s' => Ascii.eqb a b && HasPrefix s' p'
  end.

(** [strings.Contains]: some tail of [s] starts with [sub]. *)
Fixpoint Contains (s sub : string) : bool :=
  HasPrefix s sub ||
  match s with
  | EmptyString => false
  | String _ s' => Contains s' sub
  end.

(** [strings.HasSuffix]: some tail of [s] is [suffix] itself. *)
Fixpoint HasSuffix (s suffix : string) : bool :=
  String.eqb s suffix ||
  match s with
  | EmptyString => false
  | String _ s' => HasSuffix s' suffix
  end.

(** [strings.TrimSuffix]: [s] without the trailing [suffix], or [s]
    itself when it does not end with [suffix]. *)
Definition TrimSuffix (s suffix : string) : string :=
  if HasSuffix s suffix
  then String.substring 0 (String.length s - String.length suffix) s
  else s.

(** [strings.ReplaceAll] for a non-empty [old]: non-overlapping
    occurrences are replaced from left to right.  [skip] counts the
    bytes of an occurrence that are still to be dropped. *)
Fixpoint replaceFrom (skip : nat) (s old new : string) : string :=
  match s with
  | EmptyString => EmptyString
  | String c s' =>
      match skip with
      | S k => replaceFrom k s' old new
      | O =>
          if HasPrefix s old
          then new ++ replaceFrom (String.length old - 1) s' old new
          else String c (replaceFrom 0 s' old new)
      end
  end.

Definition ReplaceAll (s old new : string) : string := replaceFrom 0 s old new.

(** Membership of a byte in a cutset. *)
Fixpoint inCutset (c : ascii) (cutset : string) : bool :=
  match cutset with
  | EmptyString => false
  | String d cs => Ascii.eqb c d || inCutset c cs
  end.

(** [strings.TrimRight]: drop every trailing byte that is in [cutset]. *)
Fixpoint TrimRight (s cutset : string) : string :=
  match s with
  | EmptyString => EmptyString
  | String c s' =>
      match TrimRight s' cutset with
      | EmptyString => if inCutset c cutset then EmptyString else String c EmptyString
      | r => String c r
      end
  end.

End strings.

(** ** [float64] *)

(** IEEE 754 binary64 numbers in the representation of the Standard
    Library's [SpecFloat]: signed zeros and infinities, NaN, and finite
    numbers [(-1)^s * m * 2^e]. *)
Module float64.

(** Nearest integer, halves to even. *)
Definition roundHalfEven (x : Q) : Z :=
  let f := Qfloor x in
  match ((x - inject_Z f) ?= (1 # 2))%Q with
  | Lt => f
  | Gt => f + 1
  | Eq => if Z.even f then f else f + 1
  end.

(** The value of a finite number; zero for the others. *)
Definition toQ (x : spec_float) : Q :=
  match x with
  | S754_finite s m e =>
      ((if s then - inject_Z (Z.pos m) else inject_Z (Z.pos m)) * 2 ^ e)%Q
  | _ => 0%Q
  end.

Definition isFinite (x : spec_float) : bool :=
  match x with
  | S754_zero _ | S754_finite _ _ _ => true
  | _ => false
  end.

(** [floor (log2 q)] for [q > 0]. *)
Definition ilog2 (q : Q) : Z :=
  let k := Z.log2 (Qnum q) - Z.log2 (Z.pos (Qden q)) in
  if Qle_bool (2 ^ k) q then k else k - 1.

(** The exponent of the last place of the binary64 numbers around
    [q > 0]: 53 bits of mantissa, and no exponent below [-1074]. *)
Definition lastPlace (q : Q) : Z := Z.max (ilog2 q - 52) (-1074).

(** The binary64 number nearest to the magnitude [q > 0], ties to the
    even mantissa, with sign [neg]; infinity from [2 ^ 1024] on. *)
Definition round (neg : bool) (q : Q) : spec_float :=
  let e := lastPlace q in
  let m := roundHalfEven (q / 2 ^ e) in
  if m =? 0 then S754_zero neg
  else
    let '(m, e) := if m =? 2 ^ 53 then (2 ^ 52, e + 1) else (m, e) in
    if 971 <? e then S754_infinity neg else S754_finite neg (Z.to_pos m) e.

(** The binary64 number nearest to [q]; [zneg] is the sign of the zero
    given for [q = 0]. *)
Definition ofQ (zneg : bool) (q : Q) : spec_float :=
  match (q ?= 0)%Q with
  | Lt => round true (- q)
  | Gt => round false q
  | Eq => S754_zero zneg
  end.

(** An integer constant or conversion. *)
Definition ofZ (n : Z) : spec_float := ofQ false (inject_Z n).

Definition zero : spec_float := S754_zero false.

(** The operations [*], [/] and [-].  On two finite numbers the result
    is the exact result rounded to the nearest number, which is how IEEE
    754 defines them; with a zero, an infinity or a NaN among the
    operands it is read off the tables of [SpecFloat]. *)
Definition mul (x y : spec_float) : spec_float :=
  match x, y with
  | S754_finite sx _ _, S754_finite sy _ _ => ofQ (xorb sx sy) (toQ x * toQ y)
  | _, _ => SFmul 53 1024 x y
  end.

Definition div (x y : spec_float) : spec_float :=
  match x, y with
  | S754_finite sx _ _, S754_finite sy _ _ => ofQ (xorb sx sy) (toQ x / toQ y)
  | _, _ => SFdiv 53 1024 x y
  end.

Definition sub (x y : spec_float) : spec_float :=
  match x, y with
  | S754_finite _ _ _, S754_finite _ _ _ => ofQ false (toQ x - toQ y)
  | _, _ => SFsub 53 1024 x y
  end.

(** Unary minus. *)
Definition opp (x : spec_float) : spec_float := SFopp x.

(** Comparison: none with a NaN; the two zeros are equal. *)
Definition compare (x y : spec_float) : option comparison :=
  match x, y with
  | S754_nan, _ | _, S754_nan => None
  | S754_infinity sx, S754_infinity sy =>
      Some (if sx then if sy then Eq else Lt else if sy then Gt else Eq)
  | S754_infinity sx, _ => Some (if sx then Lt else Gt)
  | _, S754_infinity sy => Some (if sy then Gt else Lt)
  | _, _ => Some (toQ x ?= toQ y)%Q
  end.

(** [x < y], [x <= y] and [x == y]. *)
Definition ltb (x y : spec_float) : bool :=
  match compare x y with Some Lt => true | _ => false end.
Definition leb (x y : spec_float) : bool :=
  match compare x y with Some Lt | Some Eq => true | _ => false end.
Definition eqb (x y : spec_float) : bool :=
  match compare x y with Some Eq => true | _ => false end.

End float64.

(** ** Packages [math] and [strconv] *)

Module math.

(** [math.Floor]: zeros, infinities and NaN are returned as they are. *)
Definition Floor (x : spec_float) : spec_float :=
  match x with
  | S754_finite s _ _ => float64.ofQ s (inject_Z (Qfloor (float64.toQ x)))
  | _ => x
  end.

(** [math.Round]: nearest integer, halves away from zero, the sign
    kept. *)
Definition Round (x : spec_float) : spec_float :=
  match x with
  | S754_finite s _ _ =>
      float64.ofQ s
        (inject_Z (if s then Qceiling (float64.toQ x - (1 # 2))%Q
                   else Qfloor (float64.toQ x + (1 # 2))%Q))
  | _ => x
  end.

(** [math.Pow10(n)] for [n >= 0]: the product of two entries of the
    tables of powers [10^(32 i)] and [10^j], themselves correctly
    rounded; infinity above [10^308]. *)
Definition Pow10 (n : nat) : spec_float :=
  if (n <=? 308)%nat then
    float64.mul (float64.ofZ (10 ^ (32 * (Z.of_nat n / 32))))
                (float64.ofZ (10 ^ (Z.of_nat n mod 32)))
  else S754_infinity false.

End math.

Module strconv.

Definition isDigit (c : ascii) : bool :=
  let n := nat_of_ascii c in (48 <=? n)%nat && (n <=? 57)%nat.

Definition digitVal (c : ascii) : Z := Z.of_nat (nat_of_ascii c) - 48.

Definition digitChar (d : Z) : ascii := ascii_of_nat (Z.to_nat (48 + d)).

Fixpoint allDigits (s : string) : bool :=
  match s with
  | EmptyString => true
  | String c s' => isDigit c && allDigits s'
  end.

(** Value of a digit string read from the left with accumulator [acc]. *)
Fixpoint digitsFrom (acc : Z) (s : string) : Z :=
  match s with
  | EmptyString => acc
  | String c s' => digitsFrom (10 * acc + digitVal c) s'
  end.

Definition digitsVal (s : string) : Z := digitsFrom 0 s.

(** Optional sign: [true] for a minus sign, and the rest. *)
Definition signOf (s : string) : bool * string :=
  match s with
  | String c r =>
      if Ascii.eqb c "-" then (true, r)
      else if Ascii.eqb c "+" then (false, r)
      else (false, s)
  | EmptyString => (false, s)
  end.

(** An upper-case letter as the lower-case one. *)
Definition toLower (c : ascii) : ascii :=
  let n := nat_of_ascii c in
  if (65 <=? n)%nat && (n <=? 90)%nat then ascii_of_nat (n + 32) else c.

(** A letter among [a-f] or [A-F], and its value as a hexadecimal
    digit. *)
Definition isHexLetter (c : ascii) : bool :=
  let n := nat_of_ascii (toLower c) in (97 <=? n)%nat && (n <=? 102)%nat.

Definition hexLetterVal (c : ascii) : Z := Z.of_nat (nat_of_ascii (toLower c)) - 87.

Fixpoint commonPrefixLenIgnoreCase (s prefix : string) : nat :=
  match s, prefix with
  | String c s', String p prefix' =>
      if Ascii.eqb (toLower c) p then S (commonPrefixLenIgnoreCase s' prefix') else O
  | _, _ => O
  end.

(** [special]: the infinities and NaN, with the number of bytes read. *)
Definition special (s : string) : option (spec_float * nat) :=
  let infinity (neg : bool) (nsign : nat) (s : string) :=
    let n := commonPrefixLenIgnoreCase s "infinity" in
    let n := if (3 <? n)%nat && (n <? 8)%nat then 3%nat else n in
    if (n =? 3)%nat || (n =? 8)%nat
    then Some (S754_infinity neg, (nsign + n)%nat) else None in
  match s with
  | EmptyString => None
  | String c rest =>
      if Ascii.eqb c "+" then infinity false 1%nat rest
      else if Ascii.eqb c "-" then infinity true 1%nat rest
      else if Ascii.eqb (toLower c) "i" then infinity false 0%nat s
      else if Ascii.eqb (toLower c) "n" then
        if (commonPrefixLenIgnoreCase s "nan" =? 3)%nat then Some (S754_nan, 3%nat)
        else None
      else None
  end.

(** The mantissa loop of [readFloat]: the digits read so far as an
    integer, how many of them came after the point, and the flags of the
    loop. *)
Record Mantissa := {
  sawdot : bool;
  sawdigits : bool;
  underscores : bool;
  mantissa : Z;
  fraction : Z;
}.

Fixpoint readMantissa (hex : bool) (s : string) (st : Mantissa) : Mantissa * string :=
  match s with
  | EmptyString => (st, s)
  | String c s' =>
      let digit (v : Z) :=
        readMantissa hex s'
          {| sawdot := sawdot st; sawdigits := true; underscores := underscores st;
             mantissa := mantissa st * (if hex then 16 else 10) + v;
             fraction := if sawdot st then fraction st + 1 else fraction st |} in
      if Ascii.eqb c "_" then
        readMantissa hex s'
          {| sawdot := sawdot st; sawdigits := sawdigits st; underscores := true;
             mantissa := mantissa st; fraction := fraction st |}
      else if Ascii.eqb c "." then
        if sawdot st then (st, s)
        else readMantissa hex s'
               {| sawdot := true; sawdigits := sawdigits st; underscores := underscores st;
                  mantissa := mantissa st; fraction := fraction st |}
      else if isDigit c then digit (digitVal c)
      else if hex && isHexLetter c then digit (hexLetterVal c)
      else (st, s)
  end.

(** The digits of the exponent: the value stops growing at 10000. *)
Fixpoint readExponent (s : string) (e : Z) (under : bool) : Z * bool * string :=
  match s with
  | EmptyString => (e, under, s)
  | String c s' =>
      if isDigit c then readExponent s' (if e <? 10000 then e * 10 + digitVal c else e) under
      else if Ascii.eqb c "_" then readExponent s' e true
      else (e, under, s)
  end.

(** [underscoreOK]: every underscore stands between two digits, or
    between a base prefix and a digit.  [saw] is the kind of the byte
    before: [0] the beginning, [1] a digit, [2] an underscore, [3]
    anything else. *)
Fixpoint underscoreLoop (hex : bool) (s : string) (saw : nat) : bool :=
  match s with
  | EmptyString => negb (saw =? 2)%nat
  | String c s' =>
      if isDigit c || (hex && isHexLetter c) then underscoreLoop hex s' 1
      else if Ascii.eqb c "_" then
        if (saw =? 1)%nat then underscoreLoop hex s' 2 else false
      else if (saw =? 2)%nat then false
      else underscoreLoop hex s' 3
  end.

Definition underscoreOK (s : string) : bool :=
  let s := snd (signOf s) in
  match s with
  | String z (String b rest) =>
      let b := toLower b in
      if Ascii.eqb z "0" && (Ascii.eqb b "b" || Ascii.eqb b "o" || Ascii.eqb b "x")
      then underscoreLoop (Ascii.eqb b "x") rest 1
      else underscoreLoop false s 0
  | _ => underscoreLoop false s 0
  end.

(** [readFloat]: sign, magnitude and the bytes left unread of the
    longest decimal or hexadecimal literal that [s] starts with; [None]
    when there is none.  The magnitude is exact, except that an exponent
    which puts it more than a hundred orders of magnitude beyond the
    largest or below the least number is cut back to that distance: the
    nearest number is the same, and the powers stay small. *)
Definition readFloat (s : string) : option (bool * Q * string) :=
  let '(neg, body) := signOf s in
  let hex :=
    match body with
    | String z (String x (String _ _)) => Ascii.eqb z "0" && Ascii.eqb (toLower x) "x"
    | _ => false
    end in
  let digits := if hex then String.substring 2 (String.length body - 2) body else body in
  let '(st, rest) :=
    readMantissa hex digits
      {| sawdot := false; sawdigits := false; underscores := false;
         mantissa := 0; fraction := 0 |} in
  if negb (sawdigits st) then None
  else
    let scale := if hex then - (4 * fraction st) else - fraction st in
    let len := Z.of_nat (String.length s) in
    let finish (exp : Z) (under : bool) (rest : string) :=
      let read := String.substring 0 (String.length s - String.length rest) s in
      let k := scale + exp in
      let k := if hex then Z.max (- (4 * len + 1200)) (Z.min k 1100)
               else Z.max (- (len + 400)) (Z.min k 400) in
      if under && negb (underscoreOK read) then None
      else Some (neg, (inject_Z (mantissa st) * (if hex then 2 else 10) ^ k)%Q, rest) in
    match rest with
    | String c rest' =>
        if Ascii.eqb (toLower c) (if hex then "p" else "e") then
          let '(eneg, ds) := signOf rest' in
          match ds with
          | String d _ =>
              if isDigit d then
                let '(e, under, rest'') := readExponent ds 0 (underscores st) in
                finish (if eneg then - e else e) under rest''
              else None
          | EmptyString => None
          end
        else if hex then None
        else finish 0 (underscores st) rest
    | EmptyString => if hex then None else finish 0 (underscores st) rest
    end.

(** The two errors of the package. *)
Inductive NumError :=
| ErrSyntax
| ErrRange.

(** [strconv.ParseFloat(s, 64)]: the number nearest to the literal.  A
    string that is not a literal to its end gives zero and a syntax
    error; a literal beyond the largest number gives an infinity and a
    range error. *)
Definition ParseFloat (s : string) : spec_float * option NumError :=
  match special s with
  | Some (f, n) =>
      if (n =? String.length s)%nat then (f, None) else (float64.zero, Some ErrSyntax)
  | None =>
      match readFloat s with
      | Some (neg, q, EmptyString) =>
          let f := float64.ofQ neg (if neg then - q else q)%Q in
          (f, if float64.isFinite f then None else Some ErrRange)
      | _ => (float64.zero, Some ErrSyntax)
      end
  end.

(** [x, _ := strconv.ParseFloat(s, 64)]: the error is dropped. *)
Definition parsed (s : string) : spec_float := fst (ParseFloat s).

(** The [k] low decimal digits of [n], most significant first. *)
Fixpoint fixedDigits (k : nat) (n : Z) : string :=
  match k with
  | O => EmptyString
  | S k' => fixedDigits k' (n / 10) ++ String (digitChar (n mod 10)) EmptyString
  end.

(** Number of decimal digits of [n >= 0] (one for zero). *)
Fixpoint countDigits (fuel : nat) (n : Z) : nat :=
  match fuel with
  | O => 1
  | S f => if n <? 10 then 1%nat else S (countDigits f (n / 10))
  end.

Definition numDigits (n : Z) : nat := countDigits (Z.to_nat (Z.log2 n)) n.

(** Decimal rendering of an integer [n >= 0]. *)
Definition intDigits (n : Z) : string := fixedDigits (numDigits n) n.

(** The number [x] with [prec] decimals, the last one rounded to the
    nearest, halves to even. *)
Definition fixed (x : Q) (prec : nat) : string :=
  let n := float64.roundHalfEven (Qabs x * inject_Z (10 ^ Z.of_nat prec))%Q in
  let ip := intDigits (n / 10 ^ Z.of_nat prec) in
  let fp := fixedDigits prec (n mod 10 ^ Z.of_nat prec) in
  (if Qlt_le_dec x 0%Q then "-" else "")
  ++ ip ++ match prec with O => "" | S _ => "." ++ fp end.

(** [strconv.FormatFloat(x, 'f', prec, 64)], which is also
    [fmt.Sprintf("%.<prec>f", x)]: the exact value of [x] with [prec]
    decimals. *)
Definition FormatFloat (x : spec_float) (prec : nat) : string :=
  match x with
  | S754_nan => "NaN"
  | S754_infinity s => if s then "-Inf" else "+Inf"
  | S754_zero s => (if s then "-" else "") ++ fixed 0 prec
  | S754_finite _ _ _ => fixed (float64.toQ x) prec
  end.

(** Not of the package: the number that a plain decimal literal
    [[+-]digits[.digits][(e|E)[+-]digits]] denotes, exactly.  The
    statements read with it the strings that the trader produces. *)

(** Cut [s] at the first byte that satisfies [p]: the part before it and,
    when there is such a byte, the part after it. *)
Fixpoint cut (p : ascii -> bool) (s : string) : string * option string :=
  match s with
  | EmptyString => (EmptyString, None)
  | String c s' =>
      if p c then (EmptyString, Some s')
      else let '(a, b) := cut p s' in (String c a, b)
  end.

Definition isExpMark (c : ascii) : bool := Ascii.eqb c "e" || Ascii.eqb c "E".
Definition isDot (c : ascii) : bool := Ascii.eqb c ".".

(** The exponent after [e]: optional sign and at least one digit. *)
Definition parseExp (s : string) : option Z :=
  let '(neg, ds) := signOf s in
  match ds with
  | EmptyString => None
  | _ => if allDigits ds
         then Some (if neg then - digitsVal ds else digitsVal ds)
         else None
  end.

Definition decimal (s : string) : option Q :=
  let '(neg, body) := signOf s in
  let '(mant, ex) := cut isExpMark body in
  let '(ip, fp) := cut isDot mant in
  let fp := match fp with Some f => f | None => EmptyString end in
  if allDigits ip && allDigits fp
     && negb (String.eqb ip EmptyString && String.eqb fp EmptyString)
  then
    let m := (inject_Z (digitsVal (ip ++ fp))
              / inject_Z (10 ^ Z.of_nat (String.length fp)))%Q in
    let m := if neg then (- m)%Q else m in
    match ex with
    | None => Some m
    | Some e =>
        match parseExp e with
        | Some k => Some (m * Qpower 10 k)%Q
        | None => None
        end
    end
  else None.

End strconv.

(** ** Bytes *)

(** [[]byte(s)], bytes as integers below 256. *)
Definition bytesOf (s : string) : list Z :=
  map (fun c => Z.of_nat (nat_of_ascii c)) (list_ascii_of_string s).

(** ** Package [crypto/sha256] *)

Module sha256.

Definition w32 (x : Z) : Z := x mod 2 ^ 32.
Definition add32 (x y : Z) : Z := w32 (x + y).
Definition rotr (n x : Z) : Z := w32 (Z.lor (Z.shiftr x n) (Z.shiftl x (32 - n))).
Definition not32 (x : Z) : Z := 2 ^ 32 - 1 - x.

Definition Ch (x y z : Z) : Z := Z.lxor (Z.land x y) (Z.land (not32 x) z).
Definition Maj (x y z : Z) : Z :=
  Z.lxor (Z.lxor (Z.land x y) (Z.land x z)) (Z.land y z).
Definition bsig0 (x : Z) : Z := Z.lxor (Z.lxor (rotr 2 x) (rotr 13 x)) (rotr 22 x).
Definition bsig1 (x : Z) : Z := Z.lxor (Z.lxor (rotr 6 x) (rotr 11 x)) (rotr 25 x).
Definition ssig0 (x : Z) : Z := Z.lxor (Z.lxor (rotr 7 x) (rotr 18 x)) (Z.shiftr x 3).
Definition ssig1 (x : Z) : Z := Z.lxor (Z.lxor (rotr 17 x) (rotr 19 x)) (Z.shiftr x 10).

(** The first 64 primes. *)
Definition isPrime (n : nat) : bool :=
  forallb (fun d => negb (Nat.eqb (n mod d) 0)) (seq 2 (n - 2)).

Definition primes : list Z := map Z.of_nat (filter isPrime (seq 2 310)).

(** Integer cube root below [2 ^ bits], one bit at a time. *)
Fixpoint cubeRoot (bits : nat) (n r : Z) : Z :=
  match bits with
  | O => r
  | S b =>
      let c := r + 2 ^ Z.of_nat b in
      if c * c * c <=? n then cubeRoot b n c else cubeRoot b n r
  end.

(** Round constants: the first 32 bits of the fractional parts of the cube
    roots of the primes. *)
Definition K : list Z := map (fun p => w32 (cubeRoot 40 (p * 2 ^ 96) 0)) primes.

(** Initial state: the same of the square roots of the first eight. *)
Definition init : list Z := map (fun p => w32 (Z.sqrt (p * 2 ^ 64))) (firstn 8 primes).

(** Big-endian bytes of [x], [n] of them. *)
Fixpoint bigEndian (n : nat) (x : Z) : list Z :=
  match n with
  | O => []
  | S k => (bigEndian k (x / 256) ++ [x mod 256])%list
  end.

(** The message followed by the bit 1, zeros up to 56 modulo 64 bytes and
    the bit length on eight bytes. *)
Definition pad (msg : list Z) : list Z :=
  let len := Z.of_nat (List.length msg) in
  let zeros := Z.to_nat ((55 - len) mod 64) in
  (msg ++ [0x80] ++ repeat 0 zeros ++ bigEndian 8 (8 * len))%list.

(** Sixteen big-endian words of a 64-byte block. *)
Fixpoint words (n : nat) (b : list Z) : list Z :=
  match n, b with
  | S k, b0 :: b1 :: b2 :: b3 :: r =>
      (((b0 * 256 + b1) * 256 + b2) * 256 + b3) :: words k r
  | _, _ => []
  end.

(** Message schedule, newest word first: [rev] holds [w(t-1), w(t-2), ...]. *)
Fixpoint extend (n : nat) (rev : list Z) : list Z :=
  match n with
  | O => rev
  | S k =>
      let w := add32 (add32 (ssig1 (nth 1 rev 0)) (nth 6 rev 0))
                     (add32 (ssig0 (nth 14 rev 0)) (nth 15 rev 0)) in
      extend k (w :: rev)
  end.

Definition schedule (block : list Z) : list Z :=
  List.rev (extend 48 (List.rev (words 16 block))).

Definition round (st : list Z) (kw : Z * Z) : list Z :=
  match st with
  | [a; b; c; d; e; f; g; h] =>
      let t1 := add32 (add32 (add32 h (bsig1 e)) (add32 (Ch e f g) (fst kw))) (snd kw) in
      let t2 := add32 (bsig0 a) (Maj a b c) in
      [add32 t1 t2; a; b; c; add32 d t1; e; f; g]
  | _ => st
  end.

Definition compress (h : list Z) (block : list Z) : list Z :=
  let out := fold_left round (combine K (schedule block)) h in
  map (fun p => add32 (fst p) (snd p)) (combine h out).

(** Fold [compress] over the 64-byte blocks of [data]. *)
Fixpoint blocks (n : nat) (h : list Z) (data : list Z) : list Z :=
  match n with
  | O => h
  | S k => blocks k (compress h (firstn 64 data)) (skipn 64 data)
  end.

(** [sha256.Sum256]. *)
Definition Sum256 (msg : list Z) : list Z :=
  let p := pad msg in
  flat_map (bigEndian 4) (blocks (List.length p / 64) init p).

Definition BlockSize : nat := 64.

End sha256.

(** ** Package [crypto/hmac], over SHA-256 *)

Module hmac.

(** The keyed hash object: the two pads and the bytes written so far. *)
Record Hash := { opad : list Z; ipad : list Z; written : list Z }.

(** [hmac.New(sha256.New, key)]. *)
Definition New (key : list Z) : Hash :=
  let key := if (sha256.BlockSize <? List.length key)%nat then sha256.Sum256 key else key in
  let key := (key ++ repeat 0 (sha256.BlockSize - List.length key))%list in
  {| opad := map (Z.lxor 0x5c) key;
     ipad := map (Z.lxor 0x36) key;
     written := [] |}.

(** [mac.Write(p)]. *)
Definition Write (h : Hash) (p : list Z) : Hash :=
  {| opad := opad h; ipad := ipad h; written := (written h ++ p)%list |}.

(** [mac.Sum(in)]: the tag appended to [in]. *)
Definition Sum (h : Hash) (b : list Z) : list Z :=
  (b ++ sha256.Sum256 (opad h ++ sha256.Sum256 (ipad h ++ written h)))%list.

End hmac.

(** ** Package [encoding/base64] *)

Module base64.

Definition alphabet : string :=
  "ABCDEFGHIJKLMNOPQRSTUVWXYZabcdefghijklmnopqrstuvwxyz0123456789+/".

Definition sextet (x : Z) : ascii :=
  match String.get (Z.to_nat (x mod 64)) alphabet with
  | Some c => c
  | None => "="%char
  end.

(** [base64.StdEncoding.EncodeToString]. *)
Fixpoint EncodeToString (b : list Z) : string :=
  match b with
  | [] => ""
  | [x] =>
      String (sextet (x / 4)) (String (sextet (x * 16)) "==")
  | [x; y] =>
      String (sextet (x / 4)) (String (sextet (x * 16 + y / 16))
        (String (sextet (y * 4)) "="))
  | x :: y :: z :: r =>
      String (sextet (x / 4)) (String (sextet (x * 16 + y / 16))
        (String (sextet (y * 4 + z / 64)) (String (sextet z) (EncodeToString r))))
  end.

End base64.

(** ** Package [time] *)

Module time.

(** Durations and instants are nanosecond counts, as [time.Duration]. *)
Definition Millisecond : Z := 1000000.
Definition Second : Z := 1000000000.

(** Proleptic Gregorian date of a day count since 1970-01-01. *)
Definition civil (days : Z) : Z * Z * Z :=
  let z := days + 719468 in
  let era := z / 146097 in
  let doe := z - era * 146097 in
  let yoe := (doe - doe / 1460 + doe / 36524 - doe / 146096) / 365 in
  let doy := doe - (365 * yoe + yoe / 4 - yoe / 100) in
  let mp := (5 * doy + 2) / 153 in
  let d := doy - (153 * mp + 2) / 5 + 1 in
  let m := if mp <? 10 then mp + 3 else mp - 9 in
  let y := yoe + era * 400 + (if m <=? 2 then 1 else 0) in
  (y, m, d).

(** [t.UTC().Format("2006-01-02T15:04:05.000Z")] for years 0 to 9999. *)
Definition FormatISO (ns : Z) : string :=
  let secs := ns / Second in
  let ms := (ns / Millisecond) mod 1000 in
  let '(y, m, d) := civil (secs / 86400) in
  let tod := secs mod 86400 in
  strconv.fixedDigits 4 y ++ "-" ++ strconv.fixedDigits 2 m ++ "-"
  ++ strconv.fixedDigits 2 d ++ "T" ++ strconv.fixedDigits 2 (tod / 3600) ++ ":"
  ++ strconv.fixedDigits 2 (tod / 60 mod 60) ++ ":" ++ strconv.fixedDigits 2 (tod mod 60)
  ++ "." ++ strconv.fixedDigits 3 ms ++ "Z".

End time.

(** ** Package [encoding/json] *)

Module json.

(** A JSON document.  Numbers keep their literal text. *)
#[local] Unset Elimination Schemes.
Inductive Value :=
| Null
| Bool (b : bool)
| Number (literal : string)
| Str (s : string)
| Array (items : list Value)
| Object (fields : list (string * Value)).
#[local] Set Elimination Schemes.

(** [json.RawMessage]: [None] is the nil message of an absent field. *)
Definition RawMessage := option Value.

(** The folded form of a member name, by which the decoder matches it
    with a field: ASCII letters in upper case, and the two letters
    outside ASCII that fold to ASCII, the long s (bytes C5 BF) and the
    Kelvin sign (bytes E2 84 AA), as [S] and [K]. *)
Fixpoint foldName (s : string) : string :=
  match s with
  | EmptyString => EmptyString
  | String c r =>
      let n := nat_of_ascii c in
      if ((97 <=? n) && (n <=? 122))%nat
      then String (ascii_of_nat (n - 32)) (foldName r)
      else
        match n, r with
        | 197%nat, String d r' =>
            if (nat_of_ascii d =? 191)%nat then String "S" (foldName r')
            else String c (foldName r)
        | 226%nat, String d (String e r') =>
            if ((nat_of_ascii d =? 132) && (nat_of_ascii e =? 170))%nat
            then String "K" (foldName r')
            else String c (foldName r)
        | _, _ => String c (foldName r)
        end
  end.

(** The member stored under the field named [k]: one whose name is [k]
    up to folding; of several the last one wins, as the decoder assigns
    them in turn. *)
Fixpoint lookup (k : string) (fields : list (string * Value)) : option Value :=
  match fields with
  | [] => None
  | (k', v) :: r =>
      match lookup k r with
      | Some w => Some w
      | None => if String.eqb (foldName k) (foldName k') then Some v else None
      end
  end.

(** Decoding into a [string] field: absent and [null] leave the zero
    value, a JSON string is stored, anything else is a type error. *)
Definition stringField (k : string) (fields : list (string * Value)) : option string :=
  match lookup k fields with
  | None | Some Null => Some ""
  | Some (Str s) => Some s
  | Some _ => None
  end.

(** Decoding into a [json.RawMessage] field. *)
Definition rawField (k : string) (fields : list (string * Value)) : RawMessage :=
  lookup k fields.

(** Decoding a document into a slice of structs, element by element:
    [null] gives the nil slice, an array gives one struct per item, a
    [null] item is the zero struct, any other shape is a type error. *)
Definition slice {A} (zero : A) (item : list (string * Value) -> option A)
    (v : Value) : option (list A) :=
  match v with
  | Null => Some []
  | Array items =>
      mapM (fun it => match it with
                      | Object fs => item fs
                      | Null => Some zero
                      | _ => None
                      end) items
  | _ => None
  end.

(** One byte of a string literal as [json.Marshal] writes it (HTML
    escaping on); bytes above 127 are copied as they are. *)
Definition hexDigit (v : Z) : ascii :=
  ascii_of_nat (Z.to_nat (if v <? 10 then 48 + v else 87 + v)).

Definition escape (c : ascii) : string :=
  let n := Z.of_nat (nat_of_ascii c) in
  if (n =? 34) || (n =? 92) then String "\" (String c EmptyString)
  else if n =? 10 then "\n"
  else if n =? 13 then "\r"
  else if n =? 9 then "\t"
  else if (n <? 32) || (n =? 60) || (n =? 62) || (n =? 38)
  then "\u00" ++ String (hexDigit (n / 16)) (String (hexDigit (n mod 16)) EmptyString)
  else String c EmptyString.

Definition quote (s : string) : string :=
  let dq := String (ascii_of_nat 34) EmptyString in
  dq ++ String.concat EmptyString (map escape (list_ascii_of_string s)) ++ dq.

(** Insertion of a member by key order. *)
Fixpoint insertKey (e : string * string) (l : list (string * string)) :=
  match l with
  | [] => [e]
  | x :: r => if String.leb (fst e) (fst x) then e :: l else x :: insertKey e r
  end.

(** [json.Marshal] of a map from strings to strings: members sorted by
    key. *)
Definition Marshal (m : list (string * string)) : string :=
  "{" ++ String.concat ","
           (map (fun e => quote (fst e) ++ ":" ++ quote (snd e))
                (fold_right insertKey [] m))
      ++ "}".

End json.


(** ** The trader *)

(** [convertSymbol]: BTCUSDT -> BTC-USDT-SWAP. *)
Definition convertSymbol (symbol : string) : string :=
  if strings.Contains symbol "-" then symbol
  else
    let base := strings.TrimSuffix symbol "USDT" in
    if String.eqb base symbol then
      let base := strings.TrimSuffix symbol "USD" in
      if String.eqb base symbol then symbol ++ "-USDT-SWAP"
      else base ++ "-USD-SWAP"
    else base ++ "-USDT-SWAP".

(** [reverseSymbol]: BTC-USDT-SWAP -> BTCUSDT. *)
Definition reverseSymbol (okxSymbol : string) : string :=
  let symbol := strings.TrimSuffix okxSymbol "-SWAP" in
  strings.ReplaceAll symbol "-" "".

(** ** The world outside the trader *)

(** A request as handed to [client.Do]. *)
Record Request := {
  Method : string;
  URL : string;
  Header : list (string * string);
  Body : string;
}.

(** What one call of [client.Do] followed by [io.ReadAll] yields: the
    error of [Do], the error of [ReadAll], or a status with the body
    bytes.  A body comes with its reading by the JSON syntax layer: the
    document, or [None] when the bytes are not JSON. *)
Inductive RoundTrip :=
| DoError (text : string)
| ReadError (status : Z) (text : string)
| Response (status : Z) (raw : string) (doc : option json.Value).

(** The exchange and the network in front of it: the outcome of the n-th
    round trip of the run, and the time it takes. *)
Record Reply := { latency : Z; outcome : RoundTrip }.
Definition Network := nat -> Request -> Reply.

(** Observable effects: the clock in nanoseconds, the requests sent, the
    sleeps taken and the warnings logged where an error is swallowed, each
    oldest first.  Informational log lines are not recorded. *)
Record World := {
  clock : Z;
  trips : list Request;
  sleeps : list Z;
  warnings : list string;
}.

(** [interface{}] values stored in the result maps. *)
Inductive Any :=
| Float (x : spec_float)
| Text (s : string).

(** [OKXSymbolPrecision]. *)
Record OKXSymbolPrecision := {
  PricePrecision : nat;
  QuantityPrecision : nat;
  TickSize : spec_float;
  StepSize : spec_float;
  MinSize : spec_float;
}.

(** [OKXTrader].  A nil map or slice is [None]; the context, the HTTP
    client and the three mutexes have no counterpart in a sequential run. *)
Record OKXTrader := {
  apiKey : string;
  secretKey : string;
  passphrase : string;
  testnet : bool;
  baseURL : string;
  cachedBalance : option (gmap string Any);
  balanceCacheTime : Z;
  cachedPositions : option (list (gmap string Any));
  positionsCacheTime : Z;
  symbolPrecision : gmap string OKXSymbolPrecision;
  cacheDuration : Z;
}.

(** State threaded through every method: the receiver and the world. *)
Record St := { self : OKXTrader; world : World }.

(** Go's [(value, error)] results; an error is its message. *)
Inductive Result (A : Type) :=
| Ok (a : A)
| Err (msg : string).
Arguments Ok {A} a.
Arguments Err {A} msg.

Definition M (A : Type) : Type := St -> Result A * St.

Definition ret {A} (a : A) : M A := fun s => (Ok a, s).
Definition fail {A} (msg : string) : M A := fun s => (Err msg, s).
Definition bind {A B} (m : M A) (k : A -> M B) : M B :=
  fun s => match m s with
           | (Ok a, s') => k a s'
           | (Err e, s') => (Err e, s')
           end.
(** [v, err := m; if err != nil { ... }]: the error is handled, not
    returned. *)
Definition try {A} (m : M A) : M (Result A) :=
  fun s => let '(r, s') := m s in (Ok r, s').

Notation "'let*' x ':=' m 'in' k" := (bind m (fun x => k))
  (at level 10, x pattern, m at level 100, k at level 200).
Notation "m ';;' k" := (bind m (fun _ => k))
  (at level 100, k at level 200, right associativity).

Definition getSelf : M OKXTrader := fun s => (Ok (self s), s).
Definition setSelf (t : OKXTrader) : M unit :=
  fun s => (Ok tt, {| self := t; world := world s |}).
Definition onWorld (f : World -> World) : M unit :=
  fun s => (Ok tt, {| self := self s; world := f (world s) |}).

(** [time.Now()]. *)
Definition Now : M Z := fun s => (Ok (clock (world s)), s).

(** [time.Sleep(d)]. *)
Definition Sleep (d : Z) : M unit :=
  onWorld (fun w => {| clock := clock w + Z.max 0 d; trips := trips w;
                       sleeps := sleeps w ++ [d]; warnings := warnings w |}).

(** [log.Printf] of a warning. *)
Definition warn (msg : string) : M unit :=
  onWorld (fun w => {| clock := clock w; trips := trips w;
                       sleeps := sleeps w; warnings := warnings w ++ [msg] |}).

(** [client.Do(req)] and the reading of the body. *)
Definition Do (net : Network) (req : Request) : M RoundTrip :=
  fun s =>
    let w := world s in
    let r := net (List.length (trips w)) req in
    (Ok (outcome r),
     {| self := self s;
        world := {| clock := clock w + Z.max 0 (latency r);
                    trips := trips w ++ [req];
                    sleeps := sleeps w; warnings := warnings w |} |}).

(** State after one round trip with request [req], after a sleep, and the
    outcome the network has in store for the next round trip. *)
Definition afterTrip (net : Network) (req : Request) (s : St) : St :=
  {| self := self s;
     world := {| clock := clock (world s)
                          + Z.max 0 (latency (net (List.length (trips (world s))) req));
                 trips := trips (world s) ++ [req];
                 sleeps := sleeps (world s);
                 warnings := warnings (world s) |} |}.

Definition afterSleep (d : Z) (s : St) : St :=
  {| self := self s;
     world := {| clock := clock (world s) + Z.max 0 d;
                 trips := trips (world s);
                 sleeps := sleeps (world s) ++ [d];
                 warnings := warnings (world s) |} |}.

Definition answer (net : Network) (req : Request) (s : St) : RoundTrip :=
  outcome (net (List.length (trips (world s))) req).

(** ** Construction, signing and transport *)

(** [NewOKXTrader]. *)
Definition NewOKXTrader (apiKey secretKey passphrase : string) (testnet : bool)
  : Result OKXTrader :=
  if String.eqb apiKey "" || String.eqb secretKey "" || String.eqb passphrase ""
  then Err "OKX API密钥、密钥和Passphrase不能为空"
  else Ok {| apiKey := apiKey; secretKey := secretKey; passphrase := passphrase;
             testnet := testnet; baseURL := "https://www.okx.com";
             cachedBalance := None; balanceCacheTime := 0;
             cachedPositions := None; positionsCacheTime := 0;
             symbolPrecision := ∅;
             cacheDuration := 15 * time.Second |}.

(** [generateSignature]. *)
Definition generateSignature (t : OKXTrader)
    (timestamp method requestPath body : string) : string :=
  let message := timestamp ++ method ++ requestPath ++ body in
  let mac := hmac.New (bytesOf (secretKey t)) in
  let mac := hmac.Write mac (bytesOf message) in
  base64.EncodeToString (hmac.Sum mac []).

Definition maxRetries : Z := 3.

(** The envelope [{code, msg, data}] of a body, or the two fields of an
    error body (then [data] is not looked at).  [None]: [json.Unmarshal]
    failed, on the syntax or on a field of the wrong type. *)
Definition decodeEnvelope (doc : option json.Value)
  : option (string * string * json.RawMessage) :=
  match doc with
  | Some (json.Object fs) =>
      match json.stringField "code" fs, json.stringField "msg" fs with
      | Some c, Some m => Some (c, m, json.rawField "data" fs)
      | _, _ => None
      end
  | Some json.Null => Some ("", "", None)
  | _ => None
  end.

(** The text of an [encoding/json] error; the package's wording is not
    reproduced. *)
Definition jsonError : string := "invalid JSON input".

(** The retry loop of [makeRequest]: [fuel] iterations are left, the
    current one is number [attempt]; running out of iterations is the
    statement after the loop. *)
Fixpoint attemptLoop (net : Network) (req : Request) (fuel : nat) (attempt : Z)
    (lastErr : option string) : M json.RawMessage :=
  match fuel with
  | O =>
      fail ("请求失败（已重试" ++ strconv.intDigits maxRetries ++ "次）: "
            ++ match lastErr with Some e => e | None => "%!w(<nil>)" end)
  | S fuel' =>
      let* r := Do net req in
      match r with
      | DoError text =>
          let lastErr := "HTTP请求失败: " ++ text in
          if (attempt <? maxRetries)
             && (strings.Contains text "timeout"
                 || strings.Contains text "connection reset"
                 || strings.Contains text "EOF")
          then Sleep (attempt * time.Second) ;;
               attemptLoop net req fuel' (attempt + 1) (Some lastErr)
          else fail lastErr
      | ReadError _ text => fail ("读取响应失败: " ++ text)
      | Response status raw doc =>
          if negb (status =? 200) then
            match decodeEnvelope doc with
            | Some (code, msg, _) => fail ("OKX API错误 [" ++ code ++ "]: " ++ msg)
            | None => fail ("HTTP错误 " ++ strconv.intDigits status ++ ": " ++ raw)
            end
          else
            match decodeEnvelope doc with
            | None => fail ("解析响应失败: " ++ jsonError)
            | Some (code, msg, data) =>
                if negb (String.eqb code "0")
                then fail ("OKX API错误 [" ++ code ++ "]: " ++ msg)
                else ret data
            end
      end
  end.

(** The request [makeRequest] builds for trader [t] at instant [now].  The
    body is a map from strings to strings in every caller modelled here. *)
Definition buildRequest (t : OKXTrader) (now : Z) (method endpoint : string)
    (body : option (list (string * string))) : Request :=
  let bodyStr := match body with Some b => json.Marshal b | None => "" end in
  let fullURL := baseURL t ++ endpoint in
  let timestamp := time.FormatISO now in
  let signature := generateSignature t timestamp method endpoint bodyStr in
  {| Method := method; URL := fullURL;
     Header := [("Content-Type", "application/json");
                ("OK-ACCESS-KEY", apiKey t);
                ("OK-ACCESS-SIGN", signature);
                ("OK-ACCESS-TIMESTAMP", timestamp);
                ("OK-ACCESS-PASSPHRASE", passphrase t)];
     Body := bodyStr |}.

(** [makeRequest].  [json.Marshal] cannot fail on such a body.
    [http.NewRequest] refuses a URL with control bytes or broken percent
    escapes before anything is sent; endpoints are taken to be well formed
    and that early return is left out. *)
Definition makeRequest (net : Network) (method endpoint : string)
    (body : option (list (string * string))) : M json.RawMessage :=
  let* t := getSelf in
  let* now := Now in
  let req := buildRequest t now method endpoint body in
  attemptLoop net req (Z.to_nat maxRetries) 1 None.

(** The transport errors [makeRequest] retries. *)
Definition retryable (text : string) : bool :=
  strings.Contains text "timeout"
  || strings.Contains text "connection reset"
  || strings.Contains text "EOF".

(** ** Instrument specification and precision *)

(** [InstrumentInfo]. *)
Record InstrumentInfo := {
  InstID : string;
  LotSz : string;
  TickSz : string;
  MinSz : string;
  Sz : string;
  BaseCcy : string;
  QuoteCcy : string;
  InstType : string;
  State : string;
}.

Definition zeroInstrument : InstrumentInfo :=
  {| InstID := ""; LotSz := ""; TickSz := ""; MinSz := ""; Sz := "";
     BaseCcy := ""; QuoteCcy := ""; InstType := ""; State := "" |}.

Definition decodeInstrument (fs : list (string * json.Value)) : option InstrumentInfo :=
  a ← json.stringField "instId" fs; b ← json.stringField "lotSz" fs;
  c ← json.stringField "tickSz" fs; d ← json.stringField "minSz" fs;
  e ← json.stringField "sz" fs; f ← json.stringField "baseCcy" fs;
  g ← json.stringField "quoteCcy" fs; h ← json.stringField "instType" fs;
  i ← json.stringField "state" fs;
  Some {| InstID := a; LotSz := b; TickSz := c; MinSz := d; Sz := e;
          BaseCcy := f; QuoteCcy := g; InstType := h; State := i |}.

(** [json.Unmarshal(data, &v)] for a slice of structs [v]: the nil
    message is the error of an empty input. *)
Definition unmarshalSlice {A} (zero : A)
    (item : list (string * json.Value) -> option A)
    (data : json.RawMessage) : option (list A) :=
  match data with
  | None => None
  | Some v => json.slice zero item v
  end.

(** [getInstrumentInfo]. *)
Definition getInstrumentInfo (net : Network) (symbol : string) : M InstrumentInfo :=
  let okxSymbol := convertSymbol symbol in
  let* data := makeRequest net "GET"
                 ("/api/v5/public/instruments?instType=SWAP&instId=" ++ okxSymbol) None in
  match unmarshalSlice zeroInstrument decodeInstrument data with
  | None => fail ("解析交易对信息失败: " ++ jsonError)
  | Some [] => fail ("未找到交易对 " ++ okxSymbol)
  | Some (first :: _) => ret first
  end.

(** [len(strings.TrimRight(strings.TrimRight(fmt.Sprintf("%.10f", x), "0"), "."))]. *)
Definition trimmedLength (x : spec_float) : nat :=
  String.length
    (strings.TrimRight (strings.TrimRight (strconv.FormatFloat x 10) "0") ".").

(** The precision record [getPrecision] derives from an instrument. *)
Definition precisionOf (info : InstrumentInfo) : OKXSymbolPrecision :=
  let lotSz := strconv.parsed (LotSz info) in
  let tickSz := strconv.parsed (TickSz info) in
  let minSz := strconv.parsed (MinSz info) in
  let quantityPrecision :=
    if float64.ltb float64.zero lotSz then trimmedLength lotSz else 0%nat in
  let pricePrecision :=
    if float64.ltb float64.zero tickSz then trimmedLength tickSz else 0%nat in
  {| PricePrecision := pricePrecision;
     QuantityPrecision := quantityPrecision;
     TickSize := tickSz;
     StepSize := lotSz;
     MinSize := minSz |}.

Definition withPrecision (t : OKXTrader) (m : gmap string OKXSymbolPrecision) : OKXTrader :=
  {| apiKey := apiKey t; secretKey := secretKey t; passphrase := passphrase t;
     testnet := testnet t; baseURL := baseURL t;
     cachedBalance := cachedBalance t; balanceCacheTime := balanceCacheTime t;
     cachedPositions := cachedPositions t; positionsCacheTime := positionsCacheTime t;
     symbolPrecision := m; cacheDuration := cacheDuration t |}.

(** [getPrecision]. *)
Definition getPrecision (net : Network) (symbol : string) : M OKXSymbolPrecision :=
  let okxSymbol := convertSymbol symbol in
  let* t := getSelf in
  match symbolPrecision t !! okxSymbol with
  | Some prec => ret prec
  | None =>
      let* info := getInstrumentInfo net symbol in
      let prec := precisionOf info in
      let* t := getSelf in
      setSelf (withPrecision t (<[okxSymbol := prec]> (symbolPrecision t))) ;;
      ret prec
  end.

(** The quantity [FormatQuantity] renders once the instrument is known. *)
Definition quantizeQuantity (info : InstrumentInfo) (quantity : spec_float) : spec_float :=
  let minSz := strconv.parsed (MinSz info) in
  let minSz := if float64.leb minSz float64.zero then float64.ofZ 1 else minSz in
  let quantity := if float64.ltb quantity minSz then minSz else quantity in
  let lotSz := strconv.parsed (LotSz info) in
  let quantity :=
    if float64.ltb float64.zero lotSz then
      let quantity := float64.mul (math.Floor (float64.div quantity lotSz)) lotSz in
      if float64.ltb quantity minSz then minSz else quantity
    else quantity in
  math.Floor quantity.

(** [FormatQuantity]. *)
Definition FormatQuantity (net : Network) (symbol : string) (quantity : spec_float)
  : M string :=
  if float64.leb quantity float64.zero then fail "数量必须大于0"
  else
    let* r := try (getInstrumentInfo net symbol) in
    match r with
    | Err err =>
        warn ("⚠️  获取合约规格失败，使用默认精度: " ++ err) ;;
        if strings.Contains symbol "BTC" || strings.Contains symbol "ETH"
        then ret (strconv.FormatFloat
                    (float64.div (math.Round (float64.mul quantity (float64.ofZ 100)))
                       (float64.ofZ 100)) 2)
        else ret (strconv.FormatFloat
                    (float64.div (math.Round (float64.mul quantity (float64.ofZ 1000)))
                       (float64.ofZ 1000)) 3)
    | Ok info => ret (strconv.FormatFloat (quantizeQuantity info quantity) 0)
    end.

(** The price [formatPrice] renders and its rendering. *)
Definition quantizePrice (prec : OKXSymbolPrecision) (price : spec_float) : spec_float :=
  if float64.ltb float64.zero (TickSize prec) then
    let steps := float64.div price (TickSize prec) in
    float64.mul (math.Floor steps) (TickSize prec)
  else
    let multiplier := math.Pow10 (PricePrecision prec) in
    float64.div (math.Floor (float64.mul price multiplier)) multiplier.

Definition renderPrice (prec : OKXSymbolPrecision) (price : spec_float) : string :=
  let result := strconv.FormatFloat (quantizePrice prec price) (PricePrecision prec) in
  let result := strings.TrimRight result "0" in
  strings.TrimRight result ".".

(** [formatPrice]. *)
Definition formatPrice (net : Network) (symbol : string) (price : spec_float) : M string :=
  let* prec := getPrecision net symbol in
  ret (renderPrice prec price).

(** ** Account state *)

(** [if err != nil { return nil, fmt.Errorf(prefix + "%w", err) }]. *)
Definition wrap {A} (prefix : string) (m : M A) : M A :=
  fun s => match m s with
           | (Err e, s') => (Err (prefix ++ e), s')
           | r => r
           end.

(** One entry of [details] in the balance answer. *)
Record BalanceDetail := {
  Ccy : string;
  Bal : string;
  AvailBal : string;
  FrozenBal : string;
  Eq : string;
  AvailEq : string;
  NotionalUsd : string;
  OrdFrozen : string;
  Upl : string;
  MarginRatio : string;
  MgnRatio : string;
}.

Record AccountBalance := { Details : list BalanceDetail; TotalEq : string }.

Definition zeroDetail : BalanceDetail :=
  {| Ccy := ""; Bal := ""; AvailBal := ""; FrozenBal := ""; Eq := ""; AvailEq := "";
     NotionalUsd := ""; OrdFrozen := ""; Upl := ""; MarginRatio := ""; MgnRatio := "" |}.

Definition decodeDetail (fs : list (string * json.Value)) : option BalanceDetail :=
  a ← json.stringField "ccy" fs; b ← json.stringField "bal" fs;
  c ← json.stringField "availBal" fs; d ← json.stringField "frozenBal" fs;
  e ← json.stringField "eq" fs; f ← json.stringField "availEq" fs;
  g ← json.stringField "notionalUsd" fs; h ← json.stringField "ordFrozen" fs;
  i ← json.stringField "upl" fs; j ← json.stringField "marginRatio" fs;
  k ← json.stringField "mgnRatio" fs;
  Some {| Ccy := a; Bal := b; AvailBal := c; FrozenBal := d; Eq := e; AvailEq := f;
          NotionalUsd := g; OrdFrozen := h; Upl := i; MarginRatio := j; MgnRatio := k |}.

Definition decodeAccount (fs : list (string * json.Value)) : option AccountBalance :=
  ds ← match json.lookup "details" fs with
       | None => Some []
       | Some v => json.slice zeroDetail decodeDetail v
       end;
  te ← json.stringField "totalEq" fs;
  Some {| Details := ds; TotalEq := te |}.

Definition withBalance (t : OKXTrader) (b : option (gmap string Any)) (at_ : Z) : OKXTrader :=
  {| apiKey := apiKey t; secretKey := secretKey t; passphrase := passphrase t;
     testnet := testnet t; baseURL := baseURL t;
     cachedBalance := b; balanceCacheTime := at_;
     cachedPositions := cachedPositions t; positionsCacheTime := positionsCacheTime t;
     symbolPrecision := symbolPrecision t; cacheDuration := cacheDuration t |}.

Definition withPositions (t : OKXTrader) (ps : option (list (gmap string Any))) (at_ : Z)
  : OKXTrader :=
  {| apiKey := apiKey t; secretKey := secretKey t; passphrase := passphrase t;
     testnet := testnet t; baseURL := baseURL t;
     cachedBalance := cachedBalance t; balanceCacheTime := balanceCacheTime t;
     cachedPositions := ps; positionsCacheTime := at_;
     symbolPrecision := symbolPrecision t; cacheDuration := cacheDuration t |}.

(** The map [GetBalance] builds from the first detail of the first
    account. *)
Definition balanceResult (acct : AccountBalance) (detail : BalanceDetail) : gmap string Any :=
  let totalEq := strconv.parsed (TotalEq acct) in
  let availEq := strconv.parsed (AvailEq detail) in
  let eq := strconv.parsed (Eq detail) in
  let bal := strconv.parsed (Bal detail) in
  let availBal := strconv.parsed (AvailBal detail) in
  let upl := strconv.parsed (Upl detail) in
  let totalWalletBalance := float64.sub totalEq upl in
  list_to_map
    [("totalWalletBalance", Float totalWalletBalance);
     ("availableBalance", Float availEq);
     ("totalUnrealizedProfit", Float upl);
     ("total_balance", Float totalEq);
     ("available_balance", Float availEq);
     ("balance", Float bal);
     ("available_balance_ccy", Float availBal);
     ("equity", Float eq);
     ("total_equity", Float totalEq)].

(** The miss path of [GetBalance]: fetch, normalize, store. *)
Definition fetchBalance (net : Network) : M (gmap string Any) :=
  let* data := wrap "获取账户余额失败: "
                 (makeRequest net "GET" "/api/v5/account/balance?ccy=USDT" None) in
  match unmarshalSlice {| Details := []; TotalEq := "" |} decodeAccount data with
  | None => fail ("解析余额数据失败: " ++ jsonError)
  | Some [] => fail "未找到账户余额信息"
  | Some (acct :: _) =>
      match Details acct with
      | [] => fail "未找到账户余额信息"
      | detail :: _ =>
          let result := balanceResult acct detail in
          let* t := getSelf in
          let* now := Now in
          setSelf (withBalance t (Some result) now) ;;
          ret result
      end
  end.

(** [GetBalance]. *)
Definition GetBalance (net : Network) : M (gmap string Any) :=
  let* t := getSelf in
  let* now := Now in
  match cachedBalance t with
  | Some cached =>
      if now - balanceCacheTime t <? cacheDuration t then ret cached
      else fetchBalance net
  | None => fetchBalance net
  end.

(** One record of the positions answer. *)
Record RawPosition := {
  pInstID : string;
  pPos : string;
  pAvgPx : string;
  pMarkPx : string;
  pLiqPx : string;
  pUpl : string;
  pUplRatio : string;
  pMargin : string;
  pMgnRatio : string;
  pLever : string;
  pPosSide : string;
  pMgnMode : string;
  pNotionalUsd : string;
  pPnl : string;
  pPnlRatio : string;
}.

Definition zeroPosition : RawPosition :=
  {| pInstID := ""; pPos := ""; pAvgPx := ""; pMarkPx := ""; pLiqPx := ""; pUpl := "";
     pUplRatio := ""; pMargin := ""; pMgnRatio := ""; pLever := ""; pPosSide := "";
     pMgnMode := ""; pNotionalUsd := ""; pPnl := ""; pPnlRatio := "" |}.

Definition decodePosition (fs : list (string * json.Value)) : option RawPosition :=
  a ← json.stringField "instId" fs; b ← json.stringField "pos" fs;
  c ← json.stringField "avgPx" fs; d ← json.stringField "markPx" fs;
  e ← json.stringField "liqPx" fs; f ← json.stringField "upl" fs;
  g ← json.stringField "uplRatio" fs; h ← json.stringField "margin" fs;
  i ← json.stringField "mgnRatio" fs; j ← json.stringField "lever" fs;
  k ← json.stringField "posSide" fs; l ← json.stringField "mgnMode" fs;
  m ← json.stringField "notionalUsd" fs; n ← json.stringField "pnl" fs;
  o ← json.stringField "pnlRatio" fs;
  Some {| pInstID := a; pPos := b; pAvgPx := c; pMarkPx := d; pLiqPx := e; pUpl := f;
          pUplRatio := g; pMargin := h; pMgnRatio := i; pLever := j; pPosSide := k;
          pMgnMode := l; pNotionalUsd := m; pPnl := n; pPnlRatio := o |}.

(** [append(result, x)] on a slice that may be nil. *)
Definition append {A} (result : option (list A)) (x : A) : option (list A) :=
  match result with
  | None => Some [x]
  | Some l => Some (l ++ [x])%list
  end.

(** The map built for one record with a non-zero position, [posAmt] and
    [side] already derived. *)
Definition positionEntry (pos : RawPosition) (side : string) (posAmt : spec_float)
  : gmap string Any :=
  let avgPx := strconv.parsed (pAvgPx pos) in
  let markPx := strconv.parsed (pMarkPx pos) in
  let upl := strconv.parsed (pUpl pos) in
  let lever := strconv.parsed (pLever pos) in
  let margin := strconv.parsed (pMargin pos) in
  let notionalUsd := strconv.parsed (pNotionalUsd pos) in
  let liqPx := strconv.parsed (pLiqPx pos) in
  let symbol := reverseSymbol (pInstID pos) in
  list_to_map
    [("symbol", Text symbol);
     ("positionAmt", Float posAmt);
     ("entryPrice", Float avgPx);
     ("markPrice", Float markPx);
     ("unRealizedProfit", Float upl);
     ("unrealizedPnl", Float upl);
     ("leverage", Float lever);
     ("margin", Float margin);
     ("notional", Float notionalUsd);
     ("liquidationPrice", Float liqPx);
     ("side", Text side);
     ("positionSide", Text side);
     ("marginMode", Text (pMgnMode pos));
     ("marginType", Text (pMgnMode pos))].

(** The loop of [GetPositions] over the decoded records; [result] starts
    as the nil slice. *)
Fixpoint normalizePositions (positions : list RawPosition)
    (result : option (list (gmap string Any))) : option (list (gmap string Any)) :=
  match positions with
  | [] => result
  | pos :: rest =>
      let posAmt := strconv.parsed (pPos pos) in
      if float64.eqb posAmt float64.zero then normalizePositions rest result
      else
        let '(side, posAmt) :=
          if float64.ltb posAmt float64.zero then ("short", float64.opp posAmt)
          else ("long", posAmt) in
        normalizePositions rest (append result (positionEntry pos side posAmt))
  end.

(** The miss path of [GetPositions]. *)
Definition fetchPositions (net : Network) : M (option (list (gmap string Any))) :=
  let* data := wrap "获取持仓失败: " (makeRequest net "GET" "/api/v5/account/positions" None) in
  match unmarshalSlice zeroPosition decodePosition data with
  | None => fail ("解析持仓数据失败: " ++ jsonError)
  | Some positions =>
      let result := normalizePositions positions None in
      let* t := getSelf in
      let* now := Now in
      setSelf (withPositions t result now) ;;
      ret result
  end.

(** [GetPositions]. *)
Definition GetPositions (net : Network) : M (option (list (gmap string Any))) :=
  let* t := getSelf in
  let* now := Now in
  match cachedPositions t with
  | Some cached =>
      if now - positionsCacheTime t <? cacheDuration t then ret (Some cached)
      else fetchPositions net
  | None => fetchPositions net
  end.

(** ** Order cancellation *)

(** One pending conditional order. *)
Record AlgoOrder := {
  AlgoId : string;
  aInstId : string;
  SlTriggerPx : string;
  TpTriggerPx : string;
}.

Definition zeroAlgo : AlgoOrder :=
  {| AlgoId := ""; aInstId := ""; SlTriggerPx := ""; TpTriggerPx := "" |}.

Definition decodeAlgo (fs : list (string * json.Value)) : option AlgoOrder :=
  a ← json.stringField "algoId" fs; b ← json.stringField "instId" fs;
  c ← json.stringField "slTriggerPx" fs; d ← json.stringField "tpTriggerPx" fs;
  Some {| AlgoId := a; aInstId := b; SlTriggerPx := c; TpTriggerPx := d |}.

(** The loop shared by the two conditional-order cancellations: every
    order whose [trigger] price is set is cancelled; a failed cancel is
    logged under [what] and the loop goes on. *)
Fixpoint cancelAlgoLoop (net : Network) (okxSymbol : string)
    (trigger : AlgoOrder -> string) (what : string) (orders : list AlgoOrder) : M unit :=
  match orders with
  | [] => ret tt
  | order :: rest =>
      (if negb (String.eqb (trigger order) "") && negb (String.eqb (trigger order) "0")
       then
         let cancelParams :=
           [("instId", okxSymbol); ("algoId", AlgoId order); ("ordType", "conditional")] in
         let* r := try (makeRequest net "POST" "/api/v5/trade/cancel-algo" (Some cancelParams)) in
         match r with
         | Err err =>
             warn ("  ⚠️ 取消" ++ what ++ "失败 (algoId: " ++ AlgoId order ++ "): " ++ err)
         | Ok _ => ret tt
         end
       else ret tt) ;;
      cancelAlgoLoop net okxSymbol trigger what rest
  end.

Definition cancelAlgoOrders (net : Network) (symbol : string)
    (trigger : AlgoOrder -> string) (what : string) : M unit :=
  let okxSymbol := convertSymbol symbol in
  let* data := wrap "获取条件单列表失败: "
                 (makeRequest net "GET"
                    ("/api/v5/trade/orders-algo-pending?instId=" ++ okxSymbol
                     ++ "&ordType=conditional") None) in
  match unmarshalSlice zeroAlgo decodeAlgo data with
  | None => fail ("解析订单列表失败: " ++ jsonError)
  | Some orders => cancelAlgoLoop net okxSymbol trigger what orders
  end.

(** [CancelStopLossOrders]. *)
Definition CancelStopLossOrders (net : Network) (symbol : string) : M unit :=
  cancelAlgoOrders net symbol SlTriggerPx "止损单".

(** [CancelTakeProfitOrders]. *)
Definition CancelTakeProfitOrders (net : Network) (symbol : string) : M unit :=
  cancelAlgoOrders net symbol TpTriggerPx "止盈单".

(** The fallback loop of [CancelAllOrders] over the pending orders. *)
Fixpoint cancelOrderLoop (net : Network) (okxSymbol : string) (orders : list string) : M unit :=
  match orders with
  | [] => ret tt
  | ordId :: rest =>
      let cancelParams := [("instId", okxSymbol); ("ordId", ordId)] in
      let* r := try (makeRequest net "POST" "/api/v5/trade/cancel-order" (Some cancelParams)) in
      (match r with
       | Err err => warn ("  ⚠️ 取消订单失败 (ordId: " ++ ordId ++ "): " ++ err)
       | Ok _ => ret tt
       end) ;;
      cancelOrderLoop net okxSymbol rest
  end.

(** [CancelAllOrders]. *)
Definition CancelAllOrders (net : Network) (symbol : string) : M unit :=
  let okxSymbol := convertSymbol symbol in
  let cancelParams := [("instId", okxSymbol)] in
  let* r := try (makeRequest net "POST" "/api/v5/trade/cancel-all-after" (Some cancelParams)) in
  (match r with
   | Err _ =>
       let* data := wrap "获取订单列表失败: "
                      (makeRequest net "GET"
                         ("/api/v5/trade/orders-pending?instId=" ++ okxSymbol) None) in
       match unmarshalSlice "" (json.stringField "ordId") data with
       | None => fail ("解析订单列表失败: " ++ jsonError)
       | Some orders => cancelOrderLoop net okxSymbol orders
       end
   | Ok _ => ret tt
   end) ;;
  let* r := try (CancelStopLossOrders net symbol) in
  (match r with
   | Err err => warn ("  ⚠️ 取消止损单失败: " ++ err)
   | Ok _ => ret tt
   end) ;;
  let* r := try (CancelTakeProfitOrders net symbol) in
  (match r with
   | Err err => warn ("  ⚠️ 取消止盈单失败: " ++ err)
   | Ok _ => ret tt
   end) ;;
  ret tt.

(** [CancelStopOrders]. *)
Definition CancelStopOrders (net : Network) (symbol : string) : M unit :=
  let* r := try (CancelStopLossOrders net symbol) in
  (match r with
   | Err err => warn ("  ⚠️ 取消止损单失败: " ++ err)
   | Ok _ => ret tt
   end) ;;
  let* r := try (CancelTakeProfitOrders net symbol) in
  (match r with
   | Err err => warn ("  ⚠️ 取消止盈单失败: " ++ err)
   | Ok _ => ret tt
   end) ;;
  ret tt.

(** ** Running a method *)

(** A trader as [NewOKXTrader] leaves it, with credentials [k], [s], [p]. *)
Definition freshTrader (k s p : string) : OKXTrader :=
  {| apiKey := k; secretKey := s; passphrase := p; testnet := false;
     baseURL := "https://www.okx.com";
     cachedBalance := None; balanceCacheTime := 0;
     cachedPositions := None; positionsCacheTime := 0;
     symbolPrecision := ∅; cacheDuration := 15 * time.Second |}.

Definition startWorld (now : Z) : World :=
  {| clock := now; trips := []; sleeps := []; warnings := [] |}.

(** Time passing between two calls. *)
Definition elapse (d : Z) : M unit :=
  onWorld (fun w => {| clock := clock w + Z.max 0 d; trips := trips w;
                       sleeps := sleeps w; warnings := warnings w |}).

(** ** Vocabulary of the statements *)

(** The cache check of [GetBalance] and of [GetPositions]. *)
Definition balanceFresh (s : St) : bool :=
  match cachedBalance (self s) with
  | Some _ => clock (world s) - balanceCacheTime (self s) <? cacheDuration (self s)
  | None => false
  end.

Definition positionsFresh (s : St) : bool :=
  match cachedPositions (self s) with
  | Some _ => clock (world s) - positionsCacheTime (self s) <? cacheDuration (self s)
  | None => false
  end.

(** An outcome of the first round trip that ends [makeRequest] with an
    error: a transport error that is not retried, a body that cannot be
    read, a status other than 200, a body that is not an envelope, an
    envelope whose code is not 0. *)
Definition terminalFailure (o : RoundTrip) : Prop :=
  match o with
  | DoError text => retryable text = false
  | ReadError _ _ => True
  | Response status _ doc =>
      status <> 200
      \/ decodeEnvelope doc = None
      \/ exists code msg data, decodeEnvelope doc = Some (code, msg, data) /\ code <> "0"
  end.

(** The answer to the balance request cannot be used: the transport
    returned an error, or the data is not a list of accounts, or there is
    no account, or the first account has no detail. *)
Definition balanceFetchFails (r : Result json.RawMessage) : Prop :=
  match r with
  | Err _ => True
  | Ok data =>
      match unmarshalSlice {| Details := []; TotalEq := "" |} decodeAccount data with
      | None | Some [] => True
      | Some (acct :: _) => Details acct = []
      end
  end.

(** The same for the positions request. *)
Definition positionsFetchFails (r : Result json.RawMessage) : Prop :=
  match r with
  | Err _ => True
  | Ok data => unmarshalSlice zeroPosition decodePosition data = None
  end.

Definition balanceRequest (net : Network) : M json.RawMessage :=
  makeRequest net "GET" "/api/v5/account/balance?ccy=USDT" None.

Definition positionsRequest (net : Network) : M json.RawMessage :=
  makeRequest net "GET" "/api/v5/account/positions" None.

(** What one raw record contributes to the normalized list: nothing when
    its position parses to zero, else one entry. *)
Definition normalized (pos : RawPosition) : option (gmap string Any) :=
  let posAmt := strconv.parsed (pPos pos) in
  if float64.eqb posAmt float64.zero then None
  else if float64.ltb posAmt float64.zero
       then Some (positionEntry pos "short" (float64.opp posAmt))
       else Some (positionEntry pos "long" posAmt).

(** The elements of a slice, nil or not. *)
Definition elements {A} (l : option (list A)) : list A :=
  match l with Some l => l | None => [] end.

(** An exchange that answers every request with status 200 and the
    envelope of [data], a fixed time after the request. *)
Definition envelope (data : json.Value) : json.Value :=
  json.Object [("code", json.Str "0"); ("msg", json.Str ""); ("data", data)].

Definition steady (raw : string) (doc : json.Value) : Network :=
  fun _ _ => {| latency := 20 * time.Millisecond;
                outcome := Response 200 raw (Some doc) |}.

(** A network on which every request fails with the transport error
    [text]. *)
Definition broken (text : string) : Network :=
  fun _ _ => {| latency := time.Second; outcome := DoError text |}.

(** A trader just built, at instant [now]. *)
Definition start (now : Z) : St :=
  {| self := freshTrader "key" "secret" "pass"; world := startWorld now |}.

(** The three requests of [CancelAllOrders] before the conditional
    orders. *)
Definition batchCancel (net : Network) (symbol : string) : M json.RawMessage :=
  makeRequest net "POST" "/api/v5/trade/cancel-all-after"
    (Some [("instId", convertSymbol symbol)]).

Definition listPending (net : Network) (symbol : string) : M json.RawMessage :=
  makeRequest net "GET" ("/api/v5/trade/orders-pending?instId=" ++ convertSymbol symbol) None.

Definition decodePending (data : json.RawMessage) : option (list string) :=
  unmarshalSlice "" (json.stringField "ordId") data.

(** Warnings are only added to. *)
Definition warningsGrow (s s' : St) : Prop :=
  exists more, warnings (world s') = (warnings (world s) ++ more)%list.

(** The state in which the take-profit cancellation of [CancelStopOrders]
    and [CancelAllOrders] starts from [s]: the stop-loss cancellation has
    run and its failure, if any, has been logged. *)
Definition afterStopLoss (net : Network) (symbol : string) (s : St) : St :=
  match CancelStopLossOrders net symbol s with
  | (Ok _, s1) => s1
  | (Err err, s1) => snd (warn ("  ⚠️ 取消止损单失败: " ++ err) s1)
  end.

(** The state after the take-profit cancellation, logged likewise. *)
Definition afterTakeProfit (net : Network) (symbol : string) (s : St) : St :=
  match CancelTakeProfitOrders net symbol s with
  | (Ok _, s1) => s1
  | (Err err, s1) => snd (warn ("  ⚠️ 取消止盈单失败: " ++ err) s1)
  end.

(** The request that cancels one pending order in the fallback loop. *)
Definition cancelOne (net : Network) (okxSymbol ordId : string) : M json.RawMessage :=
  makeRequest net "POST" "/api/v5/trade/cancel-order"
    (Some [("instId", okxSymbol); ("ordId", ordId)]).

(** Every byte of [s] satisfies [p]. *)
Fixpoint every (p : ascii -> bool) (s : string) : bool :=
  match s with
  | EmptyString => true
  | String c s' => p c && every p s'
  end.

(** [k] zeros. *)
Fixpoint zeros (k : nat) : string :=
  match k with
  | O => EmptyString
  | S k' => String "0" (zeros k')
  end.

(** An exchange that lists one instrument with the given lot, tick and
    minimum sizes. *)
Definition instrumentDoc (lotSz tickSz minSz : string) : json.Value :=
  envelope (json.Array [json.Object [("instId", json.Str "BTC-USDT-SWAP");
                                     ("lotSz", json.Str lotSz);
                                     ("tickSz", json.Str tickSz);
                                     ("minSz", json.Str minSz)]]).

Definition listing (lotSz tickSz minSz : string) : Network :=
  steady "" (instrumentDoc lotSz tickSz minSz).

(** HMAC-SHA256 as the specification names it, in one formula:
    [H ((K xor opad) || H ((K xor ipad) || message))], where [K] is the
    key, hashed first when longer than a block, padded with zeros to a
    block.  The signer is compared with it. *)
Definition HMAC_SHA256 (key message : list Z) : list Z :=
  let k := if (64 <? List.length key)%nat then sha256.Sum256 key else key in
  let k := (k ++ repeat 0 (64 - List.length k))%list in
  sha256.Sum256 (map (Z.lxor 0x5c) k ++ sha256.Sum256 (map (Z.lxor 0x36) k ++ message))%list.

(** Three raw positions: flat, short two contracts, long three. *)
Definition rawPosition (instId pos : string) : json.Value :=
  json.Object [("instId", json.Str instId); ("pos", json.Str pos);
               ("avgPx", json.Str "100"); ("lever", json.Str "10");
               ("mgnMode", json.Str "cross")].

Definition threePositions : json.Value :=
  json.Array [rawPosition "BTC-USDT-SWAP" "0";
              rawPosition "ETH-USDT-SWAP" "-2";
              rawPosition "SOL-USDT-SWAP" "3"].

Definition decoded (instId pos : string) : RawPosition :=
  {| pInstID := instId; pPos := pos; pAvgPx := "100"; pMarkPx := ""; pLiqPx := "";
     pUpl := ""; pUplRatio := ""; pMargin := ""; pMgnRatio := ""; pLever := "10";
     pPosSide := ""; pMgnMode := "cross"; pNotionalUsd := ""; pPnl := ""; pPnlRatio := "" |}.

(** An exchange that refuses every request with an envelope error. *)
Definition refusing : Network :=
  steady "" (json.Object [("code", json.Str "51000"); ("msg", json.Str "param error");
                          ("data", json.Array [])]).

(** A network that drops the first two attempts with a reset connection
    and then answers with the envelope of [data]. *)
Definition flaky (data : json.Value) : Network :=
  fun n _ =>
    if (n <? 2)%nat
    then {| latency := time.Second; outcome := DoError "read: connection reset by peer" |}
    else {| latency := 20 * time.Millisecond;
            outcome := Response 200 "" (Some (envelope data)) |}.

(** The outcome of a round trip after which [makeRequest] goes round the
    loop again, when attempts are left. *)
Definition retried (o : RoundTrip) : bool :=
  match o with
  | DoError text => retryable text
  | _ => false
  end.

(** An exchange that answers with one account of one detail. *)
Definition balanceDoc : json.Value :=
  envelope (json.Array
    [json.Object [("totalEq", json.Str "1000.5");
                  ("details", json.Array
                     [json.Object [("ccy", json.Str "USDT"); ("availEq", json.Str "800");
                                   ("eq", json.Str "1000.5"); ("upl", json.Str "-20.5")]])]]).

(** The listing of pending conditional orders that both conditional
    cancellations start with. *)
Definition algoPending (net : Network) (symbol : string) : M json.RawMessage :=
  makeRequest net "GET"
    ("/api/v5/trade/orders-algo-pending?instId=" ++ convertSymbol symbol
     ++ "&ordType=conditional") None.

(** The test of the cancellation loops: the trigger price is set. *)
Definition triggerSet (px : string) : bool :=
  negb (String.eqb px "") && negb (String.eqb px "0").

(** An exchange that cannot be reached for orders and answers every
    listing with data that is not a list. *)
Definition listingOnly : Network :=
  fun _ req =>
    if String.eqb (Method req) "GET"
    then {| latency := 20 * time.Millisecond;
            outcome := Response 200 "" (Some (envelope (json.Str "none"))) |}
    else {| latency := time.Second; outcome := DoError "connection refused" |}.

(** [x] is the number [q >= 0]: finite, with the plus sign. *)
Definition plus (x : spec_float) (q : Q) : Prop :=
  match x with
  | S754_zero false => (q == 0)%Q
  | S754_finite false _ _ => (float64.toQ x == q)%Q
  | _ => False
  end.

(** * Properties *)

(** ** Symbol codec *)

Section StringFacts.

Lemma string_length_app (a b : string) :
  String.length (a ++ b) = (String.length a + String.length b)%nat.
Proof. induction a as [|c a IH]; simpl; [reflexivity | now rewrite IH]. Qed.

Lemma app_assoc_s (a b c : string) : (a ++ b) ++ c = a ++ (b ++ c).
Proof. induction a as [|x a IH]; simpl; [reflexivity | now rewrite IH]. Qed.

Lemma substring_app_left (a b : string) :
  String.substring 0 (String.length a) (a ++ b) = a.
Proof.
  induction a as [|c a IH]; simpl.
  - destruct b; reflexivity.
  - now rewrite IH.
Qed.

Lemma HasSuffix_app (a suf : string) : strings.HasSuffix (a ++ suf) suf = true.
Proof.
  induction a as [|c a IH]; simpl.
  - destruct suf as [|d suf]; simpl; [reflexivity|].
    rewrite Ascii.eqb_refl, String.eqb_refl. reflexivity.
  - rewrite IH. apply orb_true_r.
Qed.

Lemma HasSuffix_inv (s suf : string) :
  strings.HasSuffix s suf = true -> exists a, s = a ++ suf.
Proof.
  induction s as [|c s IH]; simpl; intros H.
  - destruct suf; [now exists ""| discriminate].
  - apply orb_true_iff in H as [H|H].
    + apply (String.eqb_eq (String c s) suf) in H. exists "". now rewrite <- H.
    + destruct (IH H) as [a ->]. now exists (String c a).
Qed.

Lemma TrimSuffix_app (a suf : string) : strings.TrimSuffix (a ++ suf) suf = a.
Proof.
  unfold strings.TrimSuffix. rewrite HasSuffix_app, string_length_app.
  replace (String.length a + String.length suf - String.length suf)%nat
    with (String.length a) by lia.
  apply substring_app_left.
Qed.

Lemma TrimSuffix_not (s suf : string) :
  strings.HasSuffix s suf = false -> strings.TrimSuffix s suf = s.
Proof. unfold strings.TrimSuffix. now intros ->. Qed.

Lemma app_neq_self (a suf : string) : suf <> "" -> a <> a ++ suf.
Proof.
  intros Hs E. apply (f_equal String.length) in E. rewrite string_length_app in E.
  destruct suf; [congruence | simpl in E; lia].
Qed.

Lemma HasPrefix_nil (s : string) : strings.HasPrefix s "" = true.
Proof. destruct s; reflexivity. Qed.

Lemma dash_prefix (q : string) : strings.HasPrefix (String "-" q) "-" = true.
Proof. cbn. apply HasPrefix_nil. Qed.

(** Without a dash in [a ++ t], replacing dashes leaves the [a] part alone. *)
Lemma ReplaceAll_dash_free (a t u : string) :
  strings.Contains (a ++ t) "-" = false ->
  strings.replaceFrom 0 (a ++ u) "-" "" = a ++ strings.replaceFrom 0 u "-" "".
Proof.
  induction a as [|c a IH]; intros H; [reflexivity|].
  cbn [String.append strings.Contains strings.HasPrefix] in H.
  rewrite HasPrefix_nil, andb_true_r in H.
  apply orb_false_iff in H as [Hc Ha].
  cbn [String.append strings.replaceFrom strings.HasPrefix].
  rewrite HasPrefix_nil, andb_true_r, Hc. now rewrite (IH Ha).
Qed.

End StringFacts.

(** ** Decimal digits *)

Section Digits.

Import strconv.

Lemma app_nil_r_s (a : string) : a ++ "" = a.
Proof. induction a as [|c a IH]; simpl; [reflexivity | now rewrite IH]. Qed.

Ltac digit_cases d :=
  let C := fresh "C" in
  assert (C : d = 0 \/ d = 1 \/ d = 2 \/ d = 3 \/ d = 4 \/ d = 5 \/ d = 6 \/ d = 7
              \/ d = 8 \/ d = 9) by lia;
  repeat (destruct C as [C|C]; [subst d|]); try subst d.

Lemma digitChar_facts d :
  0 <= d < 10 ->
  isDigit (digitChar d) = true
  /\ digitVal (digitChar d) = d
  /\ isDot (digitChar d) = false
  /\ isExpMark (digitChar d) = false
  /\ Ascii.eqb (digitChar d) "-" = false
  /\ Ascii.eqb (digitChar d) "+" = false
  /\ Ascii.eqb (digitChar d) "0" = (d =? 0).
Proof. intros H. digit_cases d; vm_compute; repeat split. Qed.

Lemma isDigit_inv c : isDigit c = true -> exists d, 0 <= d < 10 /\ c = digitChar d.
Proof.
  unfold isDigit. intros H. apply andb_true_iff in H as [H1 H2].
  apply Nat.leb_le in H1, H2.
  exists (Z.of_nat (nat_of_ascii c) - 48). split; [lia|].
  unfold digitChar.
  replace (Z.to_nat (48 + (Z.of_nat (nat_of_ascii c) - 48))) with (nat_of_ascii c) by lia.
  now rewrite ascii_nat_embedding.
Qed.

Lemma allDigits_every s : allDigits s = every isDigit s.
Proof. induction s as [|c s IH]; simpl; [reflexivity|now rewrite IH]. Qed.

Lemma every_app p a b : every p (a ++ b) = every p a && every p b.
Proof.
  induction a as [|c a IH]; simpl; [reflexivity|]. now rewrite IH, andb_assoc.
Qed.

Lemma every_weaken (p q : ascii -> bool) s :
  (forall c, p c = true -> q c = true) -> every p s = true -> every q s = true.
Proof.
  intros Hpq. induction s as [|c s IH]; simpl; [reflexivity|].
  intros H. apply andb_true_iff in H as [H1 H2]. now rewrite (Hpq _ H1), IH.
Qed.

Lemma allDigits_app a b : allDigits (a ++ b) = allDigits a && allDigits b.
Proof. rewrite !allDigits_every. apply every_app. Qed.

Lemma fixedDigits_allDigits k n : allDigits (fixedDigits k n) = true.
Proof.
  revert n. induction k as [|k IH]; intros n; [reflexivity|].
  cbn [fixedDigits]. rewrite allDigits_app, IH. cbn.
  destruct (digitChar_facts (n mod 10)) as [-> _]; [|reflexivity].
  apply Z.mod_pos_bound. lia.
Qed.

Lemma fixedDigits_length k n : String.length (fixedDigits k n) = k.
Proof.
  revert n. induction k as [|k IH]; intros n; [reflexivity|].
  cbn [fixedDigits]. rewrite string_length_app, IH. cbn. lia.
Qed.

Lemma pow10_pos k : 0 < 10 ^ Z.of_nat k.
Proof. apply Z.pow_pos_nonneg; lia. Qed.

Lemma pow10_S k : 10 ^ Z.of_nat (S k) = 10 * 10 ^ Z.of_nat k.
Proof. rewrite Nat2Z.inj_succ, Z.pow_succ_r; lia. Qed.

(** Reading [k] fixed digits shifts the accumulator by [k] places. *)
Lemma digitsFrom_fixedDigits k n acc rest :
  digitsFrom acc (fixedDigits k n ++ rest)
  = digitsFrom (acc * 10 ^ Z.of_nat k + n mod 10 ^ Z.of_nat k) rest.
Proof.
  revert n acc rest. induction k as [|k IH]; intros n acc rest.
  - cbn. rewrite Z.mod_1_r. f_equal. lia.
  - cbn [fixedDigits]. rewrite app_assoc_s, IH. cbn [String.append digitsFrom].
    destruct (digitChar_facts (n mod 10)) as (_ & -> & _);
      [apply Z.mod_pos_bound; lia|].
    f_equal. rewrite pow10_S.
    rewrite (Z.rem_mul_r n 10 (10 ^ Z.of_nat k)); [|lia|apply pow10_pos].
    ring.
Qed.

Lemma countDigits_bound fuel n :
  0 <= n < 2 ^ (Z.of_nat fuel + 1) ->
  (1 <= countDigits fuel n)%nat /\ n < 10 ^ Z.of_nat (countDigits fuel n).
Proof.
  revert n. induction fuel as [|fuel IH]; intros n H.
  - cbn in *. lia.
  - cbn [countDigits]. destruct (Z.ltb_spec n 10) as [L|L].
    + cbn. lia.
    + assert (B : 0 <= n / 10 < 2 ^ (Z.of_nat fuel + 1)).
      { split; [apply Z.div_pos; lia|].
        apply Z.div_lt_upper_bound; [lia|].
        replace (Z.of_nat (S fuel) + 1) with (Z.succ (Z.of_nat fuel + 1)) in H by lia.
        rewrite Z.pow_succ_r in H by lia. lia. }
      destruct (IH _ B) as [C1 C2]. split; [lia|].
      rewrite pow10_S.
      pose proof (Z.div_mod n 10 ltac:(lia)) as E.
      pose proof (Z.mod_pos_bound n 10 ltac:(lia)). lia.
Qed.

Lemma numDigits_bound n :
  0 <= n -> (1 <= numDigits n)%nat /\ n < 10 ^ Z.of_nat (numDigits n).
Proof.
  intros H. apply countDigits_bound. split; [assumption|].
  rewrite Z2Nat.id by apply Z.log2_nonneg.
  destruct (Z.eq_dec n 0) as [->|N]; [reflexivity|].
  replace (Z.log2 n + 1) with (Z.succ (Z.log2 n)) by lia.
  apply Z.log2_spec. lia.
Qed.

Lemma intDigits_allDigits n : allDigits (intDigits n) = true.
Proof. apply fixedDigits_allDigits. Qed.

Lemma intDigits_nonempty n : 0 <= n -> intDigits n <> "".
Proof.
  intros H E. apply (f_equal String.length) in E.
  unfold intDigits in E. rewrite fixedDigits_length in E.
  destruct (numDigits_bound n H) as [L _]. cbn in E. lia.
Qed.

(** Reading the rendering of [n] and then [rest]. *)
Lemma digitsFrom_intDigits n rest :
  0 <= n -> digitsFrom 0 (intDigits n ++ rest) = digitsFrom n rest.
Proof.
  intros H. unfold intDigits. rewrite digitsFrom_fixedDigits.
  destruct (numDigits_bound n H) as [_ L].
  rewrite Z.mod_small by lia. f_equal.
Qed.

Lemma digitsVal_intDigits n : 0 <= n -> digitsVal (intDigits n) = n.
Proof.
  intros H. unfold digitsVal.
  rewrite <- (app_nil_r_s (intDigits n)). now rewrite digitsFrom_intDigits.
Qed.

Lemma digit_not_dot c : isDigit c = true -> isDot c = false.
Proof. intros H. destruct (isDigit_inv c H) as (d & Hd & ->). apply digitChar_facts, Hd. Qed.

Lemma digit_not_exp c : isDigit c = true -> isExpMark c = false.
Proof. intros H. destruct (isDigit_inv c H) as (d & Hd & ->). apply digitChar_facts, Hd. Qed.

(** Cutting at a byte that does not occur. *)
Lemma cut_absent p s : every (fun c => negb (p c)) s = true -> cut p s = (s, None).
Proof.
  induction s as [|c s IH]; simpl; [reflexivity|].
  intros H. apply andb_true_iff in H as [H1 H2].
  apply negb_true_iff in H1. now rewrite H1, IH.
Qed.

(** Cutting at the first occurrence. *)
Lemma cut_first p a c b :
  every (fun c => negb (p c)) a = true -> p c = true ->
  cut p (a ++ String c b) = (a, Some b).
Proof.
  intros Ha Hc. induction a as [|x a IH]; simpl.
  - now rewrite Hc.
  - simpl in Ha. apply andb_true_iff in Ha as [H1 H2].
    apply negb_true_iff in H1. now rewrite H1, IH.
Qed.

Lemma digits_no_dot s : allDigits s = true -> every (fun c => negb (isDot c)) s = true.
Proof.
  rewrite allDigits_every. apply every_weaken.
  intros c H. now rewrite (digit_not_dot c H).
Qed.

Lemma digits_no_exp s : allDigits s = true -> every (fun c => negb (isExpMark c)) s = true.
Proof.
  rewrite allDigits_every. apply every_weaken.
  intros c H. now rewrite (digit_not_exp c H).
Qed.

Lemma signOf_digits s : allDigits s = true -> signOf s = (false, s).
Proof.
  destruct s as [|c s]; [reflexivity|]. simpl. intros H.
  apply andb_true_iff in H as [H _].
  destruct (isDigit_inv c H) as (d & Hd & ->).
  destruct (digitChar_facts d Hd) as (_ & _ & _ & _ & -> & -> & _). reflexivity.
Qed.

(** Parsing digits, a point and digits. *)
Lemma decimal_point ip fp :
  allDigits ip = true -> allDigits fp = true -> ip <> "" ->
  decimal (ip ++ String "." fp)
  = Some (inject_Z (digitsVal (ip ++ fp)) / inject_Z (10 ^ Z.of_nat (String.length fp)))%Q.
Proof.
  intros Hi Hf Hne. unfold decimal.
  assert (Hall : every (fun c => negb (isExpMark c)) (ip ++ String "." fp) = true).
  { rewrite every_app. cbn [every]. rewrite (digits_no_exp _ Hi), (digits_no_exp _ Hf).
    reflexivity. }
  assert (Hs : signOf (ip ++ String "." fp) = (false, ip ++ String "." fp)).
  { destruct ip as [|c ip]; [congruence|]. cbn in Hi |- *.
    apply andb_true_iff in Hi as [H _].
    destruct (isDigit_inv c H) as (d & Hd & ->).
    destruct (digitChar_facts d Hd) as (_ & _ & _ & _ & -> & -> & _). reflexivity. }
  rewrite Hs, (cut_absent _ _ Hall), (cut_first isDot ip "." fp (digits_no_dot _ Hi) eq_refl).
  rewrite Hi, Hf. destruct ip; [congruence|]. reflexivity.
Qed.

(** Parsing digits alone. *)
Lemma decimal_digits ip :
  allDigits ip = true -> ip <> "" ->
  decimal ip = Some (inject_Z (digitsVal ip) / inject_Z 1)%Q.
Proof.
  intros Hi Hne. unfold decimal.
  rewrite (signOf_digits _ Hi), (cut_absent _ _ (digits_no_exp _ Hi)),
    (cut_absent _ _ (digits_no_dot _ Hi)), Hi, app_nil_r_s.
  destruct ip; [congruence|]. reflexivity.
Qed.

(** *** Trimming *)

Lemma TrimRight_keep c b cs :
  strings.inCutset c cs = false ->
  strings.TrimRight (String c b) cs = String c (strings.TrimRight b cs).
Proof. intros H. cbn [strings.TrimRight]. rewrite H. now destruct (strings.TrimRight b cs). Qed.

(** Trimming a concatenation: the tail is trimmed first, and the head only
    when nothing of the tail is left. *)
Lemma TrimRight_app a t cs :
  strings.TrimRight (a ++ t) cs =
  match strings.TrimRight t cs with
  | EmptyString => strings.TrimRight a cs
  | r => a ++ r
  end.
Proof.
  induction a as [|x a IH].
  - cbn [String.append]. now destruct (strings.TrimRight t cs).
  - cbn [String.append strings.TrimRight]. rewrite IH.
    destruct (strings.TrimRight t cs) as [|y r]; [reflexivity|].
    now destruct a.
Qed.

Lemma TrimRight_clean s cs :
  every (fun c => negb (strings.inCutset c cs)) s = true -> strings.TrimRight s cs = s.
Proof.
  induction s as [|c s IH]; [reflexivity|]. cbn [every]. intros H.
  apply andb_true_iff in H as [H1 H2]. apply negb_true_iff in H1.
  now rewrite (TrimRight_keep _ _ _ H1), IH.
Qed.

Lemma digits_no_point_cut s :
  allDigits s = true -> every (fun c => negb (strings.inCutset c ".")) s = true.
Proof.
  rewrite allDigits_every. apply every_weaken. intros c H.
  pose proof (digit_not_dot c H) as D. unfold isDot in D.
  cbn [strings.inCutset]. now rewrite D.
Qed.

(** What trimming zeros removes is a run of zeros. *)
Lemma TrimRight_zeros s :
  exists k, s = strings.TrimRight s "0" ++ zeros k.
Proof.
  induction s as [|c s [k IH]]; [now exists O|].
  cbn [strings.TrimRight].
  destruct (strings.TrimRight s "0") as [|y r] eqn:E.
  - cbn [strings.inCutset]. rewrite orb_false_r.
    destruct (Ascii.eqb_spec c "0") as [->|N].
    + exists (S k). cbn in IH |- *. now rewrite <- IH.
    + exists k. cbn in IH |- *. now rewrite <- IH.
  - exists k. cbn [String.append] in IH |- *. now rewrite <- IH.
Qed.

Lemma zeros_allDigits k : allDigits (zeros k) = true.
Proof. induction k; [reflexivity|]. cbn. exact IHk. Qed.

Lemma zeros_length k : String.length (zeros k) = k.
Proof. induction k; [reflexivity|]. cbn. now rewrite IHk. Qed.

Lemma digitsFrom_app acc a b : digitsFrom acc (a ++ b) = digitsFrom (digitsFrom acc a) b.
Proof. revert acc. induction a as [|c a IH]; intros acc; [reflexivity|]. cbn. apply IH. Qed.

Lemma digitsFrom_zeros acc k : digitsFrom acc (zeros k) = acc * 10 ^ Z.of_nat k.
Proof.
  revert acc. induction k as [|k IH]; intros acc; [cbn; lia|].
  cbn [zeros digitsFrom]. rewrite IH, pow10_S.
  change (digitVal "0") with 0. ring.
Qed.

End Digits.

(** ** Rationals *)

Section Rationals.

Lemma inject_Z_nonzero b : b <> 0 -> ~ (inject_Z b == 0)%Q.
Proof. intros H E. apply H. unfold Qeq in E. simpl in E. lia. Qed.

Lemma Qdiv_Z_eq a b c d :
  0 < b -> 0 < d -> a * d = c * b ->
  (inject_Z a / inject_Z b == inject_Z c / inject_Z d)%Q.
Proof.
  intros Hb Hd H.
  assert (E : (inject_Z a * inject_Z d == inject_Z c * inject_Z b)%Q)
    by (rewrite <- !inject_Z_mult; now rewrite H).
  field_simplify_eq; [rewrite E; ring|].
  split; apply inject_Z_nonzero; lia.
Qed.

Lemma roundHalfEven_exact x n : (x == inject_Z n)%Q -> float64.roundHalfEven x = n.
Proof.
  intros E. unfold float64.roundHalfEven. cbv zeta.
  rewrite (Qfloor_comp _ _ E), Qfloor_Z.
  assert (Z0 : (x - inject_Z n == 0)%Q) by (rewrite E; ring).
  destruct (Qcompare_spec (x - inject_Z n) (1 # 2)) as [H|H|H];
    [rewrite Z0 in H; discriminate | reflexivity | rewrite Z0 in H; discriminate].
Qed.

End Rationals.

Section Rendering.

Import strconv.


(** Rendering a non-negative value that has no more than [prec]
    decimals: the digits of the integer [n] it is worth in units of
    [10 ^ -prec]. *)
Lemma fixed_exact x prec n :
  (0 <= x)%Q -> (x * inject_Z (10 ^ Z.of_nat prec) == inject_Z n)%Q ->
  fixed x prec
  = intDigits (n / 10 ^ Z.of_nat prec)
    ++ match prec with
       | O => ""
       | S _ => "." ++ fixedDigits prec (n mod 10 ^ Z.of_nat prec)
       end.
Proof.
  intros Hx E. unfold fixed.
  rewrite (roundHalfEven_exact _ n) by (now rewrite (Qabs_pos x Hx)).
  destruct (Qlt_le_dec x 0) as [L|_]; [|reflexivity].
  exfalso. apply (Qlt_irrefl x). eapply Qlt_le_trans; eassumption.
Qed.

(** Digits, a point and digits after the two trims of [formatPrice] and
    of [getPrecision]: the trailing zeros of the fraction go, and the
    point with them when no fraction digit is left. *)
Lemma trimmed_shape ip fp :
  allDigits ip = true -> allDigits fp = true -> ip <> "" ->
  exists fp' k,
    fp = fp' ++ zeros k
    /\ allDigits fp' = true
    /\ strings.TrimRight (strings.TrimRight (ip ++ String "." fp) "0") "."
       = match fp' with
         | EmptyString => ip
         | _ => ip ++ String "." fp'
         end.
Proof.
  intros Hi Hf Hne.
  destruct (TrimRight_zeros fp) as [k Hk].
  set (fp' := strings.TrimRight fp "0") in *.
  assert (Hf' : allDigits fp' = true).
  { rewrite Hk, allDigits_app in Hf. now apply andb_true_iff in Hf as [? _]. }
  exists fp', k. split; [exact Hk|]. split; [exact Hf'|].
  assert (T0 : strings.TrimRight (ip ++ String "." fp) "0" = ip ++ String "." fp').
  { rewrite TrimRight_app, (TrimRight_keep "." fp "0" eq_refl). reflexivity. }
  rewrite T0.
  destruct fp' as [|c r] eqn:Efp.
  - rewrite TrimRight_app. cbn. apply TrimRight_clean, digits_no_point_cut, Hi.
  - replace (ip ++ String "." (String c r)) with ((ip ++ ".") ++ String c r)
      by (now rewrite app_assoc_s).
    rewrite TrimRight_app.
    rewrite (TrimRight_clean (String c r) "." (digits_no_point_cut _ Hf')).
    reflexivity.
Qed.

(** The value that is left. *)
Lemma trimmed_value ip fp :
  allDigits ip = true -> allDigits fp = true -> ip <> "" ->
  exists v,
    decimal (strings.TrimRight (strings.TrimRight (ip ++ String "." fp) "0") ".") = Some v
    /\ (v == inject_Z (digitsVal (ip ++ fp)) / inject_Z (10 ^ Z.of_nat (String.length fp)))%Q.
Proof.
  intros Hi Hf Hne.
  destruct (trimmed_shape ip fp Hi Hf Hne) as (fp' & k & Hk & Hf' & ->).
  assert (V : digitsVal (ip ++ fp) = digitsVal (ip ++ fp') * 10 ^ Z.of_nat k).
  { unfold digitsVal. rewrite Hk.
    rewrite <- app_assoc_s, digitsFrom_app, digitsFrom_zeros. reflexivity. }
  assert (Len : String.length fp = (String.length fp' + k)%nat).
  { rewrite Hk. now rewrite string_length_app, zeros_length. }
  destruct fp' as [|c r] eqn:Efp.
  - rewrite (decimal_digits ip Hi Hne). eexists. split; [reflexivity|].
    rewrite V, Len, app_nil_r_s. cbn [String.length Nat.add].
    apply Qdiv_Z_eq; [lia|apply pow10_pos|ring].
  - rewrite (decimal_point ip (String c r) Hi Hf' Hne).
    eexists. split; [reflexivity|].
    rewrite V, Len. apply Qdiv_Z_eq; [apply pow10_pos..|].
    rewrite Nat2Z.inj_add, Z.pow_add_r by lia. ring.
Qed.

(** A value with at most ten decimals is a whole number of units of
    [10 ^ -P], where [P >= 1] is the length [getPrecision] computes. *)
Lemma trimmedLength_units x k :
  (0 < x)%Q -> (x == inject_Z k / inject_Z (10 ^ 10))%Q ->
  let P := String.length
             (strings.TrimRight (strings.TrimRight (fixed x 10) "0") ".") in
  (1 <= P)%nat /\ exists u, (x * inject_Z (10 ^ Z.of_nat P) == inject_Z u)%Q.
Proof.
  intros Hx Ek.
  assert (E10 : (x * inject_Z (10 ^ Z.of_nat 10) == inject_Z k)%Q).
  { rewrite Ek. change (10 ^ Z.of_nat 10) with (10 ^ 10). field.
    apply inject_Z_nonzero. lia. }
  assert (Kpos : 0 < k).
  { assert (L : (0 < x * inject_Z (10 ^ Z.of_nat 10))%Q)
      by (apply Qmult_lt_0_compat; [exact Hx|reflexivity]).
    rewrite E10 in L. change 0%Q with (inject_Z 0) in L.
    now rewrite <- Zlt_Qlt in L. }
  rewrite (fixed_exact x 10 k (Qlt_le_weak _ _ Hx) E10).
  set (ip := intDigits (k / 10 ^ Z.of_nat 10)).
  set (fp := fixedDigits 10 (k mod 10 ^ Z.of_nat 10)).
  assert (Hi : allDigits ip = true) by apply intDigits_allDigits.
  assert (Hne : ip <> "") by (apply intDigits_nonempty, Z.div_pos; lia).
  assert (Hf : allDigits fp = true) by apply fixedDigits_allDigits.
  change ("." ++ fp) with (String "." fp).
  destruct (trimmed_shape ip fp Hi Hf Hne) as (fp' & z & Hz & Hf' & ->).
  assert (Len : (String.length fp' + z = 10)%nat).
  { pose proof (fixedDigits_length 10 (k mod 10 ^ Z.of_nat 10)) as L. fold fp in L.
    rewrite Hz, string_length_app, zeros_length in L. exact L. }
  assert (V : k mod 10 ^ Z.of_nat 10 = digitsVal fp' * 10 ^ Z.of_nat z).
  { pose proof (digitsFrom_fixedDigits 10 (k mod 10 ^ Z.of_nat 10) 0 "") as D.
    fold fp in D. rewrite app_nil_r_s, Z.mod_mod in D by (change (10 ^ Z.of_nat 10) with (10 ^ 10); lia).
    cbn [digitsFrom] in D. rewrite Z.mul_0_l, Z.add_0_l in D.
    rewrite <- D, Hz, digitsFrom_app, digitsFrom_zeros. reflexivity. }
  set (d := String.length fp') in *.
  assert (Lip : (1 <= String.length ip)%nat).
  { destruct ip; [congruence|cbn; lia]. }
  set (P := String.length match fp' with EmptyString => ip | _ => ip ++ String "." fp' end).
  assert (HP : (1 <= P /\ d <= P)%nat).
  { subst P d. destruct fp' as [|c r]; [cbn; lia|].
    rewrite string_length_app. cbn [String.length]. lia. }
  split; [apply HP|].
  exists ((k / 10 ^ Z.of_nat 10 * 10 ^ Z.of_nat d + digitsVal fp') * 10 ^ Z.of_nat (P - d)).
  rewrite Ek.
  assert (P10 : 10 ^ Z.of_nat 10 = 10 ^ Z.of_nat d * 10 ^ Z.of_nat z).
  { rewrite <- Z.pow_add_r by lia. f_equal. lia. }
  assert (PP : 10 ^ Z.of_nat P = 10 ^ Z.of_nat d * 10 ^ Z.of_nat (P - d)).
  { rewrite <- Z.pow_add_r by lia. f_equal. lia. }
  pose proof (Z.div_mod k (10 ^ Z.of_nat 10) ltac:(change (10 ^ Z.of_nat 10) with (10 ^ 10); lia)) as DM.
  rewrite V in DM.
  pose proof (pow10_pos d). pose proof (pow10_pos z). pose proof (pow10_pos (P - d)).
  set (hi := k / 10 ^ Z.of_nat 10) in *.
  change (10 ^ 10) with (10 ^ Z.of_nat 10).
  transitivity (inject_Z (k * 10 ^ Z.of_nat P) / inject_Z (10 ^ Z.of_nat 10))%Q.
  { rewrite inject_Z_mult. field. apply inject_Z_nonzero. rewrite P10. lia. }
  transitivity (inject_Z ((hi * 10 ^ Z.of_nat d + digitsVal fp') * 10 ^ Z.of_nat (P - d))
                / inject_Z 1)%Q; [|field].
  apply Qdiv_Z_eq; [rewrite P10; lia|lia|].
  rewrite P10 in DM. rewrite PP, P10. clearbody hi. rewrite DM. ring.
Qed.

End Rendering.

(** C6. For every caller-format symbol [s] (no dash) that ends in [USDT] or
    [USD], [reverseSymbol (convertSymbol s) = s]; the two documented examples
    hold; both functions are total (they are plain functions on strings). *)
Theorem reverse_convert_roundtrip :
  (forall s : string,
      strings.Contains s "-" = false ->
      strings.HasSuffix s "USDT" = true \/ strings.HasSuffix s "USD" = true ->
      reverseSymbol (convertSymbol s) = s)
  /\ convertSymbol "BTCUSDT" = "BTC-USDT-SWAP"
  /\ reverseSymbol "BTC-USDT-SWAP" = "BTCUSDT"
  /\ (forall s, exists r, convertSymbol s = r)
  /\ (forall s, exists r, reverseSymbol s = r).
Proof.
  split; [| repeat split; eauto].
  intros s Hdash Hsuf.
  assert (Hrev : forall b q, strings.Contains (b ++ q) "-" = false ->
                   q <> "" ->
                   strings.replaceFrom 0 q "-" "" = q ->
                   reverseSymbol (b ++ "-" ++ q ++ "-SWAP") = b ++ q).
  { intros b q Hb _ Hq. unfold reverseSymbol.
    replace (b ++ "-" ++ q ++ "-SWAP") with ((b ++ "-" ++ q) ++ "-SWAP")
      by (now rewrite !app_assoc_s).
    rewrite TrimSuffix_app. unfold strings.ReplaceAll.
    rewrite (ReplaceAll_dash_free b q _ Hb).
    change ("-" ++ q) with (String "-" q).
    cbn [strings.replaceFrom]. rewrite dash_prefix.
    change (String.length "-" - 1)%nat with 0%nat.
    rewrite Hq. reflexivity. }
  unfold convertSymbol. rewrite Hdash.
  destruct (strings.HasSuffix s "USDT") eqn:H1.
  - destruct (HasSuffix_inv _ _ H1) as [b ->].
    rewrite TrimSuffix_app.
    destruct (String.eqb_spec b (b ++ "USDT")) as [E|_].
    + exfalso. revert E. now apply app_neq_self.
    + apply (Hrev b "USDT"); [assumption | discriminate | reflexivity].
  - rewrite (TrimSuffix_not _ _ H1), String.eqb_refl.
    destruct Hsuf as [H2|H2]; [discriminate|].
    destruct (HasSuffix_inv _ _ H2) as [b ->].
    rewrite TrimSuffix_app.
    destruct (String.eqb_spec b (b ++ "USD")) as [E|_].
    + exfalso. revert E. now apply app_neq_self.
    + apply (Hrev b "USD"); [assumption | discriminate | reflexivity].
Qed.

Lemma reverse_convert_roundtrip_witness :
  strings.Contains "ETHUSD" "-" = false /\
  reverseSymbol (convertSymbol "ETHUSD") = "ETHUSD".
Proof.
  split; [reflexivity|].
  apply (proj1 reverse_convert_roundtrip); [reflexivity | right; reflexivity].
Defined.

(** ** Rounding to binary64 *)

Section FloatFacts.

Import float64.

Local Open Scope Q_scope.

Lemma roundHalfEven_bounds x :
  inject_Z (roundHalfEven x) - (1 # 2) <= x /\ x <= inject_Z (roundHalfEven x) + (1 # 2).
Proof.
  unfold roundHalfEven.
  pose proof (Qfloor_le x) as L. pose proof (Qlt_floor x) as U.
  rewrite inject_Z_plus in U. change (inject_Z 1) with 1 in U.
  destruct (Qcompare_spec (x - inject_Z (Qfloor x)) (1 # 2)) as [E|E|E].
  - destruct (Z.even (Qfloor x)); [|rewrite inject_Z_plus; change (inject_Z 1) with 1]; lra.
  - lra.
  - rewrite inject_Z_plus. change (inject_Z 1) with 1. lra.
Qed.

Lemma roundHalfEven_nearest x n :
  inject_Z n - (1 # 2) < x -> x < inject_Z n + (1 # 2) -> roundHalfEven x = n.
Proof.
  intros L U. destruct (roundHalfEven_bounds x) as [L' U'].
  assert (A : inject_Z (roundHalfEven x) < inject_Z n + 1) by lra.
  assert (B : inject_Z n < inject_Z (roundHalfEven x) + 1) by lra.
  change 1 with (inject_Z 1) in A, B. rewrite <- inject_Z_plus in A, B.
  rewrite <- Zlt_Qlt in A, B. lia.
Qed.

Lemma roundHalfEven_Z n : roundHalfEven (inject_Z n) = n.
Proof. apply roundHalfEven_nearest; lra. Qed.

Lemma roundHalfEven_nonneg x : 0 <= x -> (0 <= roundHalfEven x)%Z.
Proof.
  intros H. destruct (roundHalfEven_bounds x) as [_ U].
  assert (A : inject_Z (-1) < inject_Z (roundHalfEven x)).
  { change (inject_Z (-1)) with (-1). lra. }
  rewrite <- Zlt_Qlt in A. lia.
Qed.

Lemma pow2_pos e : 0 < 2 ^ e.
Proof. apply Qpower_0_lt. reflexivity. Qed.

Lemma pow2_plus a b : 2 ^ (a + b) == 2 ^ a * 2 ^ b.
Proof. apply Qpower_plus. discriminate. Qed.

Lemma pow2_S a : 2 ^ (a + 1) == 2 * 2 ^ a.
Proof. rewrite pow2_plus. change (2 ^ 1) with 2. ring. Qed.

Lemma pow2_le a b : (a <= b)%Z -> 2 ^ a <= 2 ^ b.
Proof. intros H. apply Qpower_le_compat_l; [exact H|discriminate]. Qed.

Lemma pow2_lt a b : (a < b)%Z -> 2 ^ a < 2 ^ b.
Proof. intros H. apply Qpower_lt_compat_l; [exact H|reflexivity]. Qed.

Lemma pow2_Z a : (0 <= a)%Z -> inject_Z (2 ^ a) == 2 ^ a.
Proof. intros H. now rewrite Zpower_Qpower. Qed.

Lemma ilog2_spec q : 0 < q -> 2 ^ ilog2 q <= q /\ q < 2 ^ (ilog2 q + 1).
Proof.
  intros Hq. unfold ilog2.
  destruct q as [a b]. cbn [Qnum Qden].
  assert (Ha : (0 < a)%Z) by (unfold Qlt in Hq; cbn in Hq; lia).
  set (la := Z.log2 a). set (lb := Z.log2 (Z.pos b)).
  destruct (Z.log2_spec a Ha) as [La Ua]. fold la in La, Ua.
  destruct (Z.log2_spec (Z.pos b) ltac:(lia)) as [Lb Ub]. fold lb in Lb, Ub.
  pose proof (Z.log2_nonneg a) as Na. fold la in Na.
  pose proof (Z.log2_nonneg (Z.pos b)) as Nb. fold lb in Nb.
  assert (E : a # b == inject_Z a / inject_Z (Z.pos b)) by apply Qmake_Qdiv.
  assert (Pb : 0 < inject_Z (Z.pos b)) by (change 0 with (inject_Z 0); rewrite <- Zlt_Qlt; lia).
  assert (La' : 2 ^ la <= inject_Z a) by (rewrite <- pow2_Z by lia; now rewrite <- Zle_Qle).
  assert (Ua' : inject_Z a < 2 ^ (la + 1))
    by (rewrite <- pow2_Z by lia; rewrite <- Zlt_Qlt; now rewrite <- Z.add_1_r in Ua).
  assert (Lb' : 2 ^ lb <= inject_Z (Z.pos b)) by (rewrite <- pow2_Z by lia; now rewrite <- Zle_Qle).
  assert (Ub' : inject_Z (Z.pos b) < 2 ^ (lb + 1))
    by (rewrite <- pow2_Z by lia; rewrite <- Zlt_Qlt; now rewrite <- Z.add_1_r in Ub).
  assert (Up : a # b < 2 ^ (la - lb + 1)).
  { rewrite E. apply Qlt_shift_div_r; [exact Pb|].
    replace (la - lb + 1)%Z with ((la + 1) + - lb)%Z by lia.
    rewrite pow2_plus, Qpower_opp.
    pose proof (pow2_pos lb) as P1. pose proof (pow2_pos (la + 1)) as P2.
    set (X := 2 ^ (la + 1)) in *. set (Y := 2 ^ lb) in *.
    assert (I : Y * / Y == 1) by (field; lra).
    assert (Pi : 0 < / Y) by now apply Qinv_lt_0_compat.
    set (Z := / Y) in *. clearbody X Y Z.
    assert (H1 : Z * Y <= Z * inject_Z (Z.pos b)) by (apply Qmult_le_l; assumption).
    assert (H2 : X * (Z * Y) <= X * (Z * inject_Z (Z.pos b))) by (apply Qmult_le_l; assumption).
    assert (H3 : X * (Z * Y) == X) by (rewrite (Qmult_comm Z Y), I; ring).
    lra. }
  assert (Lo : 2 ^ (la - lb - 1) < a # b).
  { rewrite E. apply Qlt_shift_div_l; [exact Pb|].
    replace (la - lb - 1)%Z with (la + - (lb + 1))%Z by lia.
    rewrite pow2_plus, Qpower_opp.
    pose proof (pow2_pos (lb + 1)) as P1. pose proof (pow2_pos la) as P2.
    set (X := 2 ^ la) in *. set (Y := 2 ^ (lb + 1)) in *.
    assert (I : Y * / Y == 1) by (field; lra).
    assert (Pi : 0 < / Y) by now apply Qinv_lt_0_compat.
    set (Z := / Y) in *. clearbody X Y Z.
    assert (H1 : Z * inject_Z (Z.pos b) < Z * Y) by (apply Qmult_lt_l; assumption).
    assert (H2 : X * (Z * inject_Z (Z.pos b)) < X * (Z * Y)) by (apply Qmult_lt_l; assumption).
    assert (H3 : X * (Z * Y) == X) by (rewrite (Qmult_comm Z Y), I; ring).
    lra. }
  destruct (Qle_bool (2 ^ (la - lb)) (a # b)) eqn:C.
  - apply Qle_bool_iff in C. split; assumption.
  - assert (C' : a # b < 2 ^ (la - lb)).
    { apply Qnot_le_lt. intros H. apply Qle_bool_iff in H. congruence. }
    replace (la - lb - 1 + 1)%Z with (la - lb)%Z by lia.
    split; [now apply Qlt_le_weak|exact C'].
Qed.


Lemma ilog2_lt q l : 0 < q -> q < 2 ^ l -> (ilog2 q < l)%Z.
Proof.
  intros Hq H. destruct (ilog2_spec q Hq) as [L _].
  destruct (Z_lt_le_dec (ilog2 q) l) as [C|C]; [exact C|].
  pose proof (pow2_le _ _ C). lra.
Qed.

Lemma ilog2_ge q l : 0 < q -> 2 ^ l <= q -> (l <= ilog2 q)%Z.
Proof.
  intros Hq H. destruct (ilog2_spec q Hq) as [_ U].
  destruct (Z_lt_le_dec (ilog2 q) l) as [C|C]; [|exact C].
  assert (C' : (ilog2 q + 1 <= l)%Z) by lia.
  pose proof (pow2_le _ _ C'). lra.
Qed.

Lemma round_spec neg q :
  0 < q -> q < 2 ^ 1023 ->
  isFinite (round neg q) = true
  /\ toQ (round neg q)
     == (if neg then - 1 else 1)
        * (inject_Z (roundHalfEven (q / 2 ^ lastPlace q)) * 2 ^ lastPlace q).
Proof.
  intros Hq Hb. unfold round.
  set (e := lastPlace q). set (m := roundHalfEven (q / 2 ^ e)).
  assert (He : (e <= 970)%Z).
  { pose proof (ilog2_lt q 1023 Hq Hb). unfold e, lastPlace. lia. }
  assert (Hm : (0 <= m)%Z).
  { apply roundHalfEven_nonneg. apply Qlt_le_weak.
    apply Qlt_shift_div_l; [apply pow2_pos|lra]. }
  destruct (Z.eqb_spec m 0) as [Z0|Z0].
  - split; [reflexivity|]. rewrite Z0. cbn [toQ]. destruct neg; ring.
  - destruct (Z.eqb_spec m (2 ^ 53)) as [E|E].
    + destruct (Z.ltb_spec 971 (e + 1)) as [C|C]; [lia|].
      split; [reflexivity|]. rewrite E. cbn [toQ].
      change (Z.pos (Z.to_pos (2 ^ 52))) with (2 ^ 52)%Z.
      rewrite pow2_S. change (inject_Z (2 ^ 53)) with (2 * inject_Z (2 ^ 52)).
      destruct neg; ring.
    + destruct (Z.ltb_spec 971 e) as [C|C]; [lia|].
      split; [reflexivity|]. cbn [toQ]. rewrite Z2Pos.id by lia.
      destruct neg; ring.
Qed.

Lemma round_opp q :
  0 < q -> q < 2 ^ 1023 -> toQ (round true q) == - toQ (round false q).
Proof.
  intros Hq Hb. rewrite (proj2 (round_spec true q Hq Hb)), (proj2 (round_spec false q Hq Hb)).
  ring.
Qed.

(** The rounding error is at most half a unit of the last place. *)
Lemma round_error q :
  0 < q -> q < 2 ^ 1023 ->
  q - 2 ^ lastPlace q * (1 # 2) <= toQ (round false q)
  /\ toQ (round false q) <= q + 2 ^ lastPlace q * (1 # 2).
Proof.
  intros Hq Hb. rewrite (proj2 (round_spec false q Hq Hb)), Qmult_1_l.
  destruct (roundHalfEven_bounds (q / 2 ^ lastPlace q)) as [L U].
  pose proof (pow2_pos (lastPlace q)) as P.
  set (E := 2 ^ lastPlace q) in *. set (m := inject_Z (roundHalfEven (q / E))) in *.
  assert (I : q / E * E == q) by (field; lra).
  clearbody E m.
  assert (L' : (m - (1 # 2)) * E <= q / E * E) by (apply Qmult_le_compat_r; lra).
  assert (U' : q / E * E <= (m + (1 # 2)) * E) by (apply Qmult_le_compat_r; lra).
  rewrite I in L', U'. lra.
Qed.

Lemma round_nonneg q : 0 < q -> q < 2 ^ 1023 -> 0 <= toQ (round false q).
Proof.
  intros Hq Hb. rewrite (proj2 (round_spec false q Hq Hb)), Qmult_1_l.
  apply Qmult_le_0_compat; [|apply Qlt_le_weak, pow2_pos].
  change 0 with (inject_Z 0). rewrite <- Zle_Qle. apply roundHalfEven_nonneg.
  apply Qlt_le_weak. apply Qlt_shift_div_l; [apply pow2_pos|lra].
Qed.

(** In the normal range the error is at most [2 ^ -53] of the number. *)
Lemma round_normal q :
  2 ^ (-1022) <= q -> q < 2 ^ 1023 ->
  q - q * 2 ^ (-53) <= toQ (round false q) /\ toQ (round false q) <= q + q * 2 ^ (-53).
Proof.
  intros Hn Hb. pose proof (pow2_pos (-1022)) as P0.
  assert (Hq : 0 < q) by lra.
  destruct (round_error q Hq Hb) as [L U].
  pose proof (ilog2_ge q (-1022) Hq Hn) as G.
  assert (E : lastPlace q = (ilog2 q + -52)%Z) by (unfold lastPlace; lia).
  destruct (ilog2_spec q Hq) as [S _].
  assert (B : 2 ^ lastPlace q * (1 # 2) <= q * 2 ^ (-53)).
  { rewrite E, pow2_plus.
    assert (C : 2 ^ ilog2 q * 2 ^ (-52) * (1 # 2) == 2 ^ ilog2 q * 2 ^ (-53)).
    { assert (C0 : 2 ^ (-52) * (1 # 2) == 2 ^ (-53)) by reflexivity.
      rewrite <- C0. ring. }
    rewrite C. apply Qmult_le_compat_r; [exact S|apply Qlt_le_weak, pow2_pos]. }
  lra.
Qed.

(** Below the normal range the result stays below it. *)
Lemma round_tiny q :
  0 < q -> q < 2 ^ (-1022) ->
  0 <= toQ (round false q) /\ toQ (round false q) <= 2 ^ (-1022).
Proof.
  intros Hq Hs.
  assert (Hb : q < 2 ^ 1023).
  { pose proof (pow2_lt (-1022) 1023 ltac:(lia)). lra. }
  split; [now apply round_nonneg|].
  rewrite (proj2 (round_spec false q Hq Hb)), Qmult_1_l.
  pose proof (ilog2_lt q (-1022) Hq Hs) as G.
  assert (E : lastPlace q = (-1074)%Z) by (unfold lastPlace; lia).
  rewrite E.
  destruct (roundHalfEven_bounds (q / 2 ^ (-1074))) as [L _].
  set (m := roundHalfEven (q / 2 ^ (-1074))) in *.
  pose proof (pow2_pos (-1074)) as P.
  assert (X : q / 2 ^ (-1074) < 2 ^ 52).
  { apply Qlt_shift_div_r; [exact P|].
    assert (C : 2 ^ 52 * 2 ^ (-1074) == 2 ^ (-1022)) by (rewrite <- pow2_plus; reflexivity).
    rewrite C. exact Hs. }
  assert (M : (m <= 2 ^ 52)%Z).
  { assert (A : inject_Z m < inject_Z (2 ^ 52 + 1)).
    { rewrite inject_Z_plus, pow2_Z by lia. change (inject_Z 1) with 1. lra. }
    rewrite <- Zlt_Qlt in A. lia. }
  assert (C : 2 ^ (-1022) == inject_Z (2 ^ 52) * 2 ^ (-1074)).
  { rewrite pow2_Z by lia. rewrite <- pow2_plus. reflexivity. }
  rewrite C. apply Qmult_le_compat_r; [|now apply Qlt_le_weak].
  now rewrite <- Zle_Qle.
Qed.

(** A number with at most 53 bits above its last place is kept. *)
Lemma round_exact q M E :
  0 < q -> q < 2 ^ 1023 -> q == inject_Z M * 2 ^ E -> (lastPlace q <= E)%Z ->
  toQ (round false q) == q.
Proof.
  intros Hq Hb Eq Le. rewrite (proj2 (round_spec false q Hq Hb)), Qmult_1_l.
  set (e := lastPlace q) in *.
  assert (X : q / 2 ^ e == inject_Z (M * 2 ^ (E - e))).
  { rewrite inject_Z_mult, pow2_Z by lia.
    replace (E - e)%Z with (E + - e)%Z by lia. rewrite pow2_plus, Qpower_opp, Eq.
    field. pose proof (pow2_pos e). lra. }
  assert (R : roundHalfEven (q / 2 ^ e) = (M * 2 ^ (E - e))%Z).
  { apply roundHalfEven_nearest; rewrite X; lra. }
  rewrite R, <- X. field. pose proof (pow2_pos e). lra.
Qed.

Lemma round_Z n :
  (0 < n <= 2 ^ 53)%Z -> toQ (round false (inject_Z n)) == inject_Z n.
Proof.
  intros Hn.
  assert (Hq : 0 < inject_Z n) by (change 0 with (inject_Z 0); rewrite <- Zlt_Qlt; lia).
  assert (H53 : inject_Z n <= 2 ^ 53) by (rewrite <- pow2_Z by lia; rewrite <- Zle_Qle; lia).
  assert (Hb : inject_Z n < 2 ^ 1023).
  { pose proof (pow2_lt 53 1023 ltac:(lia)). lra. }
  destruct (Z.eq_dec n (2 ^ 53)%Z) as [E|E].
  - apply (round_exact _ 1 53 Hq Hb).
    + rewrite E, pow2_Z by lia. ring.
    + assert (L : (ilog2 (inject_Z n) < 54)%Z).
      { apply ilog2_lt; [exact Hq|]. pose proof (pow2_lt 53 54 ltac:(lia)). lra. }
      unfold lastPlace. lia.
  - apply (round_exact _ n 0 Hq Hb).
    + change (2 ^ 0) with 1. ring.
    + assert (L : (ilog2 (inject_Z n) < 53)%Z).
      { apply ilog2_lt; [exact Hq|]. rewrite <- pow2_Z by lia. rewrite <- Zlt_Qlt. lia. }
      unfold lastPlace. lia.
Qed.

End FloatFacts.

(** ** The operations on non-negative numbers *)

Section FloatOps.

Import float64.

Local Open Scope Q_scope.

Lemma toQ_pos m e : 0 < toQ (S754_finite false m e).
Proof.
  cbn [toQ]. apply Qmult_lt_0_compat; [|apply pow2_pos].
  change 0 with (inject_Z 0). now rewrite <- Zlt_Qlt.
Qed.

Lemma plus_nonneg x q : plus x q -> 0 <= q.
Proof.
  destruct x as [[|]|s| |[|] m e]; cbn [plus]; try contradiction.
  - intros ->. apply Qle_refl.
  - intros <-. apply Qlt_le_weak, toQ_pos.
Qed.

Lemma plus_toQ x q : plus x q -> toQ x == q.
Proof.
  destruct x as [[|]|s| |[|] m e]; cbn [plus]; try contradiction.
  - intros ->. reflexivity.
  - auto.
Qed.

Lemma plus_comp x q r : q == r -> plus x q -> plus x r.
Proof.
  intros E. destruct x as [[|]|s| |[|] m e]; cbn [plus]; try contradiction.
  - intros H. now rewrite <- E.
  - intros H. now rewrite <- E.
Qed.

Lemma plus_finite x : isFinite x = true -> 0 < toQ x -> plus x (toQ x).
Proof.
  destruct x as [[|]|s| |[|] m e]; cbn [isFinite toQ plus]; try discriminate.
  - intros _ H. exfalso.
    assert (P : 0 < inject_Z (Z.pos m) * 2 ^ e).
    { apply Qmult_lt_0_compat; [|apply pow2_pos].
      change 0 with (inject_Z 0). now rewrite <- Zlt_Qlt. }
    lra.
  - reflexivity.
Qed.

Lemma plus_positive x q : plus x q -> 0 < q -> exists m e, x = S754_finite false m e.
Proof.
  destruct x as [[|]|s| |[|] m e]; cbn [plus]; try contradiction.
  - intros -> H. now apply Qlt_irrefl in H.
  - intros _ _. now exists m, e.
Qed.

Lemma plus_zero x q : plus x q -> q == 0 -> x = S754_zero false.
Proof.
  destruct x as [[|]|s| |[|] m e]; cbn [plus]; try contradiction.
  - reflexivity.
  - intros E Z0. pose proof (toQ_pos m e) as P. cbn [toQ] in *. lra.
Qed.

Lemma roundHalfEven_comp x y : x == y -> roundHalfEven x = roundHalfEven y.
Proof.
  intros E. unfold roundHalfEven. rewrite (Qfloor_comp _ _ E).
  assert (C : (x - inject_Z (Qfloor y) ?= 1 # 2) = (y - inject_Z (Qfloor y) ?= 1 # 2))
    by now rewrite E.
  now rewrite C.
Qed.

Lemma ilog2_comp q r : 0 < q -> q == r -> ilog2 q = ilog2 r.
Proof.
  intros Hq E. assert (Hr : 0 < r) by now rewrite <- E.
  destruct (ilog2_spec q Hq) as [L1 U1].
  assert (L2 : 2 ^ ilog2 q <= r) by now rewrite <- E.
  assert (U2 : r < 2 ^ (ilog2 q + 1)) by now rewrite <- E.
  pose proof (ilog2_ge _ _ Hr L2). pose proof (ilog2_lt _ _ Hr U2). lia.
Qed.

Lemma round_comp neg q r : 0 < q -> q == r -> round neg q = round neg r.
Proof.
  intros Hq E. unfold round, lastPlace. rewrite (ilog2_comp q r Hq E).
  set (e := Z.max (ilog2 r - 52) (-1074)).
  assert (C : q / 2 ^ e == r / 2 ^ e) by now rewrite E.
  now rewrite (roundHalfEven_comp _ _ C).
Qed.

Lemma ofQ_comp z q r : q == r -> ofQ z q = ofQ z r.
Proof.
  intros E. unfold ofQ.
  assert (C : (q ?= 0) = (r ?= 0)) by now rewrite E.
  rewrite <- C. destruct (Qcompare_spec q 0) as [Z0|L|G].
  - reflexivity.
  - apply round_comp; [lra|now rewrite E].
  - now apply round_comp.
Qed.

Lemma ofQ_pos z q : 0 < q -> ofQ z q = round false q.
Proof. intros H. unfold ofQ. apply Qgt_alt in H. now rewrite H. Qed.

Lemma ofQ_zero z q : q == 0 -> ofQ z q = S754_zero z.
Proof. intros H. unfold ofQ. apply Qeq_alt in H. now rewrite H. Qed.

(** Rounding a positive number below the largest one gives a
    non-negative number. *)
Lemma round_plus q : 0 < q -> q < 2 ^ 1023 -> plus (round false q) (toQ (round false q)).
Proof.
  intros Hq Hb. destruct (round_spec false q Hq Hb) as [F _].
  pose proof (round_nonneg q Hq Hb) as N.
  unfold round in *.
  destruct (roundHalfEven (q / 2 ^ lastPlace q) =? 0)%Z; [reflexivity|].
  destruct (if (roundHalfEven (q / 2 ^ lastPlace q) =? 2 ^ 53)%Z
            then ((2 ^ 52)%Z, (lastPlace q + 1)%Z)
            else (roundHalfEven (q / 2 ^ lastPlace q), lastPlace q)) as [m e].
  destruct (971 <? e)%Z; [discriminate|reflexivity].
Qed.

Lemma ofQ_plus q : 0 <= q -> q < 2 ^ 1023 -> plus (ofQ false q) (toQ (ofQ false q)).
Proof.
  intros Hq Hb. destruct (Qle_lt_or_eq _ _ Hq) as [P|E].
  - rewrite (ofQ_pos _ _ P). now apply round_plus.
  - rewrite ofQ_zero by now symmetry. reflexivity.
Qed.

(** A whole number up to [2 ^ 53] is a number. *)
Lemma ofZ_plus n : (0 <= n <= 2 ^ 53)%Z -> plus (ofZ n) (inject_Z n).
Proof.
  intros Hn. unfold ofZ. destruct (Z.eq_dec n 0%Z) as [->|Nz].
  - reflexivity.
  - assert (P : 0 < inject_Z n) by (change 0 with (inject_Z 0); rewrite <- Zlt_Qlt; lia).
    assert (B : inject_Z n < 2 ^ 1023).
    { assert (inject_Z n <= 2 ^ 53) by (rewrite <- pow2_Z by lia; rewrite <- Zle_Qle; lia).
      pose proof (pow2_lt 53 1023 ltac:(lia)). lra. }
    rewrite (ofQ_pos _ _ P).
    apply (plus_comp _ _ _ (round_Z n ltac:(lia))). now apply round_plus.
Qed.

Lemma compare_plus x y a b : plus x a -> plus y b -> compare x y = Some (a ?= b).
Proof.
  intros Hx Hy. pose proof (plus_toQ _ _ Hx) as Ex. pose proof (plus_toQ _ _ Hy) as Ey.
  assert (C : (toQ x ?= toQ y) = (a ?= b)) by now rewrite Ex, Ey.
  rewrite <- C.
  destruct x as [[|]|?| |[|] ? ?]; try contradiction;
    destruct y as [[|]|?| |[|] ? ?]; try contradiction; reflexivity.
Qed.

Lemma ltb_plus x y a b : plus x a -> plus y b -> ltb x y = true <-> a < b.
Proof.
  intros Hx Hy. unfold ltb. rewrite (compare_plus x y a b Hx Hy).
  rewrite Qlt_alt. destruct (a ?= b); split; congruence.
Qed.

Lemma ltb_plus_false x y a b : plus x a -> plus y b -> ltb x y = false <-> b <= a.
Proof.
  intros Hx Hy. pose proof (ltb_plus x y a b Hx Hy) as T. split.
  - intros F. apply Qnot_lt_le. intros L. apply T in L. congruence.
  - intros L. destruct (ltb x y); [|reflexivity].
    exfalso. apply (Qlt_not_le a b); [now apply T|exact L].
Qed.

Lemma leb_plus x y a b : plus x a -> plus y b -> leb x y = true <-> a <= b.
Proof.
  intros Hx Hy. unfold leb. rewrite (compare_plus x y a b Hx Hy).
  rewrite Qle_alt. destruct (a ?= b); split; congruence.
Qed.

Lemma leb_plus_false x y a b : plus x a -> plus y b -> leb x y = false <-> b < a.
Proof.
  intros Hx Hy. pose proof (leb_plus x y a b Hx Hy) as T. split.
  - intros F. apply Qnot_le_lt. intros L. apply T in L. congruence.
  - intros L. destruct (leb x y); [|reflexivity].
    exfalso. apply (Qlt_not_le b a); [exact L|now apply T].
Qed.

(** The quotient of two such numbers: what is rounded. *)
Lemma div_plus x y a b :
  plus x a -> plus y b -> 0 < b -> a / b < 2 ^ 1023 ->
  div x y = ofQ false (a / b) /\ plus (div x y) (toQ (div x y)).
Proof.
  intros Hx Hy Hb Hr.
  destruct (plus_positive _ _ Hy Hb) as (my & ey & ->).
  pose proof (plus_nonneg _ _ Hx) as Ha.
  assert (Q0 : 0 <= a / b) by (apply Qle_shift_div_l; [exact Hb|lra]).
  assert (E : div x (S754_finite false my ey) = ofQ false (a / b)).
  { destruct x as [[|]|s| |[|] mx ex]; cbn [plus] in Hx; try contradiction.
    - rewrite ofQ_zero; [reflexivity|]. rewrite Hx. field. lra.
    - unfold div. cbn [xorb]. apply ofQ_comp. cbn [plus] in Hy. now rewrite Hx, Hy. }
  rewrite E. split; [reflexivity|]. now apply ofQ_plus.
Qed.

(** The product. *)
Lemma mul_plus x y a b :
  plus x a -> plus y b -> a * b < 2 ^ 1023 ->
  mul x y = ofQ false (a * b) /\ plus (mul x y) (toQ (mul x y)).
Proof.
  intros Hx Hy Hr.
  pose proof (plus_nonneg _ _ Hx) as Ha. pose proof (plus_nonneg _ _ Hy) as Hb.
  assert (Q0 : 0 <= a * b) by now apply Qmult_le_0_compat.
  assert (E : mul x y = ofQ false (a * b)).
  { destruct x as [[|]|s| |[|] mx ex]; cbn [plus] in Hx; try contradiction;
      destruct y as [[|]|s'| |[|] my ey]; cbn [plus] in Hy; try contradiction.
    - rewrite ofQ_zero; [reflexivity|]. rewrite Hx. ring.
    - rewrite ofQ_zero; [reflexivity|]. rewrite Hx. ring.
    - rewrite ofQ_zero; [reflexivity|]. rewrite Hy. ring.
    - unfold mul. cbn [xorb]. apply ofQ_comp. now rewrite Hx, Hy. }
  rewrite E. split; [reflexivity|]. now apply ofQ_plus.
Qed.

(** The floor. *)
Lemma Floor_plus x a :
  plus x a -> a <= 2 ^ 53 -> plus (math.Floor x) (inject_Z (Qfloor a)).
Proof.
  intros Hx Ha.
  destruct x as [[|]|s| |[|] m e]; cbn [plus] in Hx; try contradiction.
  - cbn [math.Floor plus]. rewrite (Qfloor_comp _ _ Hx). reflexivity.
  - cbn [math.Floor]. rewrite (Qfloor_comp _ _ Hx).
    assert (P : 0 < a) by (rewrite <- Hx; apply toQ_pos).
    assert (N : (0 <= Qfloor a)%Z).
    { rewrite <- (Qfloor_Z 0). apply Qfloor_resp_le. now apply Qlt_le_weak. }
    assert (B : (Qfloor a <= 2 ^ 53)%Z).
    { rewrite <- (Qfloor_Z (2 ^ 53)). apply Qfloor_resp_le. now rewrite pow2_Z by lia. }
    apply (ofZ_plus (Qfloor a)). lia.
Qed.

(** Rendering with [prec] decimals. *)
Lemma fixed_comp x y prec : x == y -> strconv.fixed x prec = strconv.fixed y prec.
Proof.
  intros E. unfold strconv.fixed.
  assert (C : Qabs x * inject_Z (10 ^ Z.of_nat prec) == Qabs y * inject_Z (10 ^ Z.of_nat prec))
    by now rewrite E.
  rewrite (roundHalfEven_comp _ _ C).
  destruct (Qlt_le_dec x 0) as [L|L], (Qlt_le_dec y 0) as [L'|L']; try reflexivity;
    exfalso; rewrite E in L; lra.
Qed.

Lemma FormatFloat_plus x a prec : plus x a -> strconv.FormatFloat x prec = strconv.fixed a prec.
Proof.
  intros Hx. destruct x as [[|]|s| |[|] m e]; cbn [plus] in Hx; try contradiction.
  - cbn [strconv.FormatFloat]. cbn [String.append]. apply fixed_comp. now symmetry.
  - cbn [strconv.FormatFloat]. now apply fixed_comp.
Qed.

End FloatOps.

(** ** Signs *)

Section FloatSigns.

Import float64.

Lemma toQ_neg m e : (toQ (S754_finite true m e) < 0)%Q.
Proof.
  pose proof (toQ_pos m e) as P. cbn [toQ] in *.
  assert (E : (- inject_Z (Z.pos m) * 2 ^ e == - (inject_Z (Z.pos m) * 2 ^ e))%Q) by ring.
  rewrite E. lra.
Qed.

Lemma compare_finite_zero s m e :
  compare (S754_finite s m e) zero = Some (toQ (S754_finite s m e) ?= 0)%Q.
Proof. reflexivity. Qed.

Lemma compare_zero_finite s m e :
  compare zero (S754_finite s m e) = Some (0 ?= toQ (S754_finite s m e))%Q.
Proof. reflexivity. Qed.

Lemma ltb_zero_finite s m e : ltb (S754_finite s m e) zero = s.
Proof.
  unfold ltb. rewrite compare_finite_zero. destruct s.
  - pose proof (toQ_neg m e) as H. now rewrite (proj1 (Qlt_alt _ _) H).
  - pose proof (toQ_pos m e) as H. now rewrite (proj1 (Qgt_alt _ _) H).
Qed.

Lemma eqb_zero_finite s m e : eqb (S754_finite s m e) zero = false.
Proof.
  unfold eqb. rewrite compare_finite_zero. destruct s.
  - pose proof (toQ_neg m e) as H. now rewrite (proj1 (Qlt_alt _ _) H).
  - pose proof (toQ_pos m e) as H. now rewrite (proj1 (Qgt_alt _ _) H).
Qed.

Lemma zero_ltb_finite s m e : ltb zero (S754_finite s m e) = negb s.
Proof.
  unfold ltb. rewrite compare_zero_finite. destruct s.
  - pose proof (toQ_neg m e) as H. now rewrite (proj1 (Qgt_alt _ _) H).
  - pose proof (toQ_pos m e) as H. now rewrite (proj1 (Qlt_alt _ _) H).
Qed.

(** A number equal to zero is one of the two zeros. *)
Lemma eqb_zero x : eqb x zero = true -> exists s, x = S754_zero s.
Proof.
  destruct x as [s|[|]| |s m e]; try discriminate.
  - intros _. now exists s.
  - now rewrite eqb_zero_finite.
Qed.

(** The negation of a number below zero is its absolute value, and is
    above zero. *)
Lemma opp_negative x :
  ltb x zero = true ->
  opp x = SFabs x
  /\ ltb zero (opp x) = true
  /\ eqb (opp x) zero = false
  /\ ltb (opp x) zero = false
  /\ (toQ (opp x) == Qabs (toQ x))%Q.
Proof.
  destruct x as [[|]|[|]| |s m e]; try discriminate.
  - intros _. repeat split; reflexivity.
  - rewrite ltb_zero_finite. intros ->. cbn [opp SFopp SFabs negb].
    rewrite zero_ltb_finite, eqb_zero_finite, ltb_zero_finite.
    repeat split; try reflexivity.
    pose proof (toQ_neg m e) as N.
    rewrite Qabs_neg by now apply Qlt_le_weak.
    cbn [toQ]. ring.
Qed.

(** What is neither zero nor below zero is above zero, or a NaN. *)
Lemma not_below_zero x :
  eqb x zero = false -> ltb x zero = false -> ltb zero x = true \/ x = S754_nan.
Proof.
  destruct x as [[|]|[|]| |s m e]; try discriminate; auto.
  rewrite ltb_zero_finite, zero_ltb_finite. intros _ ->. now left.
Qed.

(** The operations on finite numbers against the reference operations of
    [SpecFloat], on numbers that round, overflow and underflow. *)
Example float64_as_SpecFloat :
  let a := strconv.parsed "0.1" in
  let b := strconv.parsed "3" in
  let big := strconv.parsed "1.7e308" in
  let tiny := strconv.parsed "5e-324" in
  mul a b = SFmul 53 1024 a b
  /\ div a b = SFdiv 53 1024 a b
  /\ sub a b = SFsub 53 1024 a b
  /\ div (strconv.parsed "64000.1") a = SFdiv 53 1024 (strconv.parsed "64000.1") a
  /\ mul big b = SFmul 53 1024 big b
  /\ mul big b = S754_infinity false
  /\ div tiny b = SFdiv 53 1024 tiny b
  /\ mul tiny a = S754_zero false
  /\ mul (opp tiny) a = SFmul 53 1024 (opp tiny) a
  /\ sub big (opp big) = SFsub 53 1024 big (opp big)
  /\ strconv.parsed "0.1" = S754_finite false 7205759403792794 (-56)
  /\ strconv.parsed "0x1p-2" = strconv.parsed "0.25"
  /\ strconv.parsed "1_0" = ofZ 10
  /\ strconv.ParseFloat "1e400" = (S754_infinity false, Some strconv.ErrRange)
  /\ strconv.ParseFloat "1e-400" = (S754_zero false, None)
  /\ strconv.ParseFloat "NaN" = (S754_nan, None)
  /\ strconv.ParseFloat "-inf" = (S754_infinity true, None)
  /\ strconv.ParseFloat "+nan" = (zero, Some strconv.ErrSyntax)
  /\ strconv.ParseFloat "" = (zero, Some strconv.ErrSyntax).
Proof. vm_compute. repeat split. Qed.

End FloatSigns.

(** ** Transport *)

Section Transport.

Variable net : Network.

Lemma makeRequest_eq method endpoint body s :
  makeRequest net method endpoint body s
  = attemptLoop net (buildRequest (self s) (clock (world s)) method endpoint body)
      3 1 None s.
Proof. reflexivity. Qed.

(** One iteration of the loop, by the outcome of its round trip. *)
Lemma attemptLoop_step req fuel attempt lastErr s :
  attemptLoop net req (S fuel) attempt lastErr s =
  match answer net req s with
  | DoError text =>
      if (attempt <? maxRetries) && retryable text
      then attemptLoop net req fuel (attempt + 1) (Some ("HTTP请求失败: " ++ text))
             (afterSleep (attempt * time.Second) (afterTrip net req s))
      else (Err ("HTTP请求失败: " ++ text), afterTrip net req s)
  | ReadError _ text => (Err ("读取响应失败: " ++ text), afterTrip net req s)
  | Response status raw doc =>
      if negb (status =? 200) then
        match decodeEnvelope doc with
        | Some (code, msg, _) =>
            (Err ("OKX API错误 [" ++ code ++ "]: " ++ msg), afterTrip net req s)
        | None =>
            (Err ("HTTP错误 " ++ strconv.intDigits status ++ ": " ++ raw), afterTrip net req s)
        end
      else
        match decodeEnvelope doc with
        | None => (Err ("解析响应失败: " ++ jsonError), afterTrip net req s)
        | Some (code, msg, data) =>
            if negb (String.eqb code "0")
            then (Err ("OKX API错误 [" ++ code ++ "]: " ++ msg), afterTrip net req s)
            else (Ok data, afterTrip net req s)
        end
  end.
Proof.
  unfold answer, retryable.
  cbn [attemptLoop]. unfold bind at 1. unfold Do at 1. cbn beta iota.
  fold (afterTrip net req s).
  destruct (outcome (net (List.length (trips (world s))) req)) as [text|st text|st raw doc].
  - destruct ((attempt <? maxRetries) && _); [|reflexivity].
    unfold bind, Sleep, onWorld. reflexivity.
  - reflexivity.
  - destruct (negb (st =? 200)).
    + destruct (decodeEnvelope doc) as [[[c m] d]|]; reflexivity.
    + destruct (decodeEnvelope doc) as [[[c m] d]|]; [|reflexivity].
      destruct (negb (String.eqb c "0")); reflexivity.
Qed.

(** Closes the branches of an iteration that return at once. *)
Ltac returns_at_once :=
  repeat match goal with
    | |- context [negb ?b] => destruct (negb b)
    | |- context [decodeEnvelope ?d] => destruct (decodeEnvelope d) as [[[? ?] ?]|]
    end;
  cbn; congruence.

(** The statement after the loop is dead code: no run of [makeRequest]
    returns the retries-exhausted error. *)
Lemma makeRequest_never_reports_exhaustion method endpoint body s e :
  fst (makeRequest net method endpoint body s)
  <> Err ("请求失败（已重试3次）: " ++ e).
Proof.
  rewrite makeRequest_eq.
  set (req := buildRequest _ _ _ _ _).
  rewrite attemptLoop_step.
  destruct (answer net req s) as [text|st text|st raw doc]; [|returns_at_once..].
  destruct ((1 <? maxRetries) && retryable text); [|returns_at_once].
  rewrite attemptLoop_step.
  match goal with |- context [answer net req ?s1] =>
    destruct (answer net req s1) as [text2|st text2|st raw doc] end;
    [|returns_at_once..].
  destruct ((1 + 1 <? maxRetries) && retryable text2); [|returns_at_once].
  rewrite attemptLoop_step.
  change (1 + 1 + 1 <? maxRetries) with false.
  match goal with |- context [answer net req ?s2] =>
    destruct (answer net req s2) as [text3|st text3|st raw doc] end;
    returns_at_once.
Qed.

(** C3. When the transport fails three times in a row with a retryable
    error text, [makeRequest] sleeps one second, then two, sends the
    request three times and returns the third transport error wrapped as
    an HTTP failure; the error that announces the three retries is not
    what the caller gets. *)
Theorem makeRequest_three_transport_failures method endpoint body s t1 t2 t3 :
  let req := buildRequest (self s) (clock (world s)) method endpoint body in
  let s1 := afterSleep (1 * time.Second) (afterTrip net req s) in
  let s2 := afterSleep (2 * time.Second) (afterTrip net req s1) in
  answer net req s = DoError t1 -> retryable t1 = true ->
  answer net req s1 = DoError t2 -> retryable t2 = true ->
  answer net req s2 = DoError t3 ->
  makeRequest net method endpoint body s
    = (Err ("HTTP请求失败: " ++ t3), afterTrip net req s2)
  /\ sleeps (world (afterTrip net req s2))
     = (sleeps (world s) ++ [1 * time.Second; 2 * time.Second])%list
  /\ trips (world (afterTrip net req s2)) = (trips (world s) ++ [req; req; req])%list
  /\ forall e, Err (A := json.RawMessage) ("HTTP请求失败: " ++ t3)
               <> Err ("请求失败（已重试3次）: " ++ e).
Proof.
  intros req s1 s2 H1 R1 H2 R2 H3.
  rewrite makeRequest_eq. fold req.
  rewrite attemptLoop_step, H1, R1.
  change (1 <? maxRetries) with true. cbn [andb]. fold s1.
  rewrite attemptLoop_step, H2, R2.
  change (1 + 1) with 2. change (2 <? maxRetries) with true. cbn [andb]. fold s2.
  rewrite attemptLoop_step, H3.
  change (2 + 1 <? maxRetries) with false. cbn [andb].
  split; [reflexivity|]. split; [|split].
  - cbn. now rewrite <- app_assoc.
  - cbn. now rewrite <- !app_assoc.
  - intros e. cbn. congruence.
Qed.

(** C5. An HTTP 200 answer whose envelope code is not 0 ends the call at
    once: the error carries the code and the message, one request has
    been sent and nothing has been slept. *)
Theorem makeRequest_envelope_error_not_retried method endpoint body s raw doc code msg data :
  let req := buildRequest (self s) (clock (world s)) method endpoint body in
  answer net req s = Response 200 raw doc ->
  decodeEnvelope doc = Some (code, msg, data) ->
  code <> "0" ->
  makeRequest net method endpoint body s
    = (Err ("OKX API错误 [" ++ code ++ "]: " ++ msg), afterTrip net req s)
  /\ trips (world (afterTrip net req s)) = (trips (world s) ++ [req])%list
  /\ sleeps (world (afterTrip net req s)) = sleeps (world s).
Proof.
  intros req H D C.
  rewrite makeRequest_eq. fold req.
  rewrite attemptLoop_step, H, D. cbn [Z.eqb Pos.eqb negb].
  apply String.eqb_neq in C. rewrite C. cbn [negb].
  repeat split.
Qed.

End Transport.

(** ** Account state *)

Section AccountState.

Variable net : Network.

(** The transport never touches the trader, only adds to the history of
    the world, and sends at least one request. *)
Lemma attemptLoop_frame req fuel attempt lastErr s :
  let s' := snd (attemptLoop net req fuel attempt lastErr s) in
  self s' = self s
  /\ clock (world s) <= clock (world s')
  /\ warnings (world s') = warnings (world s)
  /\ exists more, trips (world s') = (trips (world s) ++ more)%list
                  /\ (fuel <> O -> more <> []).
Proof.
  revert attempt lastErr s.
  induction fuel as [|fuel IH]; intros attempt lastErr s.
  - cbn. split; [reflexivity|]. split; [lia|]. split; [reflexivity|].
    exists []. split; [now rewrite app_nil_r|congruence].
  - rewrite attemptLoop_step.
    assert (Base : let s' := afterTrip net req s in
              self s' = self s
              /\ clock (world s) <= clock (world s')
              /\ warnings (world s') = warnings (world s)
              /\ exists more, trips (world s') = (trips (world s) ++ more)%list
                              /\ (S fuel <> O -> more <> [])).
    { cbn. split; [reflexivity|]. split; [lia|]. split; [reflexivity|].
      exists [req]. split; [reflexivity|discriminate]. }
    destruct (answer net req s) as [text|st text|st raw doc].
    + destruct ((attempt <? maxRetries) && retryable text); [|exact Base].
      specialize (IH (attempt + 1) (Some ("HTTP请求失败: " ++ text))
                    (afterSleep (attempt * time.Second) (afterTrip net req s))).
      cbn zeta in IH. destruct IH as (Hs & Hc & Hw & more & Ht & _).
      cbn zeta. rewrite Hs, Hw, Ht. cbn in Hc |- *.
      split; [reflexivity|]. split; [lia|]. split; [reflexivity|].
      exists (req :: more).
      split; [now rewrite <- app_assoc | discriminate].
    + exact Base.
    + destruct (negb (st =? 200)).
      * destruct (decodeEnvelope doc) as [[[c m] d]|]; exact Base.
      * destruct (decodeEnvelope doc) as [[[c m] d]|]; [|exact Base].
        destruct (negb (String.eqb c "0")); exact Base.
Qed.

Lemma makeRequest_frame method endpoint body s :
  let s' := snd (makeRequest net method endpoint body s) in
  self s' = self s
  /\ clock (world s) <= clock (world s')
  /\ warnings (world s') = warnings (world s)
  /\ exists more, trips (world s') = (trips (world s) ++ more)%list /\ more <> [].
Proof.
  rewrite makeRequest_eq.
  destruct (attemptLoop_frame (buildRequest (self s) (clock (world s)) method endpoint body)
              3 1 None s) as (Hs & Hc & Hw & more & Ht & Hn).
  cbn zeta. split; [assumption|]. split; [assumption|]. split; [assumption|].
  exists more. split; [assumption|].
  apply Hn. discriminate.
Qed.

Lemma GetBalance_hit s cached :
  cachedBalance (self s) = Some cached -> balanceFresh s = true ->
  GetBalance net s = (Ok cached, s).
Proof.
  unfold balanceFresh, GetBalance, bind, getSelf, Now. cbn beta iota.
  intros -> ->. reflexivity.
Qed.

Lemma GetBalance_miss s :
  balanceFresh s = false -> GetBalance net s = fetchBalance net s.
Proof.
  unfold balanceFresh, GetBalance, bind, getSelf, Now. cbn beta iota.
  destruct (cachedBalance (self s)); [intros ->|]; reflexivity.
Qed.

Lemma GetPositions_hit s cached :
  cachedPositions (self s) = Some cached -> positionsFresh s = true ->
  GetPositions net s = (Ok (Some cached), s).
Proof.
  unfold positionsFresh, GetPositions, bind, getSelf, Now. cbn beta iota.
  intros -> ->. reflexivity.
Qed.

Lemma GetPositions_miss s :
  positionsFresh s = false -> GetPositions net s = fetchPositions net s.
Proof.
  unfold positionsFresh, GetPositions, bind, getSelf, Now. cbn beta iota.
  destruct (cachedPositions (self s)); [intros ->|]; reflexivity.
Qed.

Lemma makeRequest_terminal method endpoint body s :
  terminalFailure
    (answer net (buildRequest (self s) (clock (world s)) method endpoint body) s) ->
  exists e, fst (makeRequest net method endpoint body s) = Err e.
Proof.
  rewrite makeRequest_eq, attemptLoop_step.
  destruct (answer net _ s) as [text|st text|st raw doc]; cbn [terminalFailure].
  - intros ->. rewrite andb_false_r. eauto.
  - eauto.
  - intros [H|[H|(c & m & d & H & Hc)]].
    + apply Z.eqb_neq in H. rewrite H. cbn [negb].
      destruct (decodeEnvelope doc) as [[[c m] d]|]; eauto.
    + rewrite H. destruct (negb (st =? 200)); eauto.
    + rewrite H. apply String.eqb_neq in Hc. rewrite Hc.
      destruct (negb (st =? 200)); cbn [negb]; eauto.
Qed.

(** The miss path of [GetBalance], by the result of its request. *)
Lemma fetchBalance_eq s :
  fetchBalance net s =
  match balanceRequest net s with
  | (Err e, s1) => (Err ("获取账户余额失败: " ++ e), s1)
  | (Ok data, s1) =>
      match unmarshalSlice {| Details := []; TotalEq := "" |} decodeAccount data with
      | None => (Err ("解析余额数据失败: " ++ jsonError), s1)
      | Some [] => (Err "未找到账户余额信息", s1)
      | Some (acct :: _) =>
          match Details acct with
          | [] => (Err "未找到账户余额信息", s1)
          | detail :: _ =>
              (Ok (balanceResult acct detail),
               {| self := withBalance (self s1) (Some (balanceResult acct detail))
                            (clock (world s1));
                  world := world s1 |})
          end
      end
  end.
Proof.
  unfold fetchBalance, balanceRequest, bind at 1, wrap.
  destruct (makeRequest net _ _ _ s) as [[data|e] s1]; [|reflexivity].
  destruct (unmarshalSlice _ _ data) as [[|acct rest]|]; try reflexivity.
  destruct (Details acct); reflexivity.
Qed.

(** The miss path of [GetPositions], by the result of its request. *)
Lemma fetchPositions_eq s :
  fetchPositions net s =
  match positionsRequest net s with
  | (Err e, s1) => (Err ("获取持仓失败: " ++ e), s1)
  | (Ok data, s1) =>
      match unmarshalSlice zeroPosition decodePosition data with
      | None => (Err ("解析持仓数据失败: " ++ jsonError), s1)
      | Some positions =>
          (Ok (normalizePositions positions None),
           {| self := withPositions (self s1) (normalizePositions positions None)
                        (clock (world s1));
              world := world s1 |})
      end
  end.
Proof.
  unfold fetchPositions, positionsRequest, bind at 1, wrap.
  destruct (makeRequest net _ _ _ s) as [[data|e] s1]; [|reflexivity].
  destruct (unmarshalSlice _ _ data) as [positions|]; reflexivity.
Qed.

(** C10. A miss whose fetch fails is an error for the caller; a call
    that returns an error leaves the trader, hence both caches and their
    timestamps, as they were; and a cached payload that is within its
    lifetime at a later call is what that call returns, without a
    request.  A transport error that is not retried, an unreadable
    body, a status other than 200, a body that is not an envelope and an
    envelope code other than 0 are errors of the request. *)
Theorem failed_fetch_keeps_cache s :
  (forall method endpoint body,
      terminalFailure
        (answer net (buildRequest (self s) (clock (world s)) method endpoint body) s) ->
      exists e, fst (makeRequest net method endpoint body s) = Err e)
  /\ (balanceFresh s = false -> balanceFetchFails (fst (balanceRequest net s)) ->
      exists e, fst (GetBalance net s) = Err e)
  /\ (positionsFresh s = false -> positionsFetchFails (fst (positionsRequest net s)) ->
      exists e, fst (GetPositions net s) = Err e)
  /\ (forall e, fst (GetBalance net s) = Err e ->
      self (snd (GetBalance net s)) = self s)
  /\ (forall e, fst (GetPositions net s) = Err e ->
      self (snd (GetPositions net s)) = self s)
  /\ (forall later cached,
      cachedBalance (self later) = Some cached -> balanceFresh later = true ->
      GetBalance net later = (Ok cached, later))
  /\ (forall later cached,
      cachedPositions (self later) = Some cached -> positionsFresh later = true ->
      GetPositions net later = (Ok (Some cached), later)).
Proof.
  split; [intros; now apply makeRequest_terminal|].
  split; [|split; [|split; [|split; [|split]]]].
  - intros Hm Hf. rewrite (GetBalance_miss _ Hm), fetchBalance_eq.
    unfold balanceFetchFails in Hf.
    destruct (balanceRequest net s) as [[data|e] s1]; cbn [fst] in *; [|eauto].
    destruct (unmarshalSlice _ _ data) as [[|acct rest]|]; cbn [fst]; eauto.
    rewrite Hf. cbn [fst]. eauto.
  - intros Hm Hf. rewrite (GetPositions_miss _ Hm), fetchPositions_eq.
    unfold positionsFetchFails in Hf.
    destruct (positionsRequest net s) as [[data|e] s1]; cbn [fst] in *; [|eauto].
    rewrite Hf. cbn [fst]. eauto.
  - intros e. destruct (balanceFresh s) eqn:Hf.
    + unfold balanceFresh in Hf.
      destruct (cachedBalance (self s)) as [c|] eqn:Hc; [|discriminate].
      rewrite (GetBalance_hit s c Hc); [discriminate|].
      unfold balanceFresh. now rewrite Hc.
    + rewrite (GetBalance_miss _ Hf), fetchBalance_eq.
      pose proof (makeRequest_frame "GET" "/api/v5/account/balance?ccy=USDT" None s) as F.
      cbn zeta in F. destruct F as (Hs & _). fold (balanceRequest net s) in Hs.
      destruct (balanceRequest net s) as [[data|e'] s1]; cbn [fst snd] in *; [|now intros _].
      destruct (unmarshalSlice _ _ data) as [[|acct rest]|]; cbn [fst snd]; try now intros _.
      destruct (Details acct); cbn [fst snd]; [now intros _|discriminate].
  - intros e. destruct (positionsFresh s) eqn:Hf.
    + unfold positionsFresh in Hf.
      destruct (cachedPositions (self s)) as [c|] eqn:Hc; [|discriminate].
      rewrite (GetPositions_hit s c Hc); [discriminate|].
      unfold positionsFresh. now rewrite Hc.
    + rewrite (GetPositions_miss _ Hf), fetchPositions_eq.
      pose proof (makeRequest_frame "GET" "/api/v5/account/positions" None s) as F.
      cbn zeta in F. destruct F as (Hs & _). fold (positionsRequest net s) in Hs.
      destruct (positionsRequest net s) as [[data|e'] s1]; cbn [fst snd] in *; [|now intros _].
      destruct (unmarshalSlice _ _ data) as [positions|]; cbn [fst snd];
        [discriminate|now intros _].
  - intros later cached. apply GetBalance_hit.
  - intros later cached. apply GetPositions_hit.
Qed.

(** The loop of [GetPositions] appends, in order, what each record
    contributes; the result stays nil when nothing is appended. *)
Lemma normalizePositions_acc positions acc :
  normalizePositions positions (Some acc) = Some (acc ++ omap normalized positions)%list.
Proof.
  revert acc. induction positions as [|pos rest IH]; intros acc; cbn.
  - now rewrite app_nil_r.
  - unfold normalized.
    destruct (float64.eqb (strconv.parsed (pPos pos)) float64.zero); [apply IH|].
    destruct (float64.ltb (strconv.parsed (pPos pos)) float64.zero);
      cbn; rewrite IH, <- app_assoc; reflexivity.
Qed.

Lemma normalizePositions_nil positions :
  normalizePositions positions None =
  match omap normalized positions with
  | [] => None
  | l => Some l
  end.
Proof.
  induction positions as [|pos rest IH]; cbn; [reflexivity|].
  unfold normalized.
  destruct (float64.eqb (strconv.parsed (pPos pos)) float64.zero); [apply IH|].
  destruct (float64.ltb (strconv.parsed (pPos pos)) float64.zero);
    cbn; rewrite normalizePositions_acc; reflexivity.
Qed.

Lemma elements_normalizePositions positions :
  elements (normalizePositions positions None) = omap normalized positions.
Proof.
  rewrite normalizePositions_nil. now destruct (omap normalized positions).
Qed.

(** C7. On a miss whose fetch succeeds, [GetPositions] returns, in
    order, what each raw record contributes: nothing for a record whose
    [pos] parses to a number equal to zero; for a record whose [pos]
    parses to a number below zero, an entry with side [short] and the
    absolute value of that number as amount, which is above zero.  No
    entry returned has an amount equal to zero or below zero. *)
Theorem positions_normalized s data positions :
  positionsFresh s = false ->
  fst (positionsRequest net s) = Ok data ->
  unmarshalSlice zeroPosition decodePosition data = Some positions ->
  exists out,
    fst (GetPositions net s) = Ok out
    /\ elements out = omap normalized positions
    /\ (forall pos, In pos positions ->
          let raw := strconv.parsed (pPos pos) in
          (float64.eqb raw float64.zero = true -> normalized pos = None)
          /\ (float64.ltb raw float64.zero = true ->
              exists entry,
                normalized pos = Some entry
                /\ In entry (elements out)
                /\ entry !! "side" = Some (Text "short")
                /\ entry !! "positionAmt" = Some (Float (SFabs raw))
                /\ (float64.toQ (SFabs raw) == Qabs (float64.toQ raw))%Q
                /\ float64.ltb float64.zero (SFabs raw) = true))
    /\ (forall entry, In entry (elements out) ->
          exists amount,
            entry !! "positionAmt" = Some (Float amount)
            /\ float64.eqb amount float64.zero = false
            /\ float64.ltb amount float64.zero = false).
Proof.
  intros Hm Hr Hd.
  rewrite (GetPositions_miss _ Hm), fetchPositions_eq.
  destruct (positionsRequest net s) as [[data'|e] s1]; cbn [fst] in Hr; [|discriminate].
  injection Hr as ->. rewrite Hd. cbn [fst].
  exists (normalizePositions positions None).
  split; [reflexivity|]. split; [apply elements_normalizePositions|].
  rewrite elements_normalizePositions. split.
  - intros pos Hin. set (raw := strconv.parsed (pPos pos)). split.
    + intros H0. unfold normalized. fold raw. now rewrite H0.
    + intros Hneg.
      destruct (opp_negative raw Hneg) as (Ea & Pos & Nz & Nn & Ev).
      assert (E : float64.eqb raw float64.zero = false).
      { destruct (float64.eqb raw float64.zero) eqn:E; [|reflexivity].
        destruct (eqb_zero raw E) as [z Ez]. rewrite Ez in Hneg. now destruct z. }
      assert (En : normalized pos = Some (positionEntry pos "short" (float64.opp raw))).
      { unfold normalized. fold raw. now rewrite E, Hneg. }
      exists (positionEntry pos "short" (float64.opp raw)).
      split; [exact En|]. rewrite <- Ea.
      split; [|split; [reflexivity|split; [reflexivity|split; assumption]]].
      apply list_elem_of_In, list_elem_of_omap. exists pos.
      split; [now apply list_elem_of_In|exact En].
  - intros entry Hin.
    apply list_elem_of_In, list_elem_of_omap in Hin as (pos & _ & Hn).
    unfold normalized in Hn.
    set (raw := strconv.parsed (pPos pos)) in *.
    destruct (float64.eqb raw float64.zero) eqn:E; [discriminate|].
    destruct (float64.ltb raw float64.zero) eqn:L; injection Hn as <-.
    + destruct (opp_negative raw L) as (_ & _ & Nz & Nn & _).
      exists (float64.opp raw). split; [reflexivity|]. split; assumption.
    + exists raw. split; [reflexivity|]. split; assumption.
Qed.

(** X12. Where the cache works: after a miss whose fetch succeeds,
    [GetBalance] called again less than the cache lifetime after the
    stored instant returns the stored map and sends nothing. *)
Lemma balance_served_from_cache s result s1 d :
  GetBalance net s = (Ok result, s1) ->
  balanceFresh s = false ->
  0 <= d < cacheDuration (self s1) ->
  GetBalance net (snd (elapse d s1)) = (Ok result, snd (elapse d s1)).
Proof.
  intros H Hm Hd. rewrite (GetBalance_miss _ Hm), fetchBalance_eq in H.
  destruct (balanceRequest net s) as [[data|e] s0]; [|discriminate].
  destruct (unmarshalSlice _ _ data) as [[|acct rest]|]; try discriminate.
  destruct (Details acct) as [|detail ?]; [discriminate|].
  injection H as <- <-.
  apply GetBalance_hit; [reflexivity|].
  unfold balanceFresh. cbn in Hd |- *. apply Z.ltb_lt. lia.
Qed.

(** X13. The same for [GetPositions], provided the normalized list is not
    empty. *)
Lemma positions_served_from_cache s entries s1 d :
  GetPositions net s = (Ok (Some entries), s1) ->
  positionsFresh s = false ->
  0 <= d < cacheDuration (self s1) ->
  GetPositions net (snd (elapse d s1)) = (Ok (Some entries), snd (elapse d s1)).
Proof.
  intros H Hm Hd. rewrite (GetPositions_miss _ Hm), fetchPositions_eq in H.
  destruct (positionsRequest net s) as [[data|e] s0]; [|discriminate].
  destruct (unmarshalSlice _ _ data) as [positions|]; [|discriminate].
  injection H as H <-. rewrite H.
  apply GetPositions_hit; [reflexivity|].
  unfold positionsFresh. cbn in Hd |- *. apply Z.ltb_lt. lia.
Qed.

Lemma fetchPositions_sends s :
  (List.length (trips (world s)) < List.length (trips (world (snd (fetchPositions net s)))))%nat.
Proof.
  rewrite fetchPositions_eq.
  pose proof (makeRequest_frame "GET" "/api/v5/account/positions" None s) as F.
  cbn zeta in F. destruct F as (_ & _ & _ & more & Ht & Hn).
  fold (positionsRequest net s) in Ht.
  assert (L : (List.length (trips (world s))
               < List.length (trips (world (snd (positionsRequest net s)))))%nat).
  { rewrite Ht, List.length_app. destruct more; [congruence|cbn; lia]. }
  destruct (positionsRequest net s) as [[data|e] s1]; cbn [snd] in *; [|exact L].
  destruct (unmarshalSlice _ _ data); exact L.
Qed.

(** C2, evaluated where the code departs from it.  When the exchange
    answers the positions request with an empty list, or with records
    that all have a zero position, [GetPositions] returns the nil slice
    and stores the nil slice: the cache check of the next call fails
    whatever the time elapsed, and the two calls send at least two
    requests. *)
Theorem empty_positions_fetched_again s data positions d :
  positionsFresh s = false ->
  fst (positionsRequest net s) = Ok data ->
  unmarshalSlice zeroPosition decodePosition data = Some positions ->
  Forall (fun pos => float64.eqb (strconv.parsed (pPos pos)) float64.zero = true) positions ->
  let s1 := snd (GetPositions net s) in
  let s2 := snd (elapse d s1) in
  fst (GetPositions net s) = Ok None
  /\ cachedPositions (self s1) = None
  /\ positionsFresh s2 = false
  /\ GetPositions net s2 = fetchPositions net s2
  /\ (List.length (trips (world s)) + 2
      <= List.length (trips (world (snd (GetPositions net s2)))))%nat.
Proof.
  intros Hm Hr Hd Hz s1 s2.
  assert (Hn : normalizePositions positions None = None).
  { rewrite normalizePositions_nil.
    replace (omap normalized positions) with (@nil (gmap string Any)); [reflexivity|].
    symmetry. clear - Hz. induction Hz as [|pos rest H0 _ IH]; [reflexivity|].
    cbn [omap list_omap]. unfold normalized at 1.
    rewrite H0. exact IH. }
  assert (Hs1 : fst (GetPositions net s) = Ok None
                /\ cachedPositions (self s1) = None
                /\ (List.length (trips (world s)) < List.length (trips (world s1)))%nat).
  { subst s1. pose proof (fetchPositions_sends s) as L.
    rewrite (GetPositions_miss _ Hm). rewrite fetchPositions_eq in L |- *.
    destruct (positionsRequest net s) as [[data'|e] s0]; cbn [fst] in Hr; [|discriminate].
    injection Hr as ->. rewrite Hd in L |- *. rewrite Hn in *. cbn in L |- *. auto. }
  destruct Hs1 as (Hres & Hc & Hl).
  assert (Hf : positionsFresh s2 = false).
  { unfold positionsFresh. subst s2. cbn. now rewrite Hc. }
  split; [exact Hres|]. split; [exact Hc|]. split; [exact Hf|].
  split; [now apply GetPositions_miss|].
  rewrite (GetPositions_miss _ Hf).
  pose proof (fetchPositions_sends s2) as L2.
  assert (Ht : trips (world s2) = trips (world s1)) by reflexivity.
  rewrite Ht in L2. lia.
Qed.

End AccountState.


(** ** Order cancellation, properties *)

Section Cancellation.

Variable net : Network.

Lemma try_result {A} (m : M A) s : try m s = (Ok (fst (m s)), snd (m s)).
Proof. unfold try. now destruct (m s). Qed.

(** The fallback loop swallows every failure. *)
Lemma cancelOrderLoop_ok okxSymbol orders s :
  fst (cancelOrderLoop net okxSymbol orders s) = Ok tt.
Proof.
  revert s. induction orders as [|ordId rest IH]; intros s; [reflexivity|].
  cbn [cancelOrderLoop]. unfold bind at 1. rewrite try_result.
  destruct (fst (makeRequest net _ _ _ s)) as [d|e]; unfold bind at 1; cbn; apply IH.
Qed.

Lemma cancelAlgoLoop_ok okxSymbol trigger what orders s :
  fst (cancelAlgoLoop net okxSymbol trigger what orders s) = Ok tt.
Proof.
  revert s. induction orders as [|order rest IH]; intros s; [reflexivity|].
  cbn [cancelAlgoLoop].
  destruct (negb (String.eqb (trigger order) "") && negb (String.eqb (trigger order) "0")).
  - unfold bind at 1. unfold bind at 1. rewrite try_result.
    destruct (fst (makeRequest net _ _ _ s)) as [d|e]; cbn; apply IH.
  - unfold bind at 1. cbn. apply IH.
Qed.

Lemma warningsGrow_refl s : warningsGrow s s.
Proof. exists []. now rewrite app_nil_r. Qed.

Lemma warningsGrow_trans s1 s2 s3 :
  warningsGrow s1 s2 -> warningsGrow s2 s3 -> warningsGrow s1 s3.
Proof.
  intros [a Ha] [b Hb]. exists (a ++ b)%list. now rewrite Hb, Ha, <- app_assoc.
Qed.

Lemma makeRequest_warnings method endpoint body s :
  warningsGrow s (snd (makeRequest net method endpoint body s)).
Proof.
  destruct (makeRequest_frame net method endpoint body s) as (_ & _ & Hw & _).
  exists []. cbn zeta in Hw. now rewrite Hw, app_nil_r.
Qed.

Lemma warn_warnings msg s : warningsGrow s (snd (warn msg s)).
Proof. exists [msg]. reflexivity. Qed.

Lemma cancelAlgoLoop_warnings okxSymbol trigger what orders s :
  warningsGrow s (snd (cancelAlgoLoop net okxSymbol trigger what orders s)).
Proof.
  revert s. induction orders as [|order rest IH]; intros s; [apply warningsGrow_refl|].
  cbn [cancelAlgoLoop].
  destruct (negb (String.eqb (trigger order) "") && negb (String.eqb (trigger order) "0")).
  - unfold bind at 1. unfold bind at 1. rewrite try_result.
    pose proof (makeRequest_warnings "POST" "/api/v5/trade/cancel-algo"
                  (Some [("instId", okxSymbol); ("algoId", AlgoId order);
                         ("ordType", "conditional")]) s) as W.
    destruct (fst (makeRequest net _ _ _ s)) as [d|e]; cbn.
    + eapply warningsGrow_trans; [exact W|apply IH].
    + eapply warningsGrow_trans; [exact W|].
      eapply warningsGrow_trans; [apply warn_warnings|apply IH].
  - unfold bind at 1. cbn. apply IH.
Qed.

Lemma cancelAlgoOrders_warnings symbol trigger what s :
  warningsGrow s (snd (cancelAlgoOrders net symbol trigger what s)).
Proof.
  unfold cancelAlgoOrders, bind, wrap.
  match goal with |- context [makeRequest net ?m ?e ?b s] =>
    pose proof (makeRequest_warnings m e b s) as W;
    destruct (makeRequest net m e b s) as [[data|e1] s1] end; cbn [snd] in *; [|exact W].
  destruct (unmarshalSlice zeroAlgo decodeAlgo data) as [orders|]; [|exact W].
  eapply warningsGrow_trans; [exact W|apply cancelAlgoLoop_warnings].
Qed.

(** [CancelStopOrders] never fails: it runs both cancellations and logs
    their failures. *)
Lemma CancelStopOrders_eq symbol s :
  CancelStopOrders net symbol s
  = (Ok tt, afterTakeProfit net symbol (afterStopLoss net symbol s)).
Proof.
  unfold CancelStopOrders, afterTakeProfit, afterStopLoss, bind, try.
  destruct (CancelStopLossOrders net symbol s) as [[[]|e1] s1]; cbn [fst snd ret warn].
  - destruct (CancelTakeProfitOrders net symbol s1) as [[[]|e2] s2]; reflexivity.
  - cbv [warn onWorld]. cbn [snd].
    match goal with |- context [CancelTakeProfitOrders net symbol ?x] =>
      destruct (CancelTakeProfitOrders net symbol x) as [[[]|e2] s2] end; reflexivity.
Qed.

Lemma afterStopLoss_logs symbol s :
  warningsGrow s (afterStopLoss net symbol s)
  /\ forall err, fst (CancelStopLossOrders net symbol s) = Err err ->
       In ("  ⚠️ 取消止损单失败: " ++ err) (warnings (world (afterStopLoss net symbol s))).
Proof.
  unfold afterStopLoss.
  pose proof (cancelAlgoOrders_warnings symbol SlTriggerPx "止损单" s) as W.
  fold (CancelStopLossOrders net symbol s) in W.
  destruct (CancelStopLossOrders net symbol s) as [[[]|e1] s1]; cbn [fst snd] in *.
  - split; [exact W|intros; discriminate].
  - split; [eapply warningsGrow_trans; [exact W|apply warn_warnings]|].
    intros err [= <-]. cbn. apply in_or_app. right. now left.
Qed.

Lemma afterTakeProfit_logs symbol s :
  warningsGrow s (afterTakeProfit net symbol s)
  /\ forall err, fst (CancelTakeProfitOrders net symbol s) = Err err ->
       In ("  ⚠️ 取消止盈单失败: " ++ err) (warnings (world (afterTakeProfit net symbol s))).
Proof.
  unfold afterTakeProfit.
  pose proof (cancelAlgoOrders_warnings symbol TpTriggerPx "止盈单" s) as W.
  fold (CancelTakeProfitOrders net symbol s) in W.
  destruct (CancelTakeProfitOrders net symbol s) as [[[]|e1] s1]; cbn [fst snd] in *.
  - split; [exact W|intros; discriminate].
  - split; [eapply warningsGrow_trans; [exact W|apply warn_warnings]|].
    intros err [= <-]. cbn. apply in_or_app. right. now left.
Qed.

(** [CancelAllOrders], by the results of its first requests. *)
Lemma CancelAllOrders_eq symbol s :
  CancelAllOrders net symbol s =
  match batchCancel net symbol s with
  | (Ok _, s1) => CancelStopOrders net symbol s1
  | (Err _, s1) =>
      match listPending net symbol s1 with
      | (Err e, s2) => (Err ("获取订单列表失败: " ++ e), s2)
      | (Ok data, s2) =>
          match decodePending data with
          | None => (Err ("解析订单列表失败: " ++ jsonError), s2)
          | Some orders =>
              CancelStopOrders net symbol
                (snd (cancelOrderLoop net (convertSymbol symbol) orders s2))
          end
      end
  end.
Proof.
  unfold CancelAllOrders, batchCancel, listPending, decodePending.
  unfold bind at 1. unfold bind at 1. rewrite try_result.
  destruct (makeRequest net "POST" _ _ s) as [[d0|e0] s1]; cbn [fst snd].
  - reflexivity.
  - unfold bind at 1, wrap.
    destruct (makeRequest net "GET" _ _ s1) as [[data|e1] s2]; [|reflexivity].
    destruct (unmarshalSlice _ _ data) as [orders|]; [|reflexivity].
    pose proof (cancelOrderLoop_ok (convertSymbol symbol) orders s2) as L.
    destruct (cancelOrderLoop net (convertSymbol symbol) orders s2) as [[[]|e] s3];
      cbn [fst snd] in *; [reflexivity|discriminate].
Qed.

Lemma cancelOrderLoop_cons okxSymbol ordId rest s :
  snd (cancelOrderLoop net okxSymbol (ordId :: rest) s)
  = snd (cancelOrderLoop net okxSymbol rest
           match cancelOne net okxSymbol ordId s with
           | (Ok _, s1) => s1
           | (Err err, s1) =>
               snd (warn ("  ⚠️ 取消订单失败 (ordId: " ++ ordId ++ "): " ++ err) s1)
           end).
Proof.
  cbn [cancelOrderLoop]. unfold cancelOne, bind, try.
  destruct (makeRequest net _ _ _ s) as [[d|e] s1]; reflexivity.
Qed.

Lemma cancelOrderLoop_warnings okxSymbol orders s :
  warningsGrow s (snd (cancelOrderLoop net okxSymbol orders s)).
Proof.
  revert s. induction orders as [|ordId rest IH]; intros s; [apply warningsGrow_refl|].
  rewrite cancelOrderLoop_cons. unfold cancelOne.
  pose proof (makeRequest_warnings "POST" "/api/v5/trade/cancel-order"
                (Some [("instId", okxSymbol); ("ordId", ordId)]) s) as W.
  destruct (makeRequest net _ _ _ s) as [[d|e] s1]; cbn [snd] in W.
  - eapply warningsGrow_trans; [exact W|apply IH].
  - eapply warningsGrow_trans; [exact W|].
    eapply warningsGrow_trans; [apply warn_warnings|apply IH].
Qed.

Lemma cancelOrderLoop_app okxSymbol pre post s :
  snd (cancelOrderLoop net okxSymbol (pre ++ post) s)
  = snd (cancelOrderLoop net okxSymbol post (snd (cancelOrderLoop net okxSymbol pre s))).
Proof.
  revert s. induction pre as [|ordId pre IH]; intros s; [reflexivity|].
  rewrite <- app_comm_cons, !cancelOrderLoop_cons. apply IH.
Qed.

(** A cancel that fails inside the fallback loop is logged. *)
Lemma cancelOrderLoop_logs okxSymbol pre ordId post s err :
  fst (cancelOne net okxSymbol ordId (snd (cancelOrderLoop net okxSymbol pre s))) = Err err ->
  In ("  ⚠️ 取消订单失败 (ordId: " ++ ordId ++ "): " ++ err)
     (warnings (world (snd (cancelOrderLoop net okxSymbol (pre ++ ordId :: post) s)))).
Proof.
  intros H. rewrite cancelOrderLoop_app, cancelOrderLoop_cons.
  destruct (cancelOne net okxSymbol ordId _) as [[d|e] s1]; cbn [fst] in H; [discriminate|].
  injection H as ->.
  destruct (cancelOrderLoop_warnings okxSymbol post
              (snd (warn ("  ⚠️ 取消订单失败 (ordId: " ++ ordId ++ "): " ++ err) s1)))
    as [more ->].
  apply in_or_app. left. cbn. apply in_or_app. right. now left.
Qed.

(** C4, as the code has it.  [CancelAllOrders] succeeds when the batch
    cancel succeeds, and when, after a failed batch cancel, the pending
    orders are listed and decoded; then both conditional-order
    cancellations have run, and their failures and those of the single
    cancels are warnings in the log.  When the batch cancel fails and the
    listing fails, it returns the error of the listing under
    [获取订单列表失败], and when the listing succeeds with data that does
    not decode, the error [解析订单列表失败]; in both cases the state
    returned is the one the listing left, so nothing has run after it,
    the conditional-order cancellations included.  These are the only
    errors. *)
Theorem CancelAllOrders_outcomes symbol s :
  let okx := convertSymbol symbol in
  let r := CancelAllOrders net symbol s in
  (forall d s1, batchCancel net symbol s = (Ok d, s1) ->
     r = (Ok tt, afterTakeProfit net symbol (afterStopLoss net symbol s1)))
  /\ (forall e0 s1 data s2 orders,
        batchCancel net symbol s = (Err e0, s1) ->
        listPending net symbol s1 = (Ok data, s2) ->
        decodePending data = Some orders ->
        let s3 := snd (cancelOrderLoop net okx orders s2) in
        r = (Ok tt, afterTakeProfit net symbol (afterStopLoss net symbol s3))
        /\ forall pre ordId post err,
             orders = (pre ++ ordId :: post)%list ->
             fst (cancelOne net okx ordId (snd (cancelOrderLoop net okx pre s2))) = Err err ->
             In ("  ⚠️ 取消订单失败 (ordId: " ++ ordId ++ "): " ++ err) (warnings (world (snd r))))
  /\ (forall mid,
        r = (Ok tt, afterTakeProfit net symbol (afterStopLoss net symbol mid)) ->
        (forall err, fst (CancelStopLossOrders net symbol mid) = Err err ->
           In ("  ⚠️ 取消止损单失败: " ++ err) (warnings (world (snd r))))
        /\ (forall err,
              fst (CancelTakeProfitOrders net symbol (afterStopLoss net symbol mid)) = Err err ->
              In ("  ⚠️ 取消止盈单失败: " ++ err) (warnings (world (snd r)))))
  /\ (forall e0 s1 e1 s2,
        batchCancel net symbol s = (Err e0, s1) ->
        listPending net symbol s1 = (Err e1, s2) ->
        r = (Err ("获取订单列表失败: " ++ e1), s2))
  /\ (forall e0 s1 data s2,
        batchCancel net symbol s = (Err e0, s1) ->
        listPending net symbol s1 = (Ok data, s2) ->
        decodePending data = None ->
        r = (Err ("解析订单列表失败: " ++ jsonError), s2))
  /\ (forall e, fst r = Err e ->
        exists e0 s1,
          batchCancel net symbol s = (Err e0, s1)
          /\ snd r = snd (listPending net symbol s1)
          /\ ((exists e1, fst (listPending net symbol s1) = Err e1
                          /\ e = "获取订单列表失败: " ++ e1)
              \/ (exists data, fst (listPending net symbol s1) = Ok data
                               /\ decodePending data = None
                               /\ e = "解析订单列表失败: " ++ jsonError))).
Proof.
  intros okx r. subst r. rewrite CancelAllOrders_eq.
  split; [|split; [|split; [|split; [|split]]]].
  - intros d s1 ->. apply CancelStopOrders_eq.
  - intros e0 s1 data s2 orders -> -> -> s3. rewrite CancelStopOrders_eq.
    split; [reflexivity|]. cbn [snd].
    intros pre ordId post err E H.
    pose proof (cancelOrderLoop_logs okx pre ordId post s2 err H) as L.
    rewrite <- E in L. fold s3 in L. fold okx. fold s3.
    destruct (afterStopLoss_logs symbol s3) as [[m1 E1] _].
    destruct (afterTakeProfit_logs symbol (afterStopLoss net symbol s3)) as [[m2 E2] _].
    rewrite E2, E1. apply in_or_app. left. apply in_or_app. now left.
  - intros mid ->. cbn [snd]. split.
    + intros err H.
      destruct (afterStopLoss_logs symbol mid) as [_ L]. specialize (L err H).
      destruct (afterTakeProfit_logs symbol (afterStopLoss net symbol mid)) as [[m2 E2] _].
      rewrite E2. apply in_or_app. now left.
    + intros err H.
      destruct (afterTakeProfit_logs symbol (afterStopLoss net symbol mid)) as [_ L].
      now apply L.
  - intros e0 s1 e1 s2 -> ->. reflexivity.
  - intros e0 s1 data s2 -> -> ->. reflexivity.
  - intros e.
    destruct (batchCancel net symbol s) as [[d0|e0] s1].
    + rewrite CancelStopOrders_eq. discriminate.
    + destruct (listPending net symbol s1) as [[data|e1] s2] eqn:LP; cbn [fst snd].
      * destruct (decodePending data) as [orders|] eqn:D.
        -- rewrite CancelStopOrders_eq. discriminate.
        -- intros [= <-]. exists e0, s1. rewrite LP.
           split; [reflexivity|]. split; [reflexivity|].
           right. exists data. auto.
      * intros [= <-]. exists e0, s1. rewrite LP.
        split; [reflexivity|]. split; [reflexivity|].
        left. exists e1. auto.
Qed.

End Cancellation.

(** C4 as stated does not hold: on a network where every request is
    refused, the batch cancel fails, the listing fails, and
    [CancelAllOrders] returns the error of the listing. *)
Lemma CancelAllOrders_can_fail :
  fst (CancelAllOrders (broken "connection refused") "BTCUSDT" (start 0))
  = Err "获取订单列表失败: HTTP请求失败: connection refused"
  /\ ~ (forall net symbol s, fst (CancelAllOrders net symbol s) = Ok tt).
Proof.
  assert (H : fst (CancelAllOrders (broken "connection refused") "BTCUSDT" (start 0))
              = Err "获取订单列表失败: HTTP请求失败: connection refused")
    by (vm_compute; reflexivity).
  split; [exact H|].
  intros C. rewrite C in H. discriminate.
Qed.

(** ** Precision engine *)

Section Precision.

Import strconv float64.

Variable net : Network.

Lemma FormatQuantity_eq symbol quantity s :
  leb quantity zero = false ->
  FormatQuantity net symbol quantity s =
  match getInstrumentInfo net symbol s with
  | (Ok info, s') => (Ok (FormatFloat (quantizeQuantity info quantity) 0), s')
  | (Err err, s') =>
      (Ok (if strings.Contains symbol "BTC" || strings.Contains symbol "ETH"
           then FormatFloat (div (math.Round (mul quantity (ofZ 100))) (ofZ 100)) 2
           else FormatFloat (div (math.Round (mul quantity (ofZ 1000))) (ofZ 1000)) 3),
       snd (warn ("⚠️  获取合约规格失败，使用默认精度: " ++ err) s'))
  end.
Proof.
  intros N. unfold FormatQuantity. rewrite N.
  unfold bind at 1. rewrite try_result.
  destruct (getInstrumentInfo net symbol s) as [[info|err] s']; cbn [fst snd]; [reflexivity|].
  unfold bind, warn, onWorld. cbn [snd].
  destruct (strings.Contains symbol "BTC" || strings.Contains symbol "ETH"); reflexivity.
Qed.

(** The quantity kept after the clamp to the minimum and the floor to the
    lot, for whole-number sizes and a quantity up to [2 ^ 52]: a whole
    number [q'] at least the minimum, equal to it for a quantity below
    it, and a multiple of the lot when the minimum is. *)
Lemma quantizeQuantity_whole info quantity m l :
  parsed (MinSz info) = ofZ m -> 1 <= m <= 2 ^ 52 ->
  parsed (LotSz info) = ofZ l -> 1 <= l <= 2 ^ 52 ->
  isFinite quantity = true ->
  (0 < toQ quantity)%Q -> (toQ quantity <= inject_Z (2 ^ 52))%Q ->
  exists q' : Z,
    plus (quantizeQuantity info quantity) (inject_Z q')
    /\ m <= q'
    /\ ((toQ quantity < inject_Z m)%Q -> q' = m)
    /\ ((l | m) -> (l | q')).
Proof.
  intros Em Hm El Hl Fq Pq Bq. unfold quantizeQuantity. rewrite Em, El.
  pose proof (ofZ_plus m ltac:(lia)) as Pm.
  pose proof (ofZ_plus l ltac:(lia)) as Pl.
  assert (P0 : plus zero 0) by reflexivity.
  pose proof (plus_finite quantity Fq Pq) as Pa.
  set (a := toQ quantity) in *.
  assert (Qm : (1 <= inject_Z m)%Q) by (change 1%Q with (inject_Z 1); rewrite <- Zle_Qle; lia).
  assert (Qm' : (inject_Z m <= inject_Z (2 ^ 52))%Q) by (rewrite <- Zle_Qle; lia).
  assert (Ql : (1 <= inject_Z l)%Q) by (change 1%Q with (inject_Z 1); rewrite <- Zle_Qle; lia).
  assert (Ql' : (inject_Z l <= inject_Z (2 ^ 52))%Q) by (rewrite <- Zle_Qle; lia).
  rewrite (proj2 (leb_plus_false (ofZ m) zero _ _ Pm P0)) by lra.
  rewrite (proj2 (ltb_plus zero (ofZ l) _ _ P0 Pl)) by lra.
  (* the clamp to the minimum *)
  set (q1 := if ltb quantity (ofZ m) then ofZ m else quantity).
  set (a1 := if Qlt_le_dec a (inject_Z m) then inject_Z m else a).
  assert (P1 : plus q1 a1).
  { subst q1 a1. destruct (Qlt_le_dec a (inject_Z m)) as [L|L].
    - now rewrite (proj2 (ltb_plus quantity (ofZ m) _ _ Pa Pm) L).
    - now rewrite (proj2 (ltb_plus_false quantity (ofZ m) _ _ Pa Pm) L). }
  assert (B1 : (inject_Z m <= a1 /\ a1 <= inject_Z (2 ^ 52))%Q).
  { subst a1. destruct (Qlt_le_dec a (inject_Z m)); split; lra. }
  clearbody q1.
  (* the quotient *)
  set (L := inject_Z l) in *. set (M := inject_Z m) in *.
  assert (IL : (L * / L == 1)%Q) by (field; lra).
  assert (PiL : (0 < / L)%Q) by (apply Qinv_lt_0_compat; lra).
  assert (LiL : (/ L <= 1)%Q).
  { assert (H : (/ L * 1 <= / L * L)%Q) by (apply Qmult_le_l; lra).
    rewrite (Qmult_comm (/ L) L), IL in H. lra. }
  assert (X0 : (a1 / L <= a1)%Q).
  { unfold Qdiv. assert (H : (a1 * / L <= a1 * 1)%Q) by (apply Qmult_le_l; lra). lra. }
  assert (T53 : (inject_Z (2 ^ 52) < 2 ^ 1023)%Q).
  { rewrite pow2_Z by lia. apply pow2_lt. lia. }
  assert (Xb : (a1 / L < 2 ^ 1023)%Q) by lra.
  destruct (div_plus q1 (ofZ l) a1 L P1 Pl ltac:(lra) Xb) as [Ed Pd].
  set (x := div q1 (ofZ l)) in *. set (c := toQ x) in *.
  assert (Xp : (0 < a1 / L)%Q) by (apply Qlt_shift_div_l; lra).
  assert (Xn : (2 ^ (-1022) <= a1 / L)%Q).
  { assert (H : (2 ^ (-52) <= a1 / L)%Q).
    { apply Qle_shift_div_l; [lra|].
      assert (H' : (2 ^ (-52) * L <= 2 ^ (-52) * inject_Z (2 ^ 52))%Q)
        by (apply Qmult_le_l; [apply pow2_pos|lra]).
      assert (H'' : (2 ^ (-52) * inject_Z (2 ^ 52) == 1)%Q) by reflexivity.
      lra. }
    pose proof (pow2_le (-1022) (-52) ltac:(lia)). lra. }
  assert (Ec : (c == toQ (round false (a1 / L)))%Q).
  { subst c. rewrite Ed, (ofQ_pos _ _ Xp). reflexivity. }
  destruct (round_normal (a1 / L) Xn Xb) as [Lo Up]. rewrite <- Ec in Lo, Up.
  assert (U : (2 ^ (-53) == 1 # 9007199254740992)%Q) by reflexivity.
  rewrite U in Lo, Up.
  assert (T52 : (inject_Z (2 ^ 52) == 4503599627370496)%Q) by reflexivity.
  assert (P253 : (2 ^ 53 == 9007199254740992)%Q) by reflexivity.
  (* the floor *)
  assert (Cb : (c <= 2 ^ 53)%Q) by lra.
  pose proof (Floor_plus x c Pd Cb) as Pf.
  set (K := Qfloor c) in *.
  assert (K0 : 0 <= K).
  { subst K. rewrite <- (Qfloor_Z 0). apply Qfloor_resp_le.
    apply (plus_nonneg _ _ Pd). }
  assert (Kc : (inject_Z K <= c)%Q) by apply Qfloor_le.
  (* the product *)
  assert (KLq : (inject_Z K * L <= a1 + a1 * (1 # 9007199254740992))%Q).
  { assert (H : (inject_Z K * L <= c * L)%Q) by (apply Qmult_le_compat_r; lra).
    assert (H1 : (c * L <= (a1 / L + a1 / L * (1 # 9007199254740992)) * L)%Q)
      by (apply Qmult_le_compat_r; lra).
    assert (H2 : ((a1 / L + a1 / L * (1 # 9007199254740992)) * L
                  == a1 + a1 * (1 # 9007199254740992))%Q) by (field; lra).
    lra. }
  assert (KL : K * l <= 2 ^ 53).
  { assert (H : (inject_Z (K * l) < inject_Z (2 ^ 53 + 1))%Q).
    { rewrite inject_Z_mult. fold L. rewrite inject_Z_plus.
      change (inject_Z (2 ^ 53)) with 9007199254740992%Q. change (inject_Z 1) with 1%Q. lra. }
    rewrite <- Zlt_Qlt in H. lia. }
  assert (Pr : plus (mul (math.Floor x) (ofZ l)) (inject_Z (K * l))).
  { destruct (mul_plus _ _ _ _ Pf Pl) as [Em' _].
    { fold L. lra. }
    rewrite Em', (ofQ_comp _ _ (inject_Z (K * l))) by (now rewrite inject_Z_mult).
    apply (ofZ_plus (K * l)). lia. }
  set (r := mul (math.Floor x) (ofZ l)) in *. clearbody r.
  (* the clamp after the floor *)
  set (q' := if Z_lt_dec (K * l) m then m else K * l).
  assert (P2 : plus (if ltb r (ofZ m) then ofZ m else r) (inject_Z q')).
  { subst q'. destruct (Z_lt_dec (K * l) m) as [Lt|Ge].
    - rewrite (proj2 (ltb_plus r (ofZ m) _ _ Pr Pm)); [exact Pm|].
      fold M. unfold M. now rewrite <- Zlt_Qlt.
    - rewrite (proj2 (ltb_plus_false r (ofZ m) _ _ Pr Pm)); [exact Pr|].
      fold M. unfold M. rewrite <- Zle_Qle. lia. }
  assert (Bq' : m <= q' <= 2 ^ 53) by (subst q'; destruct (Z_lt_dec (K * l) m); lia).
  exists q'. split.
  - assert (F := Floor_plus _ _ P2). rewrite Qfloor_Z in F. apply F.
    rewrite <- pow2_Z by lia. rewrite <- Zle_Qle. lia.
  - split; [lia|]. split.
    + intros Lt. subst a1. destruct (Qlt_le_dec a M) as [_|C]; [|lra].
      subst q'. destruct (Z_lt_dec (K * l) m) as [|Ge]; [reflexivity|].
      assert (H : (inject_Z (K * l) < inject_Z (m + 1))%Q).
      { rewrite inject_Z_mult, inject_Z_plus. fold L M. change (inject_Z 1) with 1%Q.
        assert (M53 : (M * (1 # 9007199254740992) < 1)%Q) by lra.
        lra. }
      rewrite <- Zlt_Qlt in H. lia.
    + intros D. subst q'. destruct (Z_lt_dec (K * l) m); [exact D|].
      apply Z.divide_factor_r.
Qed.


(** C1, for contract counts.  When the instrument is fetched, its
    minimum and lot sizes are whole numbers [m] and [l] between 1 and
    [2 ^ 52], and the quantity is a finite number above 0 and at most
    [2 ^ 52], [FormatQuantity] returns the decimal digits of a whole
    number [q'] with [q' >= m]; [q' = m] when the quantity is below [m];
    and [q'] is a multiple of [l] when [m] is. *)
Theorem FormatQuantity_whole_contracts symbol s s' info quantity m l :
  getInstrumentInfo net symbol s = (Ok info, s') ->
  parsed (MinSz info) = ofZ m -> 1 <= m <= 2 ^ 52 ->
  parsed (LotSz info) = ofZ l -> 1 <= l <= 2 ^ 52 ->
  isFinite quantity = true ->
  (0 < toQ quantity)%Q -> (toQ quantity <= inject_Z (2 ^ 52))%Q ->
  exists (q' : Z) (v : Q),
    FormatQuantity net symbol quantity s = (Ok (intDigits q'), s')
    /\ decimal (intDigits q') = Some v
    /\ (v == inject_Z q')%Q
    /\ m <= q'
    /\ ((toQ quantity < inject_Z m)%Q -> q' = m)
    /\ ((l | m) -> (l | q')).
Proof.
  intros Hg Em Hm El Hl Fq Pq Bq.
  destruct (quantizeQuantity_whole info quantity m l Em Hm El Hl Fq Pq Bq)
    as (q' & Pq' & Hge & Hlt & Hdiv).
  exists q', (inject_Z (digitsVal (intDigits q')) / inject_Z 1)%Q.
  assert (N : leb quantity zero = false).
  { apply (leb_plus_false quantity zero (toQ quantity) 0);
      [now apply plus_finite|reflexivity|exact Pq]. }
  rewrite (FormatQuantity_eq _ _ _ N), Hg, (FormatFloat_plus _ _ 0 Pq').
  rewrite (fixed_exact (inject_Z q') 0 q').
  - change (10 ^ Z.of_nat 0) with 1. rewrite Z.div_1_r, app_nil_r_s.
    split; [reflexivity|].
    split; [apply decimal_digits; [apply intDigits_allDigits|apply intDigits_nonempty; lia]|].
    split; [|auto].
    rewrite digitsVal_intDigits by lia. field.
  - change 0%Q with (inject_Z 0). rewrite <- Zle_Qle. lia.
  - change (10 ^ Z.of_nat 0) with 1. ring.
Qed.

(** Rendering a non-negative value: the digits of its rounding in units
    of [10 ^ -prec]. *)
Lemma fixed_nonneg x prec :
  (0 <= x)%Q ->
  fixed x prec
  = let n := roundHalfEven (x * inject_Z (10 ^ Z.of_nat prec)) in
    intDigits (n / 10 ^ Z.of_nat prec)
    ++ match prec with
       | O => ""
       | S _ => "." ++ fixedDigits prec (n mod 10 ^ Z.of_nat prec)
       end.
Proof.
  intros Hx. unfold fixed. cbv zeta.
  assert (C : (Qabs x * inject_Z (10 ^ Z.of_nat prec)
               == x * inject_Z (10 ^ Z.of_nat prec))%Q) by now rewrite (Qabs_pos x Hx).
  rewrite (roundHalfEven_comp _ _ C).
  destruct (Qlt_le_dec x 0) as [L|_]; [|reflexivity].
  exfalso. apply (Qlt_irrefl x). eapply Qlt_le_trans; eassumption.
Qed.

Lemma decimal_neg_point ip fp :
  allDigits ip = true -> allDigits fp = true -> ip <> "" ->
  decimal (String "-" (ip ++ String "." fp))
  = Some (- (inject_Z (digitsVal (ip ++ fp))
             / inject_Z (10 ^ Z.of_nat (String.length fp))))%Q.
Proof.
  intros Hi Hf Hne. unfold decimal. cbn [signOf]. change (Ascii.eqb "-" "-") with true.
  cbv iota.
  assert (Hall : every (fun c => negb (isExpMark c)) (ip ++ String "." fp) = true).
  { rewrite every_app. cbn [every]. rewrite (digits_no_exp _ Hi), (digits_no_exp _ Hf).
    reflexivity. }
  rewrite (cut_absent _ _ Hall), (cut_first isDot ip "." fp (digits_no_dot _ Hi) eq_refl).
  rewrite Hi, Hf. destruct ip; [congruence|]. reflexivity.
Qed.

Lemma decimal_neg_digits ip :
  allDigits ip = true -> ip <> "" ->
  decimal (String "-" ip) = Some (- (inject_Z (digitsVal ip) / inject_Z 1))%Q.
Proof.
  intros Hi Hne. unfold decimal. cbn [signOf]. change (Ascii.eqb "-" "-") with true.
  cbv iota.
  rewrite (cut_absent _ _ (digits_no_exp _ Hi)),
    (cut_absent _ _ (digits_no_dot _ Hi)), Hi, app_nil_r_s.
  destruct ip; [congruence|]. reflexivity.
Qed.

(** The value left by the two trims behind a minus sign. *)
Lemma trimmed_value_neg ip fp :
  allDigits ip = true -> allDigits fp = true -> ip <> "" ->
  exists v,
    decimal (strings.TrimRight
               (strings.TrimRight (String "-" (ip ++ String "." fp)) "0") ".") = Some v
    /\ (v == - (inject_Z (digitsVal (ip ++ fp))
                / inject_Z (10 ^ Z.of_nat (String.length fp))))%Q.
Proof.
  intros Hi Hf Hne.
  destruct (trimmed_shape ip fp Hi Hf Hne) as (fp' & k & Hk & Hf' & T).
  assert (V : digitsVal (ip ++ fp) = digitsVal (ip ++ fp') * 10 ^ Z.of_nat k).
  { unfold digitsVal. rewrite Hk.
    rewrite <- app_assoc_s, digitsFrom_app, digitsFrom_zeros. reflexivity. }
  assert (Len : String.length fp = (String.length fp' + k)%nat).
  { rewrite Hk. now rewrite string_length_app, zeros_length. }
  rewrite (TrimRight_keep "-" _ "0" eq_refl), (TrimRight_keep "-" _ "." eq_refl), T.
  destruct fp' as [|c r] eqn:Efp.
  - rewrite (decimal_neg_digits ip Hi Hne). eexists. split; [reflexivity|].
    rewrite V, Len, app_nil_r_s. cbn [String.length Nat.add].
    apply Qopp_comp. apply Qdiv_Z_eq; [lia|apply pow10_pos|ring].
  - rewrite (decimal_neg_point ip (String c r) Hi Hf' Hne).
    eexists. split; [reflexivity|].
    rewrite V, Len. apply Qopp_comp. apply Qdiv_Z_eq; [apply pow10_pos..|].
    rewrite Nat2Z.inj_add, Z.pow_add_r by lia. ring.
Qed.

(** What the two trims leave of a rendering with a positive number of
    decimals: a string that reads as the number rendered. *)
Lemma trimmed_fixed (neg : bool) N P :
  0 <= N -> (1 <= P)%nat ->
  exists v,
    decimal (strings.TrimRight
               (strings.TrimRight
                  ((if neg then "-" else "")
                   ++ (intDigits (N / 10 ^ Z.of_nat P)
                       ++ "." ++ fixedDigits P (N mod 10 ^ Z.of_nat P))) "0") ".") = Some v
    /\ (v == (if neg then - 1 else 1) * (inject_Z N / inject_Z (10 ^ Z.of_nat P)))%Q.
Proof.
  intros HN HP.
  set (ip := intDigits (N / 10 ^ Z.of_nat P)).
  set (fp := fixedDigits P (N mod 10 ^ Z.of_nat P)).
  pose proof (pow10_pos P) as Hpow.
  assert (Hi : allDigits ip = true) by apply intDigits_allDigits.
  assert (Hne : ip <> "") by (apply intDigits_nonempty, Z.div_pos; lia).
  assert (Hf : allDigits fp = true) by apply fixedDigits_allDigits.
  assert (D : (inject_Z (digitsVal (ip ++ fp)) / inject_Z (10 ^ Z.of_nat (String.length fp))
               == inject_Z N / inject_Z (10 ^ Z.of_nat P))%Q).
  { subst ip fp. unfold digitsVal.
    rewrite fixedDigits_length.
    rewrite digitsFrom_intDigits by (apply Z.div_pos; lia).
    rewrite <- (app_nil_r_s (fixedDigits _ _)), digitsFrom_fixedDigits.
    cbn [digitsFrom]. rewrite Z.mod_mod by lia.
    replace (N / 10 ^ Z.of_nat P * 10 ^ Z.of_nat P + N mod 10 ^ Z.of_nat P)
      with N by (pose proof (Z.div_mod N (10 ^ Z.of_nat P) ltac:(lia)); lia).
    reflexivity. }
  change ("." ++ fp) with (String "." fp).
  destruct neg.
  - change ("-" ++ (ip ++ String "." fp)) with (String "-" (ip ++ String "." fp)).
    destruct (trimmed_value_neg ip fp Hi Hf Hne) as (v & -> & Ev).
    exists v. split; [reflexivity|]. rewrite Ev, D. ring.
  - change ("" ++ (ip ++ String "." fp)) with (ip ++ String "." fp).
    destruct (trimmed_value ip fp Hi Hf Hne) as (v & -> & Ev).
    exists v. split; [reflexivity|]. rewrite Ev, D. ring.
Qed.

(** The arithmetic of [formatPrice] with a tick: [d] is the tick as the
    exchange writes it and [t] the number the trader computes with,
    [q] the quotient as computed, [k] its floor, [r] the product as
    computed and [T] the unit of the rendering.  The product is within
    half a unit of [k * d], and [k * d] is within a tick below the price
    up to a relative error of [2 ^ -51]. *)
Local Open Scope Q_scope.

Lemma Qmult_le_left x y z : x <= y -> 0 <= z -> z * x <= z * y.
Proof. intros H Z0. rewrite !(Qmult_comm z). now apply Qmult_le_compat_r. Qed.

Lemma tick_arith (d t p q r k T : Q) :
  let u := 1 # 9007199254740992 in
  0 < d -> d - d * u <= t -> t <= d + d * u ->
  0 <= p -> 0 < T -> p * T <= 1125899906842624 -> 1 <= d * T ->
  p / t - p / t * u <= q -> q <= p / t + p / t * u ->
  0 <= k -> k <= q -> q < k + 1 ->
  k * t - k * t * u <= r -> r <= k * t + k * t * u ->
  (k * d * T - (1 # 2) < r * T /\ r * T < k * d * T + (1 # 2))
  /\ p - d - p * (4 # 9007199254740992) < k * d
  /\ k * d <= p + p * (4 # 9007199254740992).
Proof.
  intros u Hd Lt Ut Hp HT HpT HdT Lq Uq Hk Kq qK Lr Ur.
  assert (Pt : 0 < t) by (unfold u in *; lra).
  assert (Hq : 0 <= q) by lra.
  assert (XA : (p / t + p / t * u) * t == p + p * u) by (field; lra).
  assert (XB : (p / t - p / t * u) * t == p - p * u) by (field; lra).
  assert (A : q * t <= p + p * u)
    by (rewrite <- XA; apply Qmult_le_compat_r; lra).
  assert (B : p - p * u <= q * t)
    by (rewrite <- XB; apply Qmult_le_compat_r; lra).
  assert (C : k * t <= q * t) by (apply Qmult_le_compat_r; lra).
  assert (D1 : k * (d - d * u) <= k * t) by (apply Qmult_le_left; lra).
  assert (D2 : k * t <= k * (d + d * u)) by (apply Qmult_le_left; lra).
  assert (E : q * t <= q * (d + d * u)) by (apply Qmult_le_left; lra).
  assert (F : q * d < (k + 1) * d) by (apply Qmult_lt_compat_r; lra).
  assert (D1' : k * d - k * d * u <= k * t) by lra.
  assert (D2' : k * t <= k * d + k * d * u) by lra.
  assert (E' : q * t <= q * d + q * d * u) by lra.
  assert (F' : q * d < k * d + d) by lra.
  clear D1 D2 E F Lq Uq.
  set (V := k * t) in *. set (W := k * d) in *.
  set (S1 := q * t) in *. set (S2 := q * d) in *.
  clearbody V W S1 S2. unfold u in *.
  assert (UW : W <= p + p * (4 # 9007199254740992)) by lra.
  split; [|split; [lra|exact UW]].
  assert (G1 : (r - W) * T <= (p * (3 # 9007199254740992)) * T)
    by (apply Qmult_le_compat_r; lra).
  assert (G2 : (W - r) * T <= (p * (3 # 9007199254740992)) * T)
    by (apply Qmult_le_compat_r; lra).
  set (pT := p * T) in *. set (rT := r * T) in *. 
  assert (WT : W * T == W * T) by reflexivity.
  set (WT' := W * T) in *.
  assert (G1' : rT - WT' <= pT * (3 # 9007199254740992)) by (unfold rT, WT', pT; lra).
  assert (G2' : WT' - rT <= pT * (3 # 9007199254740992)) by (unfold rT, WT', pT; lra).
  clearbody pT rT WT'. lra.
Qed.

Local Close Scope Q_scope.

(** The tick the trader computes with, for a tick that the exchange
    writes with at most ten decimals: a positive number within
    [2 ^ -53] of it. *)
Lemma tick_number k :
  1 <= k < 2 ^ 52 ->
  let d := (inject_Z k / inject_Z (10 ^ 10))%Q in
  let t := ofQ false d in
  (0 < d)%Q /\ plus t (toQ t)
  /\ (d - d * (1 # 9007199254740992) <= toQ t)%Q
  /\ (toQ t <= d + d * (1 # 9007199254740992))%Q
  /\ (0 < toQ t)%Q.
Proof.
  intros Hk d t.
  assert (Qk : (1 <= inject_Z k)%Q) by (change 1%Q with (inject_Z 1); rewrite <- Zle_Qle; lia).
  assert (Qk' : (inject_Z k <= inject_Z (2 ^ 52))%Q) by (rewrite <- Zle_Qle; lia).
  assert (T10 : (inject_Z (10 ^ 10) == 10000000000)%Q) by reflexivity.
  assert (T52 : (inject_Z (2 ^ 52) == 4503599627370496)%Q) by reflexivity.
  assert (Dk : (d * 10000000000 == inject_Z k)%Q).
  { subst d. rewrite T10. field. }
  assert (Hd : (0 < d)%Q) by lra.
  assert (Lo : (2 ^ (-1022) <= d)%Q).
  { pose proof (pow2_le (-1022) (-34) ltac:(lia)) as H.
    assert (H' : (2 ^ (-34) == 1 # 17179869184)%Q) by reflexivity. lra. }
  assert (Hi : (d < 2 ^ 1023)%Q).
  { pose proof (pow2_le 52 1023 ltac:(lia)) as H.
    rewrite <- (pow2_Z 52) in H by lia. lra. }
  assert (Et : t = round false d) by (subst t; now apply ofQ_pos).
  destruct (round_normal d Lo Hi) as [L U]. rewrite <- Et in L, U.
  assert (U53 : (2 ^ (-53) == 1 # 9007199254740992)%Q) by reflexivity.
  rewrite U53 in L, U.
  split; [exact Hd|]. split; [rewrite Et; now apply round_plus|].
  split; [exact L|]. split; [exact U|]. lra.
Qed.

(** The precision [getPrecision] computes for such a tick: the tick is a
    whole number of units of [10 ^ -P]. *)
Lemma tick_precision info k :
  let d := (inject_Z k / inject_Z (10 ^ 10))%Q in
  parsed (TickSz info) = ofQ false d -> 1 <= k < 2 ^ 52 ->
  TickSize (precisionOf info) = ofQ false d
  /\ (1 <= PricePrecision (precisionOf info))%nat
  /\ exists U, 1 <= U
       /\ (d * inject_Z (10 ^ Z.of_nat (PricePrecision (precisionOf info))) == inject_Z U)%Q.
Proof.
  intros d Et Hk.
  destruct (tick_number k Hk) as (Hd & Pt & Lt & Ut & Tpos). fold d in Pt, Lt, Ut, Tpos.
  unfold precisionOf. cbn [TickSize PricePrecision]. rewrite Et.
  split; [reflexivity|].
  rewrite (proj2 (ltb_plus zero (ofQ false d) 0 _ eq_refl Pt)) by exact Tpos.
  unfold trimmedLength. rewrite (FormatFloat_plus _ _ 10 Pt).
  set (t := toQ (ofQ false d)) in *.
  assert (T10 : (inject_Z (10 ^ Z.of_nat 10) == 10000000000)%Q) by reflexivity.
  assert (Dk : (d * inject_Z (10 ^ Z.of_nat 10) == inject_Z k)%Q).
  { subst d. change (10 ^ Z.of_nat 10) with (10 ^ 10). field. discriminate. }
  assert (Qk : (1 <= inject_Z k)%Q) by (change 1%Q with (inject_Z 1); rewrite <- Zle_Qle; lia).
  assert (Qk' : (inject_Z k < 4503599627370496)%Q).
  { change 4503599627370496%Q with (inject_Z (2 ^ 52)). rewrite <- Zlt_Qlt. lia. }
  assert (R : roundHalfEven (t * inject_Z (10 ^ Z.of_nat 10)) = k).
  { apply roundHalfEven_nearest; rewrite T10 in *; lra. }
  assert (Fx : fixed t 10 = fixed d 10).
  { rewrite (fixed_nonneg t 10) by lra. rewrite (fixed_nonneg d 10) by lra.
    cbv zeta. rewrite R, (roundHalfEven_exact _ k Dk). reflexivity. }
  rewrite Fx.
  destruct (trimmedLength_units d k Hd) as (HP & U & EU); [reflexivity|].
  cbv zeta in HP, EU.
  set (P := String.length (strings.TrimRight (strings.TrimRight (fixed d 10) "0") ".")) in *.
  split; [exact HP|]. exists U. split; [|exact EU].
  assert (Pos : (0 < inject_Z U)%Q).
  { rewrite <- EU. apply Qmult_lt_0_compat; [exact Hd|].
    change 0%Q with (inject_Z 0). rewrite <- Zlt_Qlt. apply pow10_pos. }
  change 0%Q with (inject_Z 0) in Pos. rewrite <- Zlt_Qlt in Pos. lia.
Qed.

Lemma nonneg_cases x :
  isFinite x = true -> (0 <= toQ x)%Q -> x = S754_zero true \/ plus x (toQ x).
Proof.
  destruct x as [[|]|s| |[|] m e]; cbn [isFinite]; try discriminate; intros _ H.
  - now left.
  - right. reflexivity.
  - exfalso. cbn [toQ] in H.
    assert (P : (0 < inject_Z (Z.pos m) * 2 ^ e)%Q).
    { apply Qmult_lt_0_compat; [|apply pow2_pos].
      change 0%Q with (inject_Z 0). now rewrite <- Zlt_Qlt. }
    lra.
  - right. reflexivity.
Qed.

(** The steps of [formatPrice] with a tick on a non-negative price, in
    numbers: the quotient [q] as computed, and the product [r] of its
    floor and the tick as computed. *)
Lemma tick_steps t tv price p :
  plus t tv -> plus price p ->
  (1 # 20000000000 <= tv)%Q -> (p <= 1125899906842624)%Q ->
  (p / tv <= 2251799813685248)%Q ->
  exists q r,
    plus (mul (math.Floor (div price t)) t) r
    /\ (0 <= q)%Q
    /\ ((2 ^ (-1022) <= p / tv)%Q ->
        (p / tv - p / tv * (1 # 9007199254740992) <= q)%Q
        /\ (q <= p / tv + p / tv * (1 # 9007199254740992))%Q)
    /\ ((p / tv < 2 ^ (-1022))%Q -> (q < 1)%Q)
    /\ (inject_Z (Qfloor q) * tv - inject_Z (Qfloor q) * tv * (1 # 9007199254740992) <= r)%Q
    /\ (r <= inject_Z (Qfloor q) * tv + inject_Z (Qfloor q) * tv * (1 # 9007199254740992))%Q.
Proof.
  intros Pt Pp Lt Bp Bx.
  pose proof (plus_nonneg _ _ Pp) as Hp.
  assert (Tpos : (0 < tv)%Q) by lra.
  assert (U53 : (2 ^ (-53) == 1 # 9007199254740992)%Q) by reflexivity.
  assert (Big : (2 ^ 100 < 2 ^ 1023)%Q) by (apply pow2_lt; lia).
  assert (B100 : (2 ^ 100 == 1267650600228229401496703205376)%Q) by reflexivity.
  assert (One : (2 ^ (-1022) < 2 ^ (-40))%Q) by (apply pow2_lt; lia).
  assert (Small : (2 ^ (-40) == 1 # 1099511627776)%Q) by reflexivity.
  assert (P53 : (2 ^ 53 == 9007199254740992)%Q) by reflexivity.
  (* the quotient *)
  assert (X0 : (0 <= p / tv)%Q) by (apply Qle_shift_div_l; [exact Tpos|lra]).
  assert (Xt : (p / tv * tv == p)%Q) by (field; lra).
  destruct (div_plus price t p tv Pp Pt Tpos ltac:(lra)) as [Ed Pd].
  set (x := div price t) in *. set (q := toQ x) in *.
  assert (Nq : ((2 ^ (-1022) <= p / tv)%Q ->
                (p / tv - p / tv * (1 # 9007199254740992) <= q)%Q
                /\ (q <= p / tv + p / tv * (1 # 9007199254740992))%Q)).
  { intros N. pose proof (pow2_pos (-1022)).
    assert (Xp : (0 < p / tv)%Q) by lra.
    destruct (round_normal (p / tv) N ltac:(lra)) as [L U].
    rewrite U53 in L, U. subst q. rewrite Ed, (ofQ_pos _ _ Xp). split; assumption. }
  assert (Tq : ((p / tv < 2 ^ (-1022))%Q -> (q < 1)%Q)).
  { intros S.
    destruct (Qle_lt_or_eq _ _ X0) as [Xp|Xz].
    - destruct (round_tiny (p / tv) Xp S) as [_ U].
      subst q. rewrite Ed, (ofQ_pos _ _ Xp). lra.
    - subst q. rewrite Ed, ofQ_zero by now symmetry. cbn [toQ]. lra. }
  pose proof (plus_nonneg _ _ Pd) as Hq.
  assert (Qx : (q <= p / tv + p / tv * (1 # 9007199254740992) \/ q < 1)%Q).
  { destruct (Qlt_le_dec (p / tv) (2 ^ (-1022))) as [S|N];
      [right; now apply Tq|left; now apply Nq]. }
  assert (Qb : (q <= 2 ^ 53)%Q) by (destruct Qx; lra).
  (* the floor *)
  pose proof (Floor_plus x q Pd Qb) as Pf.
  set (n := Qfloor q) in *.
  assert (N0 : 0 <= n).
  { subst n. rewrite <- (Qfloor_Z 0). now apply Qfloor_resp_le. }
  assert (Nq' : (inject_Z n <= q)%Q) by apply Qfloor_le.
  assert (N0' : (0 <= inject_Z n)%Q) by (change 0%Q with (inject_Z 0); now rewrite <- Zle_Qle).
  (* the product *)
  assert (NT : (inject_Z n * tv <= 2 ^ 100)%Q).
  { assert (H : (inject_Z n * tv <= q * tv)%Q) by (apply Qmult_le_compat_r; lra).
    destruct Qx as [Q1|Q1].
    - assert (H1 : (q * tv <= (p / tv + p / tv * (1 # 9007199254740992)) * tv)%Q)
        by (apply Qmult_le_compat_r; lra).
      assert (H2 : ((p / tv + p / tv * (1 # 9007199254740992)) * tv
                    == p + p * (1 # 9007199254740992))%Q) by (field; lra).
      lra.
    - destruct (Z.eq_dec n 0) as [Z0|Nz].
      + rewrite Z0. change (inject_Z 0) with 0%Q. lra.
      + exfalso. assert (H1 : (inject_Z 1 <= inject_Z n)%Q) by (rewrite <- Zle_Qle; lia).
        change (inject_Z 1) with 1%Q in H1. lra. }
  destruct (mul_plus _ _ _ _ Pf Pt ltac:(lra)) as [Em Pm].
  set (r := toQ (mul (math.Floor x) t)) in *.
  exists q, r. split; [exact Pm|]. split; [exact Hq|]. split; [exact Nq|].
  split; [exact Tq|]. fold n.
  destruct (Z.eq_dec n 0) as [Z0|Nz].
  - assert (R0 : (r == 0)%Q).
    { subst r. rewrite Em, ofQ_zero; [reflexivity|]. rewrite Z0. ring. }
    rewrite R0, Z0. change (inject_Z 0) with 0%Q. lra.
  - assert (H1 : (inject_Z 1 <= inject_Z n)%Q) by (rewrite <- Zle_Qle; lia).
    change (inject_Z 1) with 1%Q in H1.
    assert (H2 : (1 * tv <= inject_Z n * tv)%Q) by (apply Qmult_le_compat_r; lra).
    assert (Np : (0 < inject_Z n * tv)%Q) by lra.
    assert (Nn : (2 ^ (-1022) <= inject_Z n * tv)%Q) by lra.
    destruct (round_normal (inject_Z n * tv) Nn ltac:(lra)) as [L U].
    rewrite U53 in L, U. subst r. rewrite Em, (ofQ_pos _ _ Np). split; assumption.
Qed.

(** The price kept and its rendering, for a tick written with at most
    ten decimals and a price that is not negative: the string reads as a
    whole multiple of the tick, within a tick below the price up to a
    relative error of [2 ^ -51]. *)
Lemma renderPrice_multiple info price k :
  let d := (inject_Z k / inject_Z (10 ^ 10))%Q in
  let P := PricePrecision (precisionOf info) in
  parsed (TickSz info) = ofQ false d -> 1 <= k < 2 ^ 52 ->
  isFinite price = true -> (0 <= toQ price)%Q ->
  (toQ price * inject_Z (10 ^ Z.of_nat P) <= inject_Z (2 ^ 50))%Q ->
  exists (p' : Q) (n : Z),
    decimal (renderPrice (precisionOf info) price) = Some p'
    /\ 0 <= n
    /\ (p' == inject_Z n * d)%Q
    /\ (toQ price - d - toQ price * (1 # 2 ^ 51) < p')%Q
    /\ (p' <= toQ price + toQ price * (1 # 2 ^ 51))%Q.
Proof.
  intros d P Et Hk Fp Hp Bp.
  destruct (tick_precision info k Et Hk) as (ET & HP & U & HU & EU). fold d P in ET, HP, EU.
  destruct (tick_number k Hk) as (Hd & Pt & Lt & Ut & Tpos). fold d in Hd, Pt, Lt, Ut, Tpos.
  unfold renderPrice, quantizePrice. fold P. rewrite ET.
  rewrite (proj2 (ltb_plus zero (ofQ false d) 0 _ eq_refl Pt)) by exact Tpos.
  set (t := ofQ false d) in *. set (tv := toQ t) in *.
  pose proof (pow10_pos P) as P10.
  set (T := inject_Z (10 ^ Z.of_nat P)) in *.
  assert (Tp : (1 <= T)%Q).
  { subst T. change 1%Q with (inject_Z 1). rewrite <- Zle_Qle. lia. }
  assert (QU : (1 <= inject_Z U)%Q) by (change 1%Q with (inject_Z 1); rewrite <- Zle_Qle; lia).
  assert (T50 : (inject_Z (2 ^ 50) == 1125899906842624)%Q) by reflexivity.
  assert (E51 : (1 # 2 ^ 51 == 4 # 9007199254740992)%Q) by reflexivity.
  destruct (nonneg_cases price Fp Hp) as [->|Pp].
  - (* the negative zero *)
    destruct (plus_positive _ _ Pt Tpos) as (mt & et & Em). rewrite Em.
    cbn [div SFdiv xorb math.Floor mul SFmul FormatFloat].
    rewrite (fixed_nonneg 0 P) by apply Qle_refl. cbv zeta.
    rewrite (roundHalfEven_exact _ 0) by (rewrite Qmult_0_l; reflexivity).
    destruct P as [|P']; [lia|].
    destruct (trimmed_fixed true 0 (S P') ltac:(lia) ltac:(lia)) as (v & Dv & Ev).
    exists v, 0. cbn [toQ]. split; [exact Dv|]. split; [lia|].
    assert (V0 : (v == 0)%Q) by (rewrite Ev; unfold Qdiv; change (inject_Z 0) with 0%Q; ring).
    rewrite V0. change (inject_Z 0) with 0%Q. lra.
  - set (p := toQ price) in *.
    assert (Bp' : (p <= 1125899906842624)%Q).
    { assert (H : (p * 1 <= p * T)%Q) by (apply Qmult_le_left; lra). lra. }
    assert (Ltv : (1 # 20000000000 <= tv)%Q).
    { assert (T10 : (inject_Z (10 ^ 10) == 10000000000)%Q) by reflexivity.
      assert (H : (d * 10000000000 == inject_Z k)%Q) by (subst d; rewrite T10; field).
      assert (Qk : (1 <= inject_Z k)%Q)
        by (change 1%Q with (inject_Z 1); rewrite <- Zle_Qle; lia).
      lra. }
    assert (DT : (1 <= d * T)%Q) by (rewrite EU; exact QU).
    assert (Bx : (p / tv <= 2251799813685248)%Q).
    { apply Qle_shift_div_r; [exact Tpos|].
      assert (H1 : (p * (d * T) <= p * T * (tv * (2 # 1)))%Q).
      { assert (H2 : (p * T * d <= p * T * (tv * (2 # 1)))%Q)
          by (apply Qmult_le_left; [lra|apply Qmult_le_0_compat; lra]).
        lra. }
      assert (H3 : (p * 1 <= p * (d * T))%Q) by (apply Qmult_le_left; lra).
      assert (H4 : (p * T * (tv * (2 # 1)) <= 1125899906842624 * (tv * (2 # 1)))%Q)
        by (apply Qmult_le_compat_r; lra).
      lra. }
    destruct (tick_steps t tv price p Pt Pp Ltv Bp' Bx)
      as (q & r & Pr & Hq & Nq & Tq & Lr & Ur).
    set (n := Qfloor q) in *.
    assert (N0 : 0 <= n).
    { subst n. rewrite <- (Qfloor_Z 0). now apply Qfloor_resp_le. }
    assert (N0' : (0 <= inject_Z n)%Q)
      by (change 0%Q with (inject_Z 0); now rewrite <- Zle_Qle).
    assert (Nq1 : (inject_Z n <= q)%Q) by apply Qfloor_le.
    assert (Nq2 : (q < inject_Z n + 1)%Q).
    { pose proof (Qlt_floor q) as H. fold n in H. rewrite inject_Z_plus in H. exact H. }
    assert (Sum : ((inject_Z n * d * T - (1 # 2) < r * T
                    /\ r * T < inject_Z n * d * T + (1 # 2))
                   /\ p - d - p * (4 # 9007199254740992) < inject_Z n * d
                   /\ inject_Z n * d <= p + p * (4 # 9007199254740992))%Q).
    { destruct (Qlt_le_dec (p / tv) (2 ^ (-1022))) as [S|N].
      - specialize (Tq S).
        assert (Z0 : n = 0).
        { assert (H : (inject_Z n < inject_Z 1)%Q) by (change (inject_Z 1) with 1%Q; lra).
          rewrite <- Zlt_Qlt in H. lia. }
        rewrite Z0 in *. change (inject_Z 0) with 0%Q in *.
        assert (R0 : (r == 0)%Q) by lra.
        rewrite R0.
        assert (Sm : (p < tv * (1 # 2))%Q).
        { assert (Xt : (p / tv * tv == p)%Q) by (field; lra).
          assert (S' : (p / tv * tv < 2 ^ (-1022) * tv)%Q)
            by (apply Qmult_lt_compat_r; assumption).
          assert (H : (2 ^ (-1022) <= 2 ^ (-1))%Q) by (apply pow2_le; lia).
          assert (H' : (2 ^ (-1) == 1 # 2)%Q) by reflexivity.
          assert (H'' : (2 ^ (-1022) * tv <= 2 ^ (-1) * tv)%Q)
            by (apply Qmult_le_compat_r; lra).
          lra. }
        lra.
      - destruct (Nq N) as [Lq Uq].
        apply (tick_arith d tv p q r (inject_Z n) T); try assumption; try lra. }
    destruct Sum as ((R1 & R2) & Lo & Up).
    rewrite (FormatFloat_plus _ _ P Pr).
    pose proof (plus_nonneg _ _ Pr) as Hr.
    rewrite (fixed_nonneg r P Hr). cbv zeta. fold T.
    assert (Rn : roundHalfEven (r * T) = n * U).
    { apply roundHalfEven_nearest; rewrite inject_Z_mult, <- EU; lra. }
    rewrite Rn.
    destruct P as [|P']; [lia|].
    destruct (trimmed_fixed false (n * U) (S P') ltac:(lia) ltac:(lia)) as (v & Dv & Ev).
    exists v, n. split; [exact Dv|]. split; [exact N0|].
    assert (V : (v == inject_Z n * d)%Q).
    { rewrite Ev, inject_Z_mult, <- EU. fold T. field. lra. }
    rewrite V, E51. split; [reflexivity|]. split; assumption.
Qed.

(** C9, where the tick decides.  When the precision in use is that of an
    instrument whose tick size is written with at most ten decimals, the
    price is a finite number that is not negative, and it is at most
    [2 ^ 50] in the units [10 ^ -P] of the rendering, the string
    [formatPrice] returns reads as a whole multiple [n * tick] of the
    tick that lies within one tick below the price, up to a relative
    error of [2 ^ -51]. *)
Theorem formatPrice_multiple_of_tick symbol s s' info price k :
  let tick := (inject_Z k / inject_Z (10 ^ 10))%Q in
  let P := PricePrecision (precisionOf info) in
  getPrecision net symbol s = (Ok (precisionOf info), s') ->
  parsed (TickSz info) = ofQ false tick -> 1 <= k < 2 ^ 52 ->
  isFinite price = true -> (0 <= toQ price)%Q ->
  (toQ price * inject_Z (10 ^ Z.of_nat P) <= inject_Z (2 ^ 50))%Q ->
  exists (out : string) (p' : Q) (n : Z),
    formatPrice net symbol price s = (Ok out, s')
    /\ decimal out = Some p'
    /\ 0 <= n
    /\ (p' == inject_Z n * tick)%Q
    /\ (toQ price - tick - toQ price * (1 # 2 ^ 51) < p')%Q
    /\ (p' <= toQ price + toQ price * (1 # 2 ^ 51))%Q.
Proof.
  intros tick P Hg Et Hk Fp Hp Bp.
  destruct (renderPrice_multiple info price k Et Hk Fp Hp Bp) as (p' & n & D & N & E & L & U).
  exists (renderPrice (precisionOf info) price), p', n.
  split; [unfold formatPrice, bind; now rewrite Hg|].
  split; [exact D|]. split; [exact N|]. split; [exact E|]. split; assumption.
Qed.

End Precision.

(** C1 as stated does not hold.  With minimum and lot size one half and
    quantity three quarters, the rendered quantity is 0, below the
    minimum; with lot size 3, minimum 4 and quantity 5, it is 4, not a
    multiple of the lot.  Beyond [2 ^ 53] the product of the floor and
    the lot is rounded: with lot size and minimum 3 and quantity
    [10 ^ 21] the rendered quantity is [10 ^ 21], not a multiple of 3.
    The quantity [+Inf] is rendered as such, which denotes no number. *)
Lemma FormatQuantity_not_always_valid :
  (fst (FormatQuantity (listing "0.5" "0.1" "0.5") "BTCUSDT" (strconv.parsed "0.75") (start 0))
   = Ok "0"
   /\ float64.ltb float64.zero (strconv.parsed "0.75") = true
   /\ float64.ltb float64.zero (strconv.parsed "0.5") = true
   /\ strconv.decimal "0" = Some (0 / 1)%Q
   /\ ~ (float64.toQ (strconv.parsed "0.5") <= 0 / 1)%Q)
  /\ (fst (FormatQuantity (listing "3" "0.1" "4") "BTCUSDT" (float64.ofZ 5) (start 0)) = Ok "4"
      /\ strconv.decimal "4" = Some (4 / 1)%Q
      /\ strconv.parsed "3" = float64.ofZ 3
      /\ 4 mod 3 <> 0)
  /\ (fst (FormatQuantity (listing "3" "0.1" "3") "BTCUSDT" (strconv.parsed "1e21") (start 0))
      = Ok "1000000000000000000000"
      /\ strconv.decimal "1000000000000000000000" = Some (inject_Z (10 ^ 21) / 1)%Q
      /\ 10 ^ 21 mod 3 <> 0)
  /\ (fst (FormatQuantity (listing "1" "0.1" "1") "BTCUSDT" (S754_infinity false) (start 0))
      = Ok "+Inf"
      /\ float64.ltb float64.zero (S754_infinity false) = true
      /\ strconv.decimal "+Inf" = None).
Proof.
  split; [|split; [|split]].
  - split; [vm_compute; reflexivity|]. split; [reflexivity|]. split; [reflexivity|].
    split; [reflexivity|]. vm_compute. intros H. apply H. reflexivity.
  - split; [vm_compute; reflexivity|]. split; [reflexivity|]. split; [reflexivity|].
    discriminate.
  - split; [vm_compute; reflexivity|]. split; [vm_compute; reflexivity|].
    vm_compute. discriminate.
  - split; [vm_compute; reflexivity|]. split; reflexivity.
Qed.

(** C9 as stated does not hold.  The price 64000.1 is not a binary64
    number; the number nearest to it is just below it, and at tick 0.1
    the string returned is [64000.1], which is above the price.  A tick
    of [10 ^ -11] is rendered as zero by the ten-decimal format, the
    precision comes out as 1, and the price 0.06 is rendered as 0.1:
    above the price and not a multiple of the tick.  Without a positive
    tick the precision is 0 and the trim of trailing zeros eats into the
    integer: the price 100 is rendered as 1. *)
Lemma formatPrice_not_always_floor :
  (fst (formatPrice (listing "1" "0.1" "1") "BTCUSDT" (strconv.parsed "64000.1") (start 0))
   = Ok "64000.1"
   /\ strconv.decimal "64000.1" = Some (640001 / 10)%Q
   /\ float64.ltb float64.zero (strconv.parsed "0.1") = true
   /\ (0 <= float64.toQ (strconv.parsed "64000.1"))%Q
   /\ ~ (640001 / 10 <= float64.toQ (strconv.parsed "64000.1"))%Q)
  /\ (fst (formatPrice (listing "1" "0.00000000001" "1") "BTCUSDT" (strconv.parsed "0.06")
             (start 0)) = Ok "0.1"
      /\ strconv.decimal "0.1" = Some (1 / 10)%Q
      /\ float64.ltb float64.zero (strconv.parsed "0.00000000001") = true
      /\ ~ (1 / 10 <= float64.toQ (strconv.parsed "0.06"))%Q)
  /\ (fst (formatPrice (listing "1" "0" "1") "BTCUSDT" (float64.ofZ 100) (start 0)) = Ok "1"
      /\ strconv.decimal "1" = Some (1 / 1)%Q
      /\ float64.ltb float64.zero (strconv.parsed "0") = false
      /\ PricePrecision (precisionOf (Build_InstrumentInfo "" "1" "0" "1" "" "" "" "" "")) = 0%nat
      /\ float64.div (math.Floor (float64.mul (float64.ofZ 100) (math.Pow10 0))) (math.Pow10 0)
         = float64.ofZ 100).
Proof.
  split; [|split].
  - split; [vm_compute; reflexivity|]. split; [vm_compute; reflexivity|].
    split; [vm_compute; reflexivity|]. split; [vm_compute; discriminate|].
    vm_compute. intros H. apply H. reflexivity.
  - split; [vm_compute; reflexivity|]. split; [vm_compute; reflexivity|].
    split; [vm_compute; reflexivity|]. vm_compute. intros H. apply H. reflexivity.
  - split; [vm_compute; reflexivity|]. split; [vm_compute; reflexivity|].
    split; [vm_compute; reflexivity|]. split; vm_compute; reflexivity.
Qed.

(** The quotient of the price by the tick is a rounded quotient: at tick
    0.00001 the price 1 is kept as 0.99999, one tick below the price, and
    the negative zero keeps its sign in the string. *)
Example formatPrice_binary_quotient :
  fst (formatPrice (listing "1" "0.00001" "1") "BTCUSDT" (float64.ofZ 1) (start 0))
  = Ok "0.99999"
  /\ fst (formatPrice (listing "1" "0.01" "1") "BTCUSDT" (S754_zero true) (start 0)) = Ok "-0".
Proof. split; vm_compute; reflexivity. Qed.

(** ** Signer *)

Lemma NewOKXTrader_fresh :
  NewOKXTrader "key" "secret" "pass" false = Ok (freshTrader "key" "secret" "pass")
  /\ NewOKXTrader "key" "" "pass" false = Err "OKX API密钥、密钥和Passphrase不能为空".
Proof. split; reflexivity. Qed.

Lemma bytesOf_app (a b : string) : bytesOf (a ++ b) = (bytesOf a ++ bytesOf b)%list.
Proof.
  unfold bytesOf. induction a as [|c a IH]; [reflexivity|].
  cbn [String.append list_ascii_of_string map List.app]. now rewrite IH.
Qed.

(** Writing to the keyed hash and summing is the one-formula HMAC. *)
Lemma hmac_Write_Sum key message :
  hmac.Sum (hmac.Write (hmac.New key) message) [] = HMAC_SHA256 key message.
Proof. reflexivity. Qed.

(** C8. The signature is the base64 text of HMAC-SHA256, keyed by the
    secret, of the bytes of timestamp, method, path and body in that
    order; it depends on the trader through the secret only, so equal
    inputs give equal signatures whatever the rest of the state. *)
Theorem generateSignature_hmac :
  (forall t timestamp method requestPath body,
      generateSignature t timestamp method requestPath body
      = base64.EncodeToString
          (HMAC_SHA256 (bytesOf (secretKey t))
             (bytesOf timestamp ++ bytesOf method ++ bytesOf requestPath ++ bytesOf body)%list))
  /\ (forall t1 t2 timestamp method requestPath body,
        secretKey t1 = secretKey t2 ->
        generateSignature t1 timestamp method requestPath body
        = generateSignature t2 timestamp method requestPath body).
Proof.
  split.
  - intros. unfold generateSignature.
    now rewrite hmac_Write_Sum, !bytesOf_app.
  - intros t1 t2 ts m p b E. unfold generateSignature. now rewrite E.
Qed.

(** The signer on a request of the exchange's documentation, against the
    value of an independent implementation. *)
Example generateSignature_known_answer :
  generateSignature (freshTrader "key" "secret" "pass")
    "2020-12-08T09:08:57.715Z" "GET" "/api/v5/account/balance?ccy=USDT" ""
  = "rU3eBbGNF6XZT9cVLJVmOKO/wndaidjMkElDI6kMkzY=".
Proof. vm_compute. reflexivity. Qed.

Lemma generateSignature_hmac_witness :
  generateSignature (freshTrader "key" "secret" "pass") "t" "GET" "/p" ""
  = generateSignature
      (withBalance (freshTrader "other" "secret" "word") (Some ∅) 5) "t" "GET" "/p" "".
Proof. apply (proj2 generateSignature_hmac). reflexivity. Defined.

(** ** The theorems at work *)

Lemma makeRequest_three_transport_failures_witness :
  fst (makeRequest (broken "dial tcp: i/o timeout") "GET" "/api/v5/account/positions" None
         (start 0))
  = Err "HTTP请求失败: dial tcp: i/o timeout".
Proof.
  destruct (makeRequest_three_transport_failures (broken "dial tcp: i/o timeout")
              "GET" "/api/v5/account/positions" None (start 0)
              "dial tcp: i/o timeout" "dial tcp: i/o timeout" "dial tcp: i/o timeout"
              eq_refl eq_refl eq_refl eq_refl eq_refl) as [H _].
  rewrite H. reflexivity.
Defined.

Lemma makeRequest_envelope_error_not_retried_witness :
  fst (makeRequest refusing "GET" "/api/v5/account/positions" None (start 0))
  = Err "OKX API错误 [51000]: param error".
Proof.
  destruct (makeRequest_envelope_error_not_retried refusing
              "GET" "/api/v5/account/positions" None (start 0) ""
              (Some (json.Object [("code", json.Str "51000"); ("msg", json.Str "param error");
                                  ("data", json.Array [])]))
              "51000" "param error" (Some (json.Array []))
              eq_refl eq_refl ltac:(discriminate)) as [H _].
  rewrite H. reflexivity.
Defined.

Lemma failed_fetch_keeps_cache_witness :
  exists e, fst (GetBalance (broken "connection refused") (start 0)) = Err e.
Proof.
  apply (proj1 (proj2 (failed_fetch_keeps_cache (broken "connection refused") (start 0)))).
  - reflexivity.
  - vm_compute. exact I.
Defined.

Lemma pair_of_parts {A B} (p : A * B) a : fst p = a -> p = (a, snd p).
Proof. destruct p. cbn. now intros ->. Qed.

Lemma CancelAllOrders_outcomes_witness :
  let down := broken "connection refused" in
  let up := steady "" (envelope (json.Array [])) in
  CancelAllOrders down "BTCUSDT" (start 0)
  = (Err "获取订单列表失败: HTTP请求失败: connection refused",
     snd (listPending down "BTCUSDT" (snd (batchCancel down "BTCUSDT" (start 0)))))
  /\ List.length (trips (world (snd (CancelAllOrders down "BTCUSDT" (start 0))))) = 2%nat
  /\ fst (CancelAllOrders listingOnly "BTCUSDT" (start 0))
     = Err ("解析订单列表失败: " ++ jsonError)
  /\ fst (CancelAllOrders up "BTCUSDT" (start 0)) = Ok tt.
Proof.
  intros down up.
  destruct (CancelAllOrders_outcomes down "BTCUSDT" (start 0)) as (_ & _ & _ & F & _).
  specialize (F "HTTP请求失败: connection refused"
                (snd (batchCancel down "BTCUSDT" (start 0)))
                "HTTP请求失败: connection refused"
                (snd (listPending down "BTCUSDT" (snd (batchCancel down "BTCUSDT" (start 0)))))).
  cbv zeta in F.
  assert (E : CancelAllOrders down "BTCUSDT" (start 0)
              = (Err "获取订单列表失败: HTTP请求失败: connection refused",
                 snd (listPending down "BTCUSDT" (snd (batchCancel down "BTCUSDT" (start 0)))))).
  { apply F; apply pair_of_parts; vm_compute; reflexivity. }
  split; [exact E|]. split; [rewrite E; vm_compute; reflexivity|].
  destruct (CancelAllOrders_outcomes listingOnly "BTCUSDT" (start 0)) as (_ & _ & _ & _ & D & _).
  split.
  { rewrite (D "HTTP请求失败: connection refused"
               (snd (batchCancel listingOnly "BTCUSDT" (start 0)))
               (Some (json.Str "none"))
               (snd (listPending listingOnly "BTCUSDT"
                       (snd (batchCancel listingOnly "BTCUSDT" (start 0))))));
      [reflexivity| | |reflexivity]; apply pair_of_parts; vm_compute; reflexivity. }
  pose proof (proj1 (CancelAllOrders_outcomes up "BTCUSDT" (start 0))
                (Some (json.Array [])) (snd (batchCancel up "BTCUSDT" (start 0)))) as H.
  rewrite H; [reflexivity|].
  vm_compute. reflexivity.
Defined.

Lemma positions_normalized_witness :
  exists out,
    fst (GetPositions (steady "" (envelope threePositions)) (start 0)) = Ok out
    /\ List.length (elements out) = 2%nat.
Proof.
  destruct (positions_normalized (steady "" (envelope threePositions)) (start 0)
              (Some threePositions)
              [decoded "BTC-USDT-SWAP" "0"; decoded "ETH-USDT-SWAP" "-2";
               decoded "SOL-USDT-SWAP" "3"])
    as (out & H & E & _).
  - reflexivity.
  - vm_compute. reflexivity.
  - reflexivity.
  - exists out. split; [exact H|]. rewrite E. reflexivity.
Defined.

Lemma empty_positions_fetched_again_witness :
  let net := steady "" (envelope (json.Array [])) in
  let s1 := snd (GetPositions net (start 0)) in
  let s2 := snd (elapse (5 * time.Second) s1) in
  fst (GetPositions net (start 0)) = Ok None
  /\ clock (world s2) - clock (world s1) = 5 * time.Second
  /\ List.length (trips (world (snd (GetPositions net s2)))) = 2%nat.
Proof.
  intros net s1 s2.
  destruct (empty_positions_fetched_again net (start 0) (Some (json.Array [])) []
              (5 * time.Second)) as (H & _).
  - reflexivity.
  - vm_compute. reflexivity.
  - reflexivity.
  - constructor.
  - split; [exact H|]. split; vm_compute; reflexivity.
Defined.

Lemma FormatQuantity_whole_contracts_witness :
  fst (FormatQuantity (listing "1" "0.1" "1") "BTCUSDT" (strconv.parsed "0.873") (start 0))
  = Ok "1".
Proof.
  destruct (FormatQuantity_whole_contracts (listing "1" "0.1" "1") "BTCUSDT" (start 0)
              (snd (getInstrumentInfo (listing "1" "0.1" "1") "BTCUSDT" (start 0)))
              (Build_InstrumentInfo "BTC-USDT-SWAP" "1" "0.1" "1" "" "" "" "" "")
              (strconv.parsed "0.873") 1 1)
    as (q' & v & E & _ & _ & _ & Hlt & _).
  - vm_compute. reflexivity.
  - vm_compute. reflexivity.
  - split; [lia|vm_compute; discriminate].
  - vm_compute. reflexivity.
  - split; [lia|vm_compute; discriminate].
  - vm_compute. reflexivity.
  - vm_compute. reflexivity.
  - vm_compute. discriminate.
  - rewrite E, Hlt; [reflexivity|vm_compute; reflexivity].
Defined.

Lemma formatPrice_multiple_of_tick_witness :
  exists out p' n,
    fst (formatPrice (listing "1" "0.1" "1") "BTCUSDT" (strconv.parsed "50000.37") (start 0))
    = Ok out
    /\ strconv.decimal out = Some p'
    /\ (p' == inject_Z n * (1 # 10))%Q.
Proof.
  destruct (formatPrice_multiple_of_tick (listing "1" "0.1" "1") "BTCUSDT" (start 0)
              (snd (getPrecision (listing "1" "0.1" "1") "BTCUSDT" (start 0)))
              (Build_InstrumentInfo "BTC-USDT-SWAP" "1" "0.1" "1" "" "" "" "" "")
              (strconv.parsed "50000.37") 1000000000)
    as (out & p' & n & E & P & _ & M & _).
  - vm_compute. reflexivity.
  - vm_compute. reflexivity.
  - split; [lia|vm_compute; reflexivity].
  - vm_compute. reflexivity.
  - vm_compute. discriminate.
  - vm_compute. discriminate.
  - exists out, p', n. rewrite E. split; [reflexivity|]. split; [exact P|].
    assert (T : (inject_Z 1000000000 / inject_Z (10 ^ 10) == 1 # 10)%Q) by reflexivity.
    rewrite M, T. reflexivity.
Defined.

(** * Further properties of the trader *)

(** ** Transport: bounds of the retry loop *)

Section TransportBounds.

Variable net : Network.


(** X2. A request that fails twice with a retried transport error and is then
    answered with code 0 succeeds: the data of the envelope is returned
    after three round trips and sleeps of one and two seconds. *)
Theorem makeRequest_recovers method endpoint body s t1 t2 raw doc msg data :
  let req := buildRequest (self s) (clock (world s)) method endpoint body in
  let s1 := afterSleep (1 * time.Second) (afterTrip net req s) in
  let s2 := afterSleep (2 * time.Second) (afterTrip net req s1) in
  answer net req s = DoError t1 -> retryable t1 = true ->
  answer net req s1 = DoError t2 -> retryable t2 = true ->
  answer net req s2 = Response 200 raw doc ->
  decodeEnvelope doc = Some ("0", msg, data) ->
  makeRequest net method endpoint body s = (Ok data, afterTrip net req s2)
  /\ sleeps (world (afterTrip net req s2))
     = (sleeps (world s) ++ [1 * time.Second; 2 * time.Second])%list
  /\ trips (world (afterTrip net req s2)) = (trips (world s) ++ [req; req; req])%list.
Proof.
  intros req s1 s2 H1 R1 H2 R2 H3 D.
  rewrite makeRequest_eq. fold req.
  rewrite attemptLoop_step, H1, R1.
  change (1 <? maxRetries) with true. cbn [andb]. fold s1.
  rewrite attemptLoop_step, H2, R2.
  change (1 + 1) with 2. change (2 <? maxRetries) with true. cbn [andb]. fold s2.
  rewrite attemptLoop_step, H3, D.
  split; [reflexivity|]. split; cbn; now rewrite <- !app_assoc.
Qed.

(** X3. Only a retried transport error makes the loop go round: after any
    other outcome of the first round trip (a transport error of another
    kind, an unreadable body, a response with any status and body),
    [makeRequest] returns with that one request sent and no sleep. *)
Theorem makeRequest_single_attempt method endpoint body s :
  let req := buildRequest (self s) (clock (world s)) method endpoint body in
  retried (answer net req s) = false ->
  snd (makeRequest net method endpoint body s) = afterTrip net req s
  /\ trips (world (afterTrip net req s)) = (trips (world s) ++ [req])%list
  /\ sleeps (world (afterTrip net req s)) = sleeps (world s)
  /\ (forall text, answer net req s = DoError text ->
        fst (makeRequest net method endpoint body s) = Err ("HTTP请求失败: " ++ text))
  /\ (forall status raw, answer net req s = Response status raw None -> status <> 200 ->
        fst (makeRequest net method endpoint body s)
        = Err ("HTTP错误 " ++ strconv.intDigits status ++ ": " ++ raw)).
Proof.
  intros req R. rewrite makeRequest_eq. fold req. rewrite attemptLoop_step.
  split; [|split; [reflexivity|split; [reflexivity|split]]].
  - destruct (answer net req s) as [text|st text|st raw doc]; cbn [retried] in R.
    + rewrite R, andb_false_r. reflexivity.
    + reflexivity.
    + destruct (negb (st =? 200)).
      * destruct (decodeEnvelope doc) as [[[c m] d]|]; reflexivity.
      * destruct (decodeEnvelope doc) as [[[c m] d]|]; [|reflexivity].
        destruct (negb (String.eqb c "0")); reflexivity.
  - intros text A. rewrite A in R |- *. cbn [retried] in R.
    rewrite R, andb_false_r. reflexivity.
  - intros status raw A N. rewrite A. apply Z.eqb_neq in N. rewrite N. reflexivity.
Qed.

End TransportBounds.

Lemma makeRequest_recovers_witness :
  fst (makeRequest (flaky (json.Array [])) "GET" "/api/v5/account/positions" None (start 0))
  = Ok (Some (json.Array [])).
Proof.
  destruct (makeRequest_recovers (flaky (json.Array []))
              "GET" "/api/v5/account/positions" None (start 0)
              "read: connection reset by peer" "read: connection reset by peer"
              "" (Some (envelope (json.Array []))) "" (Some (json.Array []))
              eq_refl eq_refl eq_refl eq_refl eq_refl eq_refl) as [H _].
  rewrite H. reflexivity.
Defined.

Lemma makeRequest_single_attempt_witness :
  List.length (trips (world (snd (makeRequest (broken "connection refused")
                                    "GET" "/api/v5/account/positions" None (start 0)))))
  = 1%nat.
Proof.
  destruct (makeRequest_single_attempt (broken "connection refused")
              "GET" "/api/v5/account/positions" None (start 0) eq_refl) as [H _].
  rewrite H. reflexivity.
Defined.

(** ** Symbol codec, beyond the round trip *)

Section SymbolCodec.

Lemma Contains_app_r a b sub :
  strings.Contains b sub = true -> strings.Contains (a ++ b) sub = true.
Proof.
  intros H. induction a as [|c a IH]; [exact H|].
  cbn [String.append strings.Contains]. rewrite IH. apply orb_true_r.
Qed.

(** For a one-byte pattern, containment splits over concatenation. *)
Lemma Contains_dash_app a b :
  strings.Contains (a ++ b) "-" = strings.Contains a "-" || strings.Contains b "-".
Proof.
  induction a as [|c a IH].
  - cbn [String.append]. reflexivity.
  - cbn [String.append strings.Contains strings.HasPrefix].
    rewrite !HasPrefix_nil, IH, orb_assoc. reflexivity.
Qed.

Lemma app_inj_last a b x y :
  a ++ String x "" = b ++ String y "" -> a = b /\ x = y.
Proof.
  revert b. induction a as [|c a IH]; intros [|d b] E; cbn in E.
  - injection E as ->. auto.
  - injection E as -> E. destruct b; discriminate.
  - injection E as -> E. destruct a; discriminate.
  - injection E as -> E. destruct (IH _ E) as [-> ->]. auto.
Qed.

Lemma USD_not_USDT b : strings.HasSuffix (b ++ "USD") "USDT" = false.
Proof.
  destruct (strings.HasSuffix (b ++ "USD") "USDT") eqn:H; [|reflexivity].
  apply HasSuffix_inv in H as [a E].
  change (b ++ "USD") with (b ++ "US" ++ "D") in E.
  change (a ++ "USDT") with (a ++ "USD" ++ "T") in E.
  rewrite <- !app_assoc_s in E. apply app_inj_last in E as [_ E]. discriminate.
Qed.

Lemma reverseSymbol_swap b q :
  strings.Contains b "-" = false -> strings.replaceFrom 0 q "-" "" = q ->
  reverseSymbol (b ++ "-" ++ q ++ "-SWAP") = b ++ q.
Proof.
  intros Hb Hq. unfold reverseSymbol.
  replace (b ++ "-" ++ q ++ "-SWAP") with ((b ++ "-" ++ q) ++ "-SWAP")
    by (now rewrite !app_assoc_s).
  rewrite TrimSuffix_app. unfold strings.ReplaceAll.
  assert (Hb' : strings.Contains (b ++ "") "-" = false) by (now rewrite app_nil_r_s).
  rewrite (ReplaceAll_dash_free b "" _ Hb').
  change ("-" ++ q) with (String "-" q).
  cbn [strings.replaceFrom]. rewrite dash_prefix.
  change (String.length "-" - 1)%nat with 0%nat.
  rewrite Hq. reflexivity.
Qed.

(** X4. [convertSymbol] always yields an exchange-format symbol, one with a
    dash, and converting twice is converting once: the precision cache
    has one key per instrument whichever format the caller uses. *)
Theorem convertSymbol_idempotent s :
  strings.Contains (convertSymbol s) "-" = true
  /\ convertSymbol (convertSymbol s) = convertSymbol s.
Proof.
  assert (C : strings.Contains (convertSymbol s) "-" = true).
  { unfold convertSymbol. destruct (strings.Contains s "-") eqn:E; [exact E|].
    cbv zeta.
    destruct (String.eqb (strings.TrimSuffix s "USDT") s);
      [destruct (String.eqb (strings.TrimSuffix s "USD") s)|];
      apply Contains_app_r; reflexivity. }
  split; [exact C|].
  unfold convertSymbol at 1. now rewrite C.
Qed.

(** X5. The round trip from the exchange side: an instrument id made of a
    dash-free base, [-USDT] or [-USD], and [-SWAP] is what [convertSymbol]
    gives back from its caller-format name. *)
Theorem convert_reverse_roundtrip b :
  strings.Contains b "-" = false ->
  convertSymbol (reverseSymbol (b ++ "-USDT-SWAP")) = b ++ "-USDT-SWAP"
  /\ convertSymbol (reverseSymbol (b ++ "-USD-SWAP")) = b ++ "-USD-SWAP".
Proof.
  intros Hb. split.
  - change (reverseSymbol (b ++ "-USDT-SWAP"))
      with (reverseSymbol (b ++ "-" ++ "USDT" ++ "-SWAP")).
    rewrite (reverseSymbol_swap b "USDT" Hb eq_refl).
    unfold convertSymbol. rewrite Contains_dash_app, Hb. cbn [orb].
    change (strings.Contains "USDT" "-") with false. cbv iota zeta.
    rewrite TrimSuffix_app.
    destruct (String.eqb_spec b (b ++ "USDT")) as [E|_]; [|reflexivity].
    exfalso. revert E. now apply app_neq_self.
  - change (reverseSymbol (b ++ "-USD-SWAP"))
      with (reverseSymbol (b ++ "-" ++ "USD" ++ "-SWAP")).
    rewrite (reverseSymbol_swap b "USD" Hb eq_refl).
    unfold convertSymbol. rewrite Contains_dash_app, Hb. cbn [orb].
    change (strings.Contains "USD" "-") with false. cbv iota zeta.
    rewrite (TrimSuffix_not _ _ (USD_not_USDT b)), String.eqb_refl, TrimSuffix_app.
    destruct (String.eqb_spec b (b ++ "USD")) as [E|_]; [|reflexivity].
    exfalso. revert E. now apply app_neq_self.
Qed.

Lemma replaceFrom_dash_free s :
  strings.Contains (strings.replaceFrom 0 s "-" "") "-" = false.
Proof.
  induction s as [|c s IH]; [reflexivity|].
  cbn [strings.replaceFrom strings.HasPrefix]. rewrite HasPrefix_nil, andb_true_r.
  destruct (Ascii.eqb c "-") eqn:E.
  - change (String.length "-" - 1)%nat with 0%nat. exact IH.
  - cbn [strings.Contains strings.HasPrefix].
    rewrite HasPrefix_nil, andb_true_r, E, IH. reflexivity.
Qed.

(** X6. A caller-format symbol never has a dash; and for a dash-free symbol
    that ends neither in [USDT] nor in [USD] the conversion assumes USDT,
    so that the way back appends it. *)
Theorem reverseSymbol_caller_format :
  (forall okxSymbol, strings.Contains (reverseSymbol okxSymbol) "-" = false)
  /\ (forall s,
        strings.Contains s "-" = false ->
        strings.HasSuffix s "USDT" = false -> strings.HasSuffix s "USD" = false ->
        convertSymbol s = s ++ "-USDT-SWAP"
        /\ reverseSymbol (convertSymbol s) = s ++ "USDT").
Proof.
  split.
  - intros okxSymbol. apply replaceFrom_dash_free.
  - intros s Hd H1 H2.
    assert (E : convertSymbol s = s ++ "-USDT-SWAP").
    { unfold convertSymbol.
      now rewrite Hd, (TrimSuffix_not _ _ H1), (TrimSuffix_not _ _ H2), String.eqb_refl. }
    split; [exact E|]. rewrite E.
    apply (reverseSymbol_swap s "USDT" Hd eq_refl).
Qed.

End SymbolCodec.

Lemma convert_reverse_roundtrip_witness :
  convertSymbol (reverseSymbol "ETH-USD-SWAP") = "ETH-USD-SWAP".
Proof. apply (proj2 (convert_reverse_roundtrip "ETH" eq_refl)). Defined.

Lemma reverseSymbol_caller_format_witness :
  reverseSymbol (convertSymbol "BTC") = "BTCUSDT".
Proof.
  apply (proj2 (proj2 reverseSymbol_caller_format "BTC" eq_refl eq_refl eq_refl)).
Defined.

(** ** Instrument specification cache *)

Section PrecisionCache.

Variable net : Network.

Lemma getInstrumentInfo_self symbol s :
  self (snd (getInstrumentInfo net symbol s)) = self s.
Proof.
  unfold getInstrumentInfo, bind.
  match goal with |- context [makeRequest net ?m ?e ?b s] =>
    destruct (makeRequest_frame net m e b s) as (F & _);
    destruct (makeRequest net m e b s) as [[data|e1] s1] end; cbn [snd] in *; [|exact F].
  destruct (unmarshalSlice _ _ data) as [[|first rest]|]; exact F.
Qed.

(** [getPrecision], by the cache and the result of the fetch. *)
Lemma getPrecision_eq symbol s :
  getPrecision net symbol s =
  match symbolPrecision (self s) !! convertSymbol symbol with
  | Some prec => (Ok prec, s)
  | None =>
      match getInstrumentInfo net symbol s with
      | (Ok info, s1) =>
          (Ok (precisionOf info),
           {| self := withPrecision (self s1)
                        (<[convertSymbol symbol := precisionOf info]>
                           (symbolPrecision (self s1)));
              world := world s1 |})
      | (Err e, s1) => (Err e, s1)
      end
  end.
Proof.
  unfold getPrecision, bind at 1, getSelf.
  destruct (symbolPrecision (self s) !! convertSymbol symbol); [reflexivity|].
  unfold bind at 1.
  destruct (getInstrumentInfo net symbol s) as [[info|e] s1]; reflexivity.
Qed.


(** X8. [formatPrice] on a cached instrument sends nothing and changes
    nothing; without a cached record it needs the fetch, and when the
    fetch fails it returns the error: there is no default precision for
    prices. *)
Theorem formatPrice_needs_precision symbol price s :
  (forall prec, symbolPrecision (self s) !! convertSymbol symbol = Some prec ->
     formatPrice net symbol price s = (Ok (renderPrice prec price), s))
  /\ (forall e, symbolPrecision (self s) !! convertSymbol symbol = None ->
        fst (getInstrumentInfo net symbol s) = Err e ->
        fst (formatPrice net symbol price s) = Err e
        /\ self (snd (formatPrice net symbol price s)) = self s).
Proof.
  unfold formatPrice, bind. rewrite getPrecision_eq. split.
  - intros prec ->. reflexivity.
  - intros e -> H. pose proof (getInstrumentInfo_self symbol s) as F.
    destruct (getInstrumentInfo net symbol s) as [[info|e'] s0]; [discriminate|].
    cbn [fst snd] in *. injection H as ->. split; [reflexivity|exact F].
Qed.

End PrecisionCache.


Lemma formatPrice_needs_precision_witness :
  fst (formatPrice (broken "connection refused") "BTCUSDT" (float64.ofZ 100) (start 0))
  = Err "HTTP请求失败: connection refused".
Proof.
  apply (proj2 (formatPrice_needs_precision (broken "connection refused") "BTCUSDT"
                  (float64.ofZ 100) (start 0))).
  - reflexivity.
  - vm_compute. reflexivity.
Defined.

(** ** Quantities: rejection, liveness and the default precision *)

Section QuantityFallback.

Import strconv float64.

Variable net : Network.


End QuantityFallback.


(** ** Account caches: expiry, refresh and the shape of the results *)

Section AccountCaches.

Variable net : Network.




(** The result of a miss, from what the exchange answered. *)
Lemma GetBalance_fetched s data acct rest detail more :
  balanceFresh s = false ->
  fst (balanceRequest net s) = Ok data ->
  unmarshalSlice {| Details := []; TotalEq := "" |} decodeAccount data = Some (acct :: rest) ->
  Details acct = detail :: more ->
  fst (GetBalance net s) = Ok (balanceResult acct detail).
Proof.
  intros Hm Hr Hd Hdet. rewrite (GetBalance_miss net s Hm), fetchBalance_eq.
  destruct (balanceRequest net s) as [[data'|e] s1]; cbn [fst] in Hr; [|discriminate].
  injection Hr as ->. rewrite Hd, Hdet. reflexivity.
Qed.

Lemma GetPositions_fetched s data positions :
  positionsFresh s = false ->
  fst (positionsRequest net s) = Ok data ->
  unmarshalSlice zeroPosition decodePosition data = Some positions ->
  fst (GetPositions net s) = Ok (normalizePositions positions None).
Proof.
  intros Hm Hr Hd. rewrite (GetPositions_miss net s Hm), fetchPositions_eq.
  destruct (positionsRequest net s) as [[data'|e] s1]; cbn [fst] in Hr; [|discriminate].
  injection Hr as ->. rewrite Hd. reflexivity.
Qed.

End AccountCaches.

Lemma some_of_match {A} (x : option A) d :
  match x with Some _ => true | None => false end = true ->
  x = Some (match x with Some l => l | None => d end).
Proof. destruct x; [reflexivity|discriminate]. Qed.


Lemma balance_served_from_cache_witness :
  let net := steady "" balanceDoc in
  let result :=
    balanceResult {| Details := []; TotalEq := "1000.5" |}
      {| Ccy := "USDT"; Bal := ""; AvailBal := ""; FrozenBal := ""; Eq := "1000.5";
         AvailEq := "800"; NotionalUsd := ""; OrdFrozen := ""; Upl := "-20.5";
         MarginRatio := ""; MgnRatio := "" |} in
  let s1 := snd (GetBalance net (start 0)) in
  let s2 := snd (elapse (14 * time.Second) s1) in
  GetBalance net s2 = (Ok result, s2).
Proof.
  intros net result s1 s2.
  apply (balance_served_from_cache net (start 0) result s1 (14 * time.Second)).
  - apply pair_of_parts.
    refine (GetBalance_fetched net (start 0) _
              {| Details := [_]; TotalEq := "1000.5" |} [] _ [] eq_refl _ _ eq_refl).
    + vm_compute. reflexivity.
    + vm_compute. reflexivity.
  - reflexivity.
  - subst net result s1. vm_compute. split; [discriminate|reflexivity].
Defined.

Lemma positions_served_from_cache_witness :
  let net := steady "" (envelope threePositions) in
  let entries :=
    elements (normalizePositions
                [decoded "BTC-USDT-SWAP" "0"; decoded "ETH-USDT-SWAP" "-2";
                 decoded "SOL-USDT-SWAP" "3"] None) in
  let s1 := snd (GetPositions net (start 0)) in
  let s2 := snd (elapse (14 * time.Second) s1) in
  GetPositions net s2 = (Ok (Some entries), s2).
Proof.
  intros net entries s1 s2.
  apply (positions_served_from_cache net (start 0) entries s1 (14 * time.Second)).
  - apply pair_of_parts. subst entries. unfold elements.
    rewrite <- some_of_match by (vm_compute; reflexivity).
    apply (GetPositions_fetched net (start 0) (Some threePositions)); [reflexivity| |reflexivity].
    vm_compute. reflexivity.
  - reflexivity.
  - subst net entries s1. vm_compute. split; [discriminate|reflexivity].
Defined.


(** ** Cancellations: outcomes and what they leave alone *)

Section CancelFamily.

Variable net : Network.

Lemma warn_self msg s : self (snd (warn msg s)) = self s.
Proof. reflexivity. Qed.

Lemma cancelAlgoLoop_self okxSymbol trigger what orders s :
  self (snd (cancelAlgoLoop net okxSymbol trigger what orders s)) = self s.
Proof.
  revert s. induction orders as [|order rest IH]; intros s; [reflexivity|].
  cbn [cancelAlgoLoop].
  destruct (negb (String.eqb (trigger order) "") && negb (String.eqb (trigger order) "0")).
  - unfold bind at 1. unfold bind at 1. rewrite try_result.
    destruct (makeRequest_frame net "POST" "/api/v5/trade/cancel-algo"
                (Some [("instId", okxSymbol); ("algoId", AlgoId order);
                       ("ordType", "conditional")]) s) as (F & _).
    destruct (fst (makeRequest net _ _ _ s)) as [d|e]; cbn; now rewrite IH.
  - unfold bind at 1. cbn. apply IH.
Qed.

(** Orders whose trigger is not set are passed over. *)
Lemma cancelAlgoLoop_idle okxSymbol trigger what orders s :
  Forall (fun order => triggerSet (trigger order) = false) orders ->
  cancelAlgoLoop net okxSymbol trigger what orders s = (Ok tt, s).
Proof.
  induction 1 as [|order rest H _ IH]; [reflexivity|].
  cbn [cancelAlgoLoop]. unfold triggerSet in H. rewrite H.
  unfold bind at 1. cbn. exact IH.
Qed.

Lemma cancelAlgoOrders_eq symbol trigger what s :
  cancelAlgoOrders net symbol trigger what s =
  match algoPending net symbol s with
  | (Err e, s1) => (Err ("获取条件单列表失败: " ++ e), s1)
  | (Ok data, s1) =>
      match unmarshalSlice zeroAlgo decodeAlgo data with
      | None => (Err ("解析订单列表失败: " ++ jsonError), s1)
      | Some orders =>
          (Ok tt, snd (cancelAlgoLoop net (convertSymbol symbol) trigger what orders s1))
      end
  end.
Proof.
  unfold cancelAlgoOrders, algoPending, bind, wrap.
  destruct (makeRequest net "GET" _ None s) as [[data|e] s1]; [|reflexivity].
  destruct (unmarshalSlice zeroAlgo decodeAlgo data) as [orders|]; [|reflexivity].
  pose proof (cancelAlgoLoop_ok net (convertSymbol symbol) trigger what orders s1) as L.
  destruct (cancelAlgoLoop net _ trigger what orders s1) as [[[]|e] s2];
    cbn [fst snd] in *; [reflexivity|discriminate].
Qed.

(** X14. A conditional-order cancellation fails only on its listing: when the
    list of pending orders cannot be fetched or decoded.  Once it has the
    list it succeeds whatever the single cancels do, and when no order of
    the list has the trigger price in question (a price that is the empty
    string or the string 0 counts as not set) it sends nothing more. *)
Theorem conditional_cancel_outcomes symbol s :
  let listed := algoPending net symbol s in
  (forall data orders,
      fst listed = Ok data ->
      unmarshalSlice zeroAlgo decodeAlgo data = Some orders ->
      fst (CancelStopLossOrders net symbol s) = Ok tt
      /\ fst (CancelTakeProfitOrders net symbol s) = Ok tt
      /\ (Forall (fun order => triggerSet (SlTriggerPx order) = false) orders ->
          snd (CancelStopLossOrders net symbol s) = snd listed)
      /\ (Forall (fun order => triggerSet (TpTriggerPx order) = false) orders ->
          snd (CancelTakeProfitOrders net symbol s) = snd listed))
  /\ (forall e, fst listed = Err e ->
        CancelStopLossOrders net symbol s = (Err ("获取条件单列表失败: " ++ e), snd listed)
        /\ CancelTakeProfitOrders net symbol s
           = (Err ("获取条件单列表失败: " ++ e), snd listed))
  /\ (forall data, fst listed = Ok data ->
        unmarshalSlice zeroAlgo decodeAlgo data = None ->
        CancelStopLossOrders net symbol s
        = (Err ("解析订单列表失败: " ++ jsonError), snd listed)
        /\ CancelTakeProfitOrders net symbol s
           = (Err ("解析订单列表失败: " ++ jsonError), snd listed)).
Proof.
  intros listed. subst listed.
  unfold CancelStopLossOrders, CancelTakeProfitOrders. rewrite !cancelAlgoOrders_eq.
  destruct (algoPending net symbol s) as [[data|e] s1]; cbn [fst snd].
  - split; [|split; [intros; discriminate|]].
    + intros d orders [= <-] ->. cbn [fst snd].
      split; [reflexivity|]. split; [reflexivity|].
      split; intros H; now rewrite (cancelAlgoLoop_idle _ _ _ _ _ H).
    + intros d [= <-] ->. split; reflexivity.
  - split; [intros; discriminate|]. split; [|intros; discriminate].
    intros e' [= <-]. split; reflexivity.
Qed.

Lemma cancelAlgoOrders_self symbol trigger what s :
  self (snd (cancelAlgoOrders net symbol trigger what s)) = self s.
Proof.
  rewrite cancelAlgoOrders_eq. unfold algoPending.
  match goal with |- context [makeRequest net ?m ?e ?b s] =>
    destruct (makeRequest_frame net m e b s) as (F & _);
    destruct (makeRequest net m e b s) as [[data|e1] s1] end; cbn [snd] in *; [|exact F].
  destruct (unmarshalSlice zeroAlgo decodeAlgo data) as [orders|]; [|exact F].
  cbn [snd]. now rewrite cancelAlgoLoop_self.
Qed.

Lemma afterStopLoss_self symbol s : self (afterStopLoss net symbol s) = self s.
Proof.
  unfold afterStopLoss.
  pose proof (cancelAlgoOrders_self symbol SlTriggerPx "止损单" s) as F.
  fold (CancelStopLossOrders net symbol s) in F.
  destruct (CancelStopLossOrders net symbol s) as [[[]|e] s1]; exact F.
Qed.

Lemma afterTakeProfit_self symbol s : self (afterTakeProfit net symbol s) = self s.
Proof.
  unfold afterTakeProfit.
  pose proof (cancelAlgoOrders_self symbol TpTriggerPx "止盈单" s) as F.
  fold (CancelTakeProfitOrders net symbol s) in F.
  destruct (CancelTakeProfitOrders net symbol s) as [[[]|e] s1]; exact F.
Qed.

Lemma cancelOrderLoop_self okxSymbol orders s :
  self (snd (cancelOrderLoop net okxSymbol orders s)) = self s.
Proof.
  revert s. induction orders as [|ordId rest IH]; intros s; [reflexivity|].
  rewrite cancelOrderLoop_cons, IH. unfold cancelOne.
  destruct (makeRequest_frame net "POST" "/api/v5/trade/cancel-order"
              (Some [("instId", okxSymbol); ("ordId", ordId)]) s) as (F & _).
  destruct (makeRequest net _ _ _ s) as [[d|e] s1]; exact F.
Qed.

Lemma CancelAllOrders_self symbol s :
  self (snd (CancelAllOrders net symbol s)) = self s.
Proof.
  rewrite CancelAllOrders_eq. unfold batchCancel, listPending.
  match goal with |- context [makeRequest net "POST" ?e ?b s] =>
    destruct (makeRequest_frame net "POST" e b s) as (F & _);
    destruct (makeRequest net "POST" e b s) as [[d0|e0] s1] end; cbn [snd] in F.
  - rewrite CancelStopOrders_eq. cbn [snd].
    now rewrite afterTakeProfit_self, afterStopLoss_self.
  - match goal with |- context [makeRequest net "GET" ?e ?b s1] =>
      destruct (makeRequest_frame net "GET" e b s1) as (F1 & _);
      destruct (makeRequest net "GET" e b s1) as [[data|e1] s2] end; cbn [snd] in *;
      [|congruence].
    destruct (decodePending data) as [orders|]; cbn [snd]; [|congruence].
    rewrite CancelStopOrders_eq. cbn [snd].
    rewrite afterTakeProfit_self, afterStopLoss_self, cancelOrderLoop_self. congruence.
Qed.

(** X15. [CancelStopOrders] always succeeds, whatever the exchange answers,
    and what either cancellation fails with is in the log.  None of the
    cancellations writes to the trader: the balance, positions and
    precision caches are as before, whether they succeed or not. *)
Theorem cancellations_leave_trader symbol s :
  (CancelStopOrders net symbol s
   = (Ok tt, afterTakeProfit net symbol (afterStopLoss net symbol s))
   /\ (forall err, fst (CancelStopLossOrders net symbol s) = Err err ->
         In ("  ⚠️ 取消止损单失败: " ++ err)
            (warnings (world (snd (CancelStopOrders net symbol s)))))
   /\ (forall err,
         fst (CancelTakeProfitOrders net symbol (afterStopLoss net symbol s)) = Err err ->
         In ("  ⚠️ 取消止盈单失败: " ++ err)
            (warnings (world (snd (CancelStopOrders net symbol s))))))
  /\ self (snd (CancelStopOrders net symbol s)) = self s
  /\ self (snd (CancelStopLossOrders net symbol s)) = self s
  /\ self (snd (CancelTakeProfitOrders net symbol s)) = self s
  /\ self (snd (CancelAllOrders net symbol s)) = self s.
Proof.
  rewrite CancelStopOrders_eq. cbn [snd].
  split; [split; [reflexivity|split]|].
  - intros err H.
    destruct (afterStopLoss_logs net symbol s) as [_ L]. specialize (L err H).
    destruct (afterTakeProfit_logs net symbol (afterStopLoss net symbol s)) as [[m E] _].
    rewrite E. apply in_or_app. now left.
  - intros err H.
    destruct (afterTakeProfit_logs net symbol (afterStopLoss net symbol s)) as [_ L].
    now apply L.
  - split; [now rewrite afterTakeProfit_self, afterStopLoss_self|].
    split; [apply cancelAlgoOrders_self|]. split; [apply cancelAlgoOrders_self|].
    apply CancelAllOrders_self.
Qed.

End CancelFamily.

Lemma conditional_cancel_outcomes_witness :
  fst (CancelStopLossOrders (steady "" (envelope (json.Array []))) "BTCUSDT" (start 0)) = Ok tt.
Proof.
  apply (proj1 (conditional_cancel_outcomes (steady "" (envelope (json.Array [])))
                  "BTCUSDT" (start 0)) (Some (json.Array [])) []).
  - vm_compute. reflexivity.
  - reflexivity.
Defined.

Lemma cancellations_leave_trader_witness :
  In "  ⚠️ 取消止损单失败: 获取条件单列表失败: HTTP请求失败: connection refused"
     (warnings (world (snd (CancelStopOrders (broken "connection refused") "BTCUSDT"
                              (start 0))))).
Proof.
  apply (proj1 (proj2 (proj1 (cancellations_leave_trader (broken "connection refused")
                                "BTCUSDT" (start 0))))).
  vm_compute. reflexivity.
Defined.

(** ** Construction *)

Section Construction.

Variable net : Network.

(** X16. [NewOKXTrader] fails exactly when one of the three credentials is
    empty.  Otherwise the trader keeps the credentials and the flag as
    given, talks to the production host, has a cache lifetime of fifteen
    seconds and starts with nothing cached: whatever the clock, its first
    [GetBalance] and [GetPositions] go to the exchange. *)
Theorem NewOKXTrader_outcomes key secret pass test :
  (key = "" \/ secret = "" \/ pass = "" ->
     NewOKXTrader key secret pass test = Err "OKX API密钥、密钥和Passphrase不能为空")
  /\ (key <> "" -> secret <> "" -> pass <> "" ->
      exists t,
        NewOKXTrader key secret pass test = Ok t
        /\ apiKey t = key /\ secretKey t = secret /\ passphrase t = pass
        /\ testnet t = test
        /\ baseURL t = "https://www.okx.com"
        /\ cacheDuration t = 15 * time.Second
        /\ symbolPrecision t = ∅
        /\ forall w,
             balanceFresh {| self := t; world := w |} = false
             /\ positionsFresh {| self := t; world := w |} = false
             /\ GetBalance net {| self := t; world := w |}
                = fetchBalance net {| self := t; world := w |}
             /\ GetPositions net {| self := t; world := w |}
                = fetchPositions net {| self := t; world := w |}).
Proof.
  unfold NewOKXTrader. split.
  - intros [->|[->| ->]]; cbn [String.eqb orb]; rewrite ?orb_true_r; reflexivity.
  - intros Hk Hs Hp.
    apply String.eqb_neq in Hk, Hs, Hp. rewrite Hk, Hs, Hp. cbn [orb].
    eexists. split; [reflexivity|]. cbn [apiKey secretKey passphrase testnet baseURL
      cacheDuration symbolPrecision].
    do 7 (split; [reflexivity|]).
    intros w. split; [reflexivity|]. split; [reflexivity|].
    split; [now apply GetBalance_miss|now apply GetPositions_miss].
Qed.

End Construction.

Lemma NewOKXTrader_outcomes_witness :
  exists t, NewOKXTrader "key" "secret" "pass" false = Ok t
            /\ cacheDuration t = 15 * time.Second.
Proof.
  destruct (proj2 (NewOKXTrader_outcomes (broken "") "key" "secret" "pass" false))
    as (t & E & _ & _ & _ & _ & _ & D & _); try discriminate.
  exists t. split; assumption.
Defined.
